(** * photo-sorter: the project store and its file, duplicate detection,
      the stats counters, the folder scan and the photo order, browsing and
      sorting into categories, and the export / revert pipeline, embedded
      from the JavaScript source.

    Conventions of the embedding.
    - A JavaScript string is a Rocq [string]: a sequence of code units below
      256 (the Latin-1 range of UTF-16).  Whitespace, lower-casing and
      upper-casing are the ECMAScript ones restricted to that range.
    - A JavaScript object used as a dictionary ([project.images], [perTag])
      is an association list in insertion order with unique keys, because
      [Object.entries] and [for ... of] walk it in that order.  Only own
      properties are looked up: the keys are file names with an image
      extension and tags, taken not to be names of members of
      [Object.prototype].
    - Exceptions are explicit: a computation returns [Ok v] or [Throw e]
      together with the state it reached, and [try]/[catch] is a function
      on such results.
    - [new Date().toISOString()] and [Date.now()] are parameters, and so
      are [JSON.stringify] on the project and on the stats and the
      modification time [fs.statSync] reports. *)

From stdpp Require Import base strings list gmap pretty.
From Stdlib Require Import ZArith Lia Ascii String Sorting.Sorted Sorting.Permutation.

Open Scope string_scope.
Open Scope list_scope.

(* ===================================================================== *)
(** * JavaScript strings *)
(* ===================================================================== *)

Module JsString.

Definition code (c : ascii) : nat := nat_of_ascii c.

(** ECMAScript WhiteSpace and LineTerminator code points below 256:
    TAB, LF, VT, FF, CR, SPACE and NO-BREAK SPACE.  This is what [\s]
    matches and what [String.prototype.trim] strips. *)
Definition isWhiteSpace (c : ascii) : bool :=
  let n := code c in
  (Nat.leb 9 n && Nat.leb n 13) || Nat.eqb n 32 || Nat.eqb n 160.

Definition chars (s : string) : list ascii := list_ascii_of_string s.
Definition str (l : list ascii) : string := string_of_list_ascii l.

Fixpoint dropWhile {A} (f : A -> bool) (l : list A) : list A :=
  match l with
  | [] => []
  | x :: r => if f x then dropWhile f r else l
  end.

Definition dropWhileEnd {A} (f : A -> bool) (l : list A) : list A :=
  rev (dropWhile f (rev l)).

(** [s.trim()] *)
Definition trim (s : string) : string :=
  str (dropWhileEnd isWhiteSpace (dropWhile isWhiteSpace (chars s))).

(** [s.replace(/\s+/g, ' ')]: every maximal run of white space becomes
    one space.  [inRun] tells that the previous character was white
    space, so that the run has already been replaced. *)
Fixpoint collapseFrom (inRun : bool) (l : list ascii) : list ascii :=
  match l with
  | [] => []
  | c :: r =>
      if isWhiteSpace c
      then (if inRun then collapseFrom true r else " "%char :: collapseFrom true r)
      else c :: collapseFrom false r
  end.

Definition collapseWhiteSpace (s : string) : string :=
  str (collapseFrom false (chars s)).

Definition lowerChar (c : ascii) : ascii :=
  let n := code c in
  if (Nat.leb 65 n && Nat.leb n 90)
     || (Nat.leb 192 n && Nat.leb n 222 && negb (Nat.eqb n 215))
  then ascii_of_nat (n + 32) else c.

(** [s.toLowerCase()] on code units below 256. *)
Definition toLowerCase (s : string) : string := str (map lowerChar (chars s)).

Definition upperChar (c : ascii) : ascii :=
  let n := code c in
  if (Nat.leb 97 n && Nat.leb n 122)
     || (Nat.leb 224 n && Nat.leb n 254 && negb (Nat.eqb n 247))
  then ascii_of_nat (n - 32) else c.

(** [s.toUpperCase()].  The three Latin-1 letters whose upper case lies
    outside the range (sharp s, y with diaeresis, micro sign) are left
    as they are; the result is only ever compared with ASCII names,
    which neither their image nor they themselves can be part of. *)
Definition toUpperCase (s : string) : string := str (map upperChar (chars s)).

(** [s.startsWith(p)] *)
Fixpoint startsWithL (p l : list ascii) : bool :=
  match p, l with
  | [], _ => true
  | _ :: _, [] => false
  | a :: p', b :: l' => if Ascii.eqb a b then startsWithL p' l' else false
  end.

Definition startsWith (s p : string) : bool := startsWithL (chars p) (chars s).

(** Strict equality [a === b] of two strings. *)
Definition eqb (a b : string) : bool := String.eqb a b.

(** Truthiness of a string: every string but the empty one. *)
Definition truthy (s : string) : bool := negb (String.eqb s "").

End JsString.

(* ===================================================================== *)
(** * Dictionaries in insertion order *)
(* ===================================================================== *)

Module Dict.

Section Ops.
Context {V : Type}.

(** [o[k]] for an own property; [None] is [undefined]. *)
Fixpoint get (o : list (string * V)) (k : string) : option V :=
  match o with
  | [] => None
  | (k', v) :: r => if String.eqb k' k then Some v else get r k
  end.

(** [o[k] = v]: an existing property keeps its place, a new one is
    appended. *)
Fixpoint set (o : list (string * V)) (k : string) (v : V) : list (string * V) :=
  match o with
  | [] => [(k, v)]
  | (k', v') :: r =>
      if String.eqb k' k then (k', v) :: r else (k', v') :: set r k v
  end.

Definition keys (o : list (string * V)) : list string := map fst o.

End Ops.

End Dict.

(* ===================================================================== *)
(** * Node's [path] module, POSIX flavour *)
(* ===================================================================== *)

(** The program only joins a normalised directory with one segment (a file
    name, a sanitised tag, a fixed name) and takes such paths apart again;
    on those arguments the functions below are the ones of Node. *)
Module Path.

Import JsString.

Definition sep : ascii := "/"%char.
Definition isSep (c : ascii) : bool := Ascii.eqb c sep.
Definition isDot (c : ascii) : bool := Ascii.eqb c "."%char.

(** The part of [l] after its last separator, and the part before it
    ([None] when [l] has no separator). *)
Fixpoint lastSegment (l : list ascii) : list ascii :=
  match l with
  | [] => []
  | c :: r => if existsb isSep l then lastSegment r else l
  end.

Fixpoint beforeLastSep (l : list ascii) : option (list ascii) :=
  match l with
  | [] => None
  | c :: r =>
      match beforeLastSep r with
      | Some d => Some (c :: d)
      | None => if isSep c then Some [] else None
      end
  end.

(** [path.basename(p)] *)
Definition basenameL (p : list ascii) : list ascii :=
  lastSegment (dropWhileEnd isSep p).

Definition basename (p : string) : string := str (basenameL (chars p)).

(** [path.dirname(p)] *)
Definition dirname (p : string) : string :=
  match beforeLastSep (dropWhileEnd isSep (chars p)) with
  | None => if startsWithL [sep] (chars p) then "/" else "."
  | Some [] => "/"
  | Some d => str d
  end.

(** The extension of a base name: from its last dot on, unless that dot
    is its first character or it has none. *)
Fixpoint fromLastDot (l : list ascii) : option (list ascii) :=
  match l with
  | [] => None
  | c :: r =>
      match fromLastDot r with
      | Some e => Some e
      | None => if isDot c then Some l else None
      end
  end.

Definition extnameL (b : list ascii) : list ascii :=
  match b with
  | [] => []
  | c :: r =>
      if forallb isDot b && Nat.eqb (List.length b) 2 then []
      else match fromLastDot r with Some e => e | None => [] end
  end.

(** [path.extname(p)] *)
Definition extname (p : string) : string := str (extnameL (basenameL (chars p))).

(** [path.basename(p, ext)]: the extension is cut off the base name when
    the base name ends with it and is longer; a path that is the
    extension and nothing else gives the empty string. *)
Definition basenameExt (p ext : string) : string :=
  let b := basenameL (chars p) in
  let e := chars ext in
  match e with
  | [] => str b
  | _ =>
      if String.eqb p ext then ""
      else if startsWithL (rev e) (rev b) && Nat.ltb (List.length e) (List.length b)
      then str (rev (drop (List.length e) (rev b)))
      else str b
  end.

Definition endsWithSep (a : string) : bool :=
  match rev (chars a) with
  | c :: _ => isSep c
  | [] => false
  end.

(** [path.join(a, b)] *)
Definition join (a b : string) : string :=
  if String.eqb a "" then b
  else if String.eqb b "" then a
  else if endsWithSep a then a +:+ b
  else a +:+ "/" +:+ b.

End Path.

(* ===================================================================== *)
(** * JavaScript values read from JSON, and exceptions *)
(* ===================================================================== *)

Module Js.

Inductive Exn :=
| TypeError (msg : string)
| SystemError (code : string).     (* an [fs] error with its [code] *)

Inductive Result (A : Type) :=
| Ok (a : A)
| Throw (e : Exn).
Arguments Ok {A} a.
Arguments Throw {A} e.

(** What [JSON.parse] returns.  An array carries, besides its elements,
    the named properties the program may have assigned to it.  Numbers
    are integers here: the program only ever asks whether one is zero. *)
#[warnings="-register-all"] Inductive Json :=
| JNull
| JBool (b : bool)
| JNum (n : Z)
| JStr (s : string)
| JArr (elems : list Json) (props : list (string * Json))
| JObj (props : list (string * Json)).

(** [!!v] *)
Definition truthy (v : Json) : bool :=
  match v with
  | JNull => false
  | JBool b => b
  | JNum n => negb (Z.eqb n 0)
  | JStr s => JsString.truthy s
  | JArr _ _ | JObj _ => true
  end.

(** [!!v] where [None] is [undefined]. *)
Definition truthyOpt (v : option Json) : bool :=
  match v with Some x => truthy x | None => false end.

(** [typeof v === 'object'] *)
Definition isTypeofObject (v : Json) : bool :=
  match v with
  | JNull | JArr _ _ | JObj _ => true
  | _ => false
  end.

(** [v[k]] for [v] other than [null]: the own property, [undefined] on
    a primitive. *)
Definition getOwn (v : Json) (k : string) : option Json :=
  match v with
  | JObj kv => Dict.get kv k
  | JArr _ kv => Dict.get kv k
  | _ => None
  end.

(** [v[k] = x] in strict mode (a class body is strict): creating a
    property on a primitive throws. *)
Definition setOwn (v : Json) (k : string) (x : Json) : Result Json :=
  match v with
  | JObj kv => Ok (JObj (Dict.set kv k x))
  | JArr l kv => Ok (JArr l (Dict.set kv k x))
  | _ => Throw (TypeError "Cannot create property")
  end.

End Js.

(* ===================================================================== *)
(** * src/projectManager.js *)
(* ===================================================================== *)

Module ProjectManager.

(** An image entry [{ tags: [...] }]. *)
Record Entry := mkEntry { tags : list string }.

(** The project record of [#newProject]. *)
Record Project := mkProject {
  version : Z;
  root : string;
  images : list (string * Entry);
  allTags : list string;          (* the field [tags] of the project *)
  updatedAt : string
}.

(** [#newProject()]; [now] is [new Date().toISOString()]. *)
Definition newProject (now : string) : Project :=
  {| version := 1; root := "."; images := []; allTags := []; updatedAt := now |}.

(** [#normalizeTag(tag)] on a string argument. *)
Definition normalizeTag (tag : string) : string :=
  JsString.collapseWhiteSpace (JsString.trim tag).

(** [#equalTag(a, b)] *)
Definition equalTag (a b : string) : bool :=
  JsString.eqb (JsString.toLowerCase a) (JsString.toLowerCase b).

(** [#containsTag(list, candidate)]: [list.some(t => equalTag(t, candidate))] *)
Definition containsTag (l : list string) (candidate : string) : bool :=
  existsb (fun t => equalTag t candidate) l.

(** [#upsertGlobalTag(tag)].  The guard [!Array.isArray(this.project.tags)]
    never fires on a [Project], whose [tags] field is a list. *)
Definition upsertGlobalTag (p : Project) (tag : string) : Project :=
  if containsTag (allTags p) tag then p
  else {| version := version p; root := root p; images := images p;
          allTags := allTags p ++ [tag]; updatedAt := updatedAt p |}.

Definition withImages (p : Project) (im : list (string * Entry)) : Project :=
  {| version := version p; root := root p; images := im;
     allTags := allTags p; updatedAt := updatedAt p |}.

(** [addTag(fileName, rawTag)] *)
Definition addTag (p : Project) (fileName rawTag : string) : Project :=
  let tag := normalizeTag rawTag in
  if negb (JsString.truthy tag) then p
  else
    let p1 :=
      match Dict.get (images p) fileName with
      | None => withImages p (Dict.set (images p) fileName (mkEntry []))
      | Some _ => p
      end in
    let ts :=
      match Dict.get (images p1) fileName with
      | Some e => tags e
      | None => []
      end in
    let p2 :=
      if containsTag ts tag then p1
      else withImages p1 (Dict.set (images p1) fileName (mkEntry (ts ++ [tag]))) in
    upsertGlobalTag p2 tag.

(** [tags.findIndex(...)] followed by [tags.splice(idx, 1)]: the first
    match is removed. *)
Fixpoint removeFirst (tag : string) (l : list string) : list string :=
  match l with
  | [] => []
  | t :: r => if equalTag t tag then r else t :: removeFirst tag r
  end.

(** [removeTag(fileName, rawTag)] *)
Definition removeTag (p : Project) (fileName rawTag : string) : Project :=
  let tag := normalizeTag rawTag in
  if negb (JsString.truthy tag) then p
  else
    match Dict.get (images p) fileName with
    | None => p
    | Some e =>
        withImages p (Dict.set (images p) fileName (mkEntry (removeFirst tag (tags e))))
    end.

(** [getTags(fileName)] *)
Definition getTags (p : Project) (fileName : string) : list string :=
  match Dict.get (images p) fileName with
  | Some e => tags e
  | None => []
  end.

(** [getAllTags()] *)
Definition getAllTags (p : Project) : list string := allTags p.

(** ** Loading *)

Import Js.

(** The object [#newProject()] builds. *)
Definition newProjectJ (now : string) : Json :=
  JObj [("version", JNum 1); ("root", JStr "."); ("images", JObj []);
        ("tags", JArr [] []); ("updatedAt", JStr now)].

(** What the file system answers during one call of [loadOrCreate]. *)
Record Disk := mkDisk {
  (** the exception [#ensureProjectDir] throws, if it throws *)
  dirError : option Exn;
  (** [None]: no project file.  [Some None]: [#safeReadJson] returns
      [null], the file being unreadable or not JSON.  [Some (Some v)]:
      the file parses to [v]. *)
  projectFile : option (option Json);
  (** the exception [#atomicWrite] throws, if it throws *)
  writeError : option Exn
}.

(** The three places that read the clock. *)
Record Clock := mkClock {
  atNew : string;        (* [#newProject] in the [try] block *)
  atUpdate : string;     (* [this.project.updatedAt = ...] *)
  atCatch : string       (* [#newProject] in the [catch] block *)
}.

(** Lines 18-25: the project to start from. *)
Definition initialProject (d : Disk) (c : Clock) : Json :=
  match projectFile d with
  | Some (Some v) =>
      if negb (truthy v) || negb (isTypeofObject v) then newProjectJ (atNew c) else v
  | Some None => newProjectJ (atNew c)
  | None => newProjectJ (atNew c)
  end.

(** Lines 28-30: [map(p => path.basename(p)).filter(Boolean)] *)
Definition imageFileNames (initialImagePaths : list string) : list string :=
  filter (fun n => Is_true (JsString.truthy n)) (map Path.basename initialImagePaths).

(** Lines 31-35, the merge loop. *)
Fixpoint mergeImages (project : Json) (names : list string) : Result Json :=
  match names with
  | [] => Ok project
  | fileName :: rest =>
      match getOwn project "images" with
      | None => Throw (TypeError "Cannot read properties of undefined")
      | Some JNull => Throw (TypeError "Cannot read properties of null")
      | Some imgs =>
          if truthyOpt (getOwn imgs fileName) then mergeImages project rest
          else
            match setOwn imgs fileName (JObj [("tags", JArr [] [])]) with
            | Throw e => Throw e
            | Ok imgs' =>
                match setOwn project "images" imgs' with
                | Throw e => Throw e
                | Ok project' => mergeImages project' rest
                end
            end
      end
  end.

(** The [try] block of [loadOrCreate]. *)
Definition loadOrCreateBody (d : Disk) (c : Clock) (initialImagePaths : list string)
  : Result Json :=
  match dirError d with
  | Some e => Throw e
  | None =>
      match mergeImages (initialProject d c) (imageFileNames initialImagePaths) with
      | Throw e => Throw e
      | Ok project =>
          match setOwn project "updatedAt" (JStr (atUpdate c)) with
          | Throw e => Throw e
          | Ok project' =>
              match writeError d with
              | Some e => Throw e
              | None => Ok project'
              end
          end
      end
  end.

(** [loadOrCreate(initialImagePaths)]: the [try] block, and the [catch]
    block that answers any exception with a new project. *)
Definition loadOrCreate (d : Disk) (c : Clock) (initialImagePaths : list string)
  : Result Json :=
  match loadOrCreateBody d c initialImagePaths with
  | Ok project => Ok project
  | Throw _ => Ok (newProjectJ (atCatch c))
  end.

(** ** The project record as a JavaScript value *)

Definition encodeTags (l : list string) : Json := JArr (map JStr l) [].

Definition encodeEntry (e : Entry) : Json := JObj [("tags", encodeTags (tags e))].

Definition encodeImages (im : list (string * Entry)) : Json :=
  JObj (map (fun kv => (fst kv, encodeEntry (snd kv))) im).

Definition encode (p : Project) : Json :=
  JObj [("version", JNum (version p)); ("root", JStr (root p));
        ("images", encodeImages (images p));
        ("tags", encodeTags (allTags p)); ("updatedAt", JStr (updatedAt p))].

Definition asStr (v : Json) : option string :=
  match v with JStr s => Some s | _ => None end.

Definition decodeTags (v : option Json) : option (list string) :=
  match v with
  | Some (JArr l _) => mapM asStr l
  | _ => None
  end.

Definition decodeEntry (v : Json) : option Entry :=
  match v with
  | JObj kv => ts ← decodeTags (Dict.get kv "tags"); Some (mkEntry ts)
  | _ => None
  end.

Definition decodeImages (v : option Json) : option (list (string * Entry)) :=
  match v with
  | Some (JObj kv) => mapM (fun kv => e ← decodeEntry (snd kv); Some (fst kv, e)) kv
  | _ => None
  end.

(** The schema of the data model: an object with an integer [version],
    a string [root], an [images] object of [{ tags: [string, ...] }]
    entries, a [tags] array of strings and a string [updatedAt]. *)
Definition decode (v : Json) : option Project :=
  match v with
  | JObj kv =>
      match Dict.get kv "version", Dict.get kv "root", Dict.get kv "updatedAt" with
      | Some (JNum n), Some (JStr r), Some (JStr u) =>
          im ← decodeImages (Dict.get kv "images");
          ts ← decodeTags (Dict.get kv "tags");
          Some (mkProject n r im ts u)
      | _, _, _ => None
      end
  | _ => None
  end.

(** A valid project is a value of that schema. *)
Definition validProject (v : Json) : bool :=
  match decode v with Some _ => true | None => false end.

(** The merge of lines 31-35 on a project record. *)
Definition mergeName (p : Project) (fileName : string) : Project :=
  match Dict.get (images p) fileName with
  | Some _ => p
  | None => withImages p (Dict.set (images p) fileName (mkEntry []))
  end.

Definition touch (p : Project) (now : string) : Project :=
  {| version := version p; root := root p; images := images p;
     allTags := allTags p; updatedAt := now |}.

End ProjectManager.

Import ProjectManager.

(* ===================================================================== *)
(** * src/statsManager.js *)
(* ===================================================================== *)

Module StatsManager.

(** What [calculateFileHash] gets from outside: the bytes of a file
    ([None] when opening or reading it throws), the MD5 digest as a list
    of four-bit digits, and the clock. *)
Record HashEnv := mkHashEnv {
  fileBytes : string -> option string;
  md5 : string -> list N;
  dateNow : nat -> N       (* [Date.now()] while the i-th photo is hashed *)
}.

Definition hexChar (d : N) : ascii :=
  nth (N.to_nat (d mod 16)) (JsString.chars "0123456789abcdef") "0"%char.

(** [hash.digest('hex')] *)
Definition hexDigest (digits : list N) : string := JsString.str (map hexChar digits).

(** [maxBytes = 10 * 1024 * 1024] *)
Definition maxBytes : N := 10 * 1024 * 1024.

(** The first [n] code units of [l]. *)
Fixpoint firstBytes (n : N) (l : list ascii) : list ascii :=
  match l with
  | [] => []
  | c :: r => if N.eqb n 0 then [] else c :: firstBytes (N.pred n) r
  end.

(** [calculateFileHash(filePath)] for the photo at position [i].  The
    read stream opened on the first lines is never read from. *)
Definition calculateFileHash (env : HashEnv) (i : nat) (filePath : string) : string :=
  match fileBytes env filePath with
  | Some bytes =>
      hexDigest (md5 env (JsString.str (firstBytes maxBytes (JsString.chars bytes))))
  | None =>
      "error_" +:+ Path.basename filePath +:+ "_" +:+ pretty (dateNow env i)
  end.

(** An entry of [stats.duplicates]. *)
Record Duplicate := mkDuplicate { original : string; duplicate : string }.

Record Categorized := mkCategorized { yes : nat; no : nat; maybe : nat }.

Record Stats := mkStats {
  total : nat;
  categorized : Categorized;
  duplicates : list Duplicate;
  lastUpdated : option string
}.

(** The state of the duplicate scan: [this.photoHashes] and
    [this.stats.duplicates]. *)
Record Scan := mkScan {
  photoHashes : gmap string string;
  found : list Duplicate
}.

(** The body of [photos.forEach] for the photo at position [i]. *)
Definition scanPhoto (env : HashEnv) (s : Scan) (i : nat) (photo : string) : Scan :=
  let hash := calculateFileHash env i photo in
  match photoHashes s !! hash with
  | Some first =>
      if negb (JsString.startsWith hash "error_")
      then mkScan (photoHashes s) (found s ++ [mkDuplicate first photo])
      else mkScan (<[hash := photo]> (photoHashes s)) (found s)
  | None => mkScan (<[hash := photo]> (photoHashes s)) (found s)
  end.

(** [photos.forEach(...)] from position [i] on. *)
Fixpoint scanFrom (env : HashEnv) (s : Scan) (i : nat) (photos : list string) : Scan :=
  match photos with
  | [] => s
  | photo :: rest => scanFrom env (scanPhoto env s i photo) (S i) rest
  end.

(** The count of one category over [categorizationMap.values()]. *)
Definition countCategory (name : string) (history : list (string * string)) : nat :=
  List.length (filter (fun kv => Is_true (String.eqb (snd kv) name))
                      (map_to_list (list_to_map (M := gmap string string) (reverse history)))).

(** [initialize(photos, categorizationHistory)].  Nothing in its [try]
    block throws: [calculateFileHash] and [saveStats] catch their own
    exceptions. *)
Definition initialize (env : HashEnv) (now : string)
    (photos : list string) (history : list (string * string)) : Stats :=
  {| total := List.length photos;
     categorized := mkCategorized (countCategory "yes" history)
                                  (countCategory "no" history)
                                  (countCategory "maybe" history);
     duplicates := found (scanFrom env (mkScan ∅ []) 0 photos);
     lastUpdated := Some now |}.

End StatsManager.

(* ===================================================================== *)
(** * Node's [fs] module on a finite tree of paths *)
(* ===================================================================== *)

Module Fs.

Import Js.

Inductive Node :=
| File (content : string)
| Dir.

(** The file system: the node at every existing path. *)
Abbreviation FS := (gmap string Node).

(** What does not change while the program runs: the device a path is
    mounted on, and the paths that refuse every change. *)
Record Host := mkHost {
  deviceOf : string -> nat;
  readOnly : string -> bool
}.

(** A computation on the file system that may throw.  An exception keeps
    the changes made before it. *)
Definition M (A : Type) : Type := FS -> Result A * FS.

Definition ret {A} (a : A) : M A := fun fs => (Ok a, fs).

Definition throw {A} (e : Exn) : M A := fun fs => (Throw e, fs).

Definition bind {A B} (c : M A) (k : A -> M B) : M B :=
  fun fs =>
    match c fs with
    | (Ok a, fs') => k a fs'
    | (Throw e, fs') => (Throw e, fs')
    end.

(** [try { c } catch (e) { h(e) }] *)
Definition tryCatch {A} (c : M A) (h : Exn -> M A) : M A :=
  fun fs =>
    match c fs with
    | (Ok a, fs') => (Ok a, fs')
    | (Throw e, fs') => h e fs'
    end.

Notation "'let*' x ':=' c 'in' k" := (bind c (fun x => k))
  (at level 10, x name, c at level 100, k at level 200).
Notation "c ';;' k" := (bind c (fun _ => k))
  (at level 100, k at level 200, right associativity).

Definition err (code : string) : Exn := SystemError code.

(** [e.code === 'EXDEV'] *)
Definition isEXDEV (e : Exn) : bool :=
  match e with
  | SystemError code => String.eqb code "EXDEV"
  | TypeError _ => false
  end.

(** [String(e.message || e)] *)
Definition message (e : Exn) : string :=
  match e with
  | SystemError code => code
  | TypeError msg => msg
  end.

(** [fs.existsSync(p)] *)
Definition existsSync (fs : FS) (p : string) : bool :=
  match fs !! p with Some _ => true | None => false end.

Definition isFile (fs : FS) (p : string) : bool :=
  match fs !! p with Some (File _) => true | _ => false end.

(** The proper prefixes of a path that end just before a separator:
    its ancestor directories, the root apart. *)
Fixpoint ancestorsL (before after : list ascii) : list string :=
  match after with
  | [] => []
  | c :: r =>
      (if Path.isSep c && negb (Nat.eqb (List.length before) 0)
       then [JsString.str before] else [])
      ++ ancestorsL (before ++ [c]) r
  end.

Definition ancestors (p : string) : list string := ancestorsL [] (JsString.chars p).

(** [fs.mkdirSync(p, { recursive: true })] *)
Definition mkdirSync (h : Host) (p : string) : M unit :=
  fun fs =>
    if existsb (isFile fs) (ancestors p ++ [p]) then (Throw (err "ENOTDIR"), fs)
    else if existsb (fun d => negb (existsSync fs d) && readOnly h d) (ancestors p ++ [p])
    then (Throw (err "EACCES"), fs)
    else (Ok tt, foldl (fun acc d => if existsSync acc d then acc else <[d := Dir]> acc)
                       fs (ancestors p ++ [p])).

(** [fs.renameSync(src, dest)].  The program renames files only; the node
    at [src] goes to [dest], replacing what was there. *)
Definition renameSync (h : Host) (src dest : string) : M unit :=
  fun fs =>
    match fs !! src with
    | None => (Throw (err "ENOENT"), fs)
    | Some n =>
        if negb (existsSync fs (Path.dirname dest)) then (Throw (err "ENOENT"), fs)
        else if readOnly h src || readOnly h dest then (Throw (err "EACCES"), fs)
        else if negb (Nat.eqb (deviceOf h src) (deviceOf h dest))
        then (Throw (err "EXDEV"), fs)
        else (Ok tt, <[dest := n]> (delete src fs))
    end.

(** [fs.copyFileSync(src, dest)] *)
Definition copyFileSync (h : Host) (src dest : string) : M unit :=
  fun fs =>
    match fs !! src with
    | None => (Throw (err "ENOENT"), fs)
    | Some Dir => (Throw (err "EISDIR"), fs)
    | Some (File c) =>
        if negb (existsSync fs (Path.dirname dest)) then (Throw (err "ENOENT"), fs)
        else if readOnly h dest then (Throw (err "EACCES"), fs)
        else (Ok tt, <[dest := File c]> fs)
    end.

(** [fs.unlinkSync(p)] *)
Definition unlinkSync (h : Host) (p : string) : M unit :=
  fun fs =>
    match fs !! p with
    | None => (Throw (err "ENOENT"), fs)
    | Some Dir => (Throw (err "EISDIR"), fs)
    | Some (File _) =>
        if readOnly h p then (Throw (err "EACCES"), fs)
        else (Ok tt, delete p fs)
    end.

(** [fs.linkSync(src, dest)] *)
Definition linkSync (h : Host) (src dest : string) : M unit :=
  fun fs =>
    match fs !! src with
    | None => (Throw (err "ENOENT"), fs)
    | Some Dir => (Throw (err "EPERM"), fs)
    | Some (File c) =>
        if existsSync fs dest then (Throw (err "EEXIST"), fs)
        else if negb (existsSync fs (Path.dirname dest)) then (Throw (err "ENOENT"), fs)
        else if readOnly h dest then (Throw (err "EACCES"), fs)
        else if negb (Nat.eqb (deviceOf h src) (deviceOf h dest))
        then (Throw (err "EXDEV"), fs)
        else (Ok tt, <[dest := File c]> fs)
    end.

(** Is [q] the path [p] or a path below it? *)
Definition within (p q : string) : bool :=
  String.eqb p q || JsString.startsWith q (p +:+ "/").

(** [fs.rmSync(p, { recursive: true, force: true })] *)
Definition rmSync (h : Host) (p : string) : M unit :=
  fun fs =>
    if existsb (fun q => within p q && readOnly h q) (elements (dom fs))
    then (Throw (err "EACCES"), fs)
    else (Ok tt, filter (fun kv => negb (within p (fst kv)) = true) fs).

(** [fs.writeFileSync(p, content)] *)
Definition writeFileSync (h : Host) (p content : string) : M unit :=
  fun fs =>
    match fs !! p with
    | Some Dir => (Throw (err "EISDIR"), fs)
    | _ =>
        if negb (existsSync fs (Path.dirname p)) then (Throw (err "ENOENT"), fs)
        else if readOnly h p then (Throw (err "EACCES"), fs)
        else (Ok tt, <[p := File content]> fs)
    end.

(** What a path below [dir] starts with. *)
Definition childPrefix (dir : string) : string :=
  if Path.endsWithSep dir then dir else dir +:+ "/".

(** The name of [q] in [dir], when [q] is an entry of [dir]. *)
Definition entryName (dir q : string) : option string :=
  let d := JsString.chars (childPrefix dir) in
  let n := drop (List.length d) (JsString.chars q) in
  if JsString.startsWithL d (JsString.chars q)
     && negb (Nat.eqb (List.length n) 0) && negb (existsb Path.isSep n)
  then Some (JsString.str n) else None.

(** [fs.readdirSync(dir)]: the names of the entries of [dir], in an
    order of the system's choosing. *)
Definition readdirSync (dir : string) : M (list string) :=
  fun fs =>
    match fs !! dir with
    | None => (Throw (err "ENOENT"), fs)
    | Some (File _) => (Throw (err "ENOTDIR"), fs)
    | Some Dir => (Ok (omap (entryName dir) (elements (dom fs))), fs)
    end.

End Fs.

(* ===================================================================== *)
(** * photo-sorter.js *)
(* ===================================================================== *)

Module PhotoSorter.

Import Js Fs.

(** ** Ordering *)

(** What [orderPhotos] gets from outside: the capture time [exifr] finds
    ([None] when [exifr] is missing, throws, or finds no date), the
    modification time ([None] when [fs.statSync] throws), and
    [String.prototype.localeCompare] with [numeric: true] and
    [sensitivity: 'base'].  Times are milliseconds. *)
Record MetaEnv := mkMetaEnv {
  exifDate : string -> option Z;
  statMtime : string -> option Z;
  localeCompare : string -> string -> Z
}.

(** An element of [withMeta]. *)
Record Meta := mkMeta {
  file : string;
  exifDateMs : option Z;
  mtimeMs : Z;
  name : string
}.

(** The callback of [filePaths.map]. *)
Definition readMeta (env : MetaEnv) (f : string) : Meta :=
  {| file := f;
     exifDateMs := exifDate env f;
     mtimeMs := match statMtime env f with Some m => m | None => 0%Z end;
     name := Path.basename f |}.

(** The comparator given to [withMeta.sort]. *)
Definition comparePhotos (env : MetaEnv) (a b : Meta) : Z :=
  match exifDateMs a, exifDateMs b with
  | Some x, Some y =>
      if negb (Z.eqb x y) then (x - y)%Z
      else if negb (Z.eqb (mtimeMs a) (mtimeMs b)) then (mtimeMs a - mtimeMs b)%Z
      else localeCompare env (name a) (name b)
  | Some _, None => (-1)%Z
  | None, Some _ => 1%Z
  | None, None =>
      if negb (Z.eqb (mtimeMs a) (mtimeMs b)) then (mtimeMs a - mtimeMs b)%Z
      else localeCompare env (name a) (name b)
  end.

(** [Array.prototype.sort(cmp)] is stable; with a consistent comparator
    every stable sort returns the same array, here by insertion. *)
Fixpoint insertBy {A} (cmp : A -> A -> Z) (x : A) (l : list A) : list A :=
  match l with
  | [] => [x]
  | y :: r => if Z.leb (cmp x y) 0 then x :: l else y :: insertBy cmp x r
  end.

Fixpoint sortBy {A} (cmp : A -> A -> Z) (l : list A) : list A :=
  match l with
  | [] => []
  | x :: r => insertBy cmp x (sortBy cmp r)
  end.

(** [orderPhotos(filePaths)] *)
Definition orderPhotos (env : MetaEnv) (filePaths : list string) : list string :=
  map file (sortBy (comparePhotos env) (map (readMeta env) filePaths)).

(** ** Export helpers *)

(** The characters the first [replace] of [safeTagToFolder] turns into an
    underscore: less-than, greater-than, colon, double quote, slash,
    backslash, bar, question mark and star. *)
Definition isIllegal (c : ascii) : bool :=
  existsb (Nat.eqb (JsString.code c)) [60; 62; 58; 34; 47; 92; 124; 63; 42]%nat.

Definition isSpaceOrDot (c : ascii) : bool :=
  Ascii.eqb c " "%char || Ascii.eqb c "."%char.

Definition reserved : list string :=
  ["CON"; "PRN"; "AUX"; "NUL";
   "COM1"; "COM2"; "COM3"; "COM4"; "COM5"; "COM6"; "COM7"; "COM8"; "COM9";
   "LPT1"; "LPT2"; "LPT3"; "LPT4"; "LPT5"; "LPT6"; "LPT7"; "LPT8"; "LPT9"].

(** [safeTagToFolder(tag)] *)
Definition safeTagToFolder (tag : string) : string :=
  let s := JsString.trim tag in
  let s := JsString.str (map (fun c => if isIllegal c then "_"%char else c) (JsString.chars s)) in
  let s := JsString.trim (JsString.collapseWhiteSpace s) in
  let s := JsString.str (JsString.dropWhileEnd isSpaceOrDot (JsString.chars s)) in
  let s := if existsb (String.eqb (JsString.toUpperCase s)) reserved then "_" +:+ s else s in
  let s := if Nat.eqb (String.length s) 0 then "tag" else s in
  if Nat.ltb 100 (String.length s) then JsString.str (take 100 (JsString.chars s)) else s.

(** [ensureDirSync(dirPath)] *)
Definition ensureDirSync (h : Host) (dirPath : string) : M unit :=
  fun fs => if negb (existsSync fs dirPath) then mkdirSync h dirPath fs else (Ok tt, fs).

(** [moveWithFallbackSync(src, dest)] *)
Definition moveWithFallbackSync (h : Host) (src dest : string) : M unit :=
  tryCatch (renameSync h src dest)
    (fun e =>
       if isEXDEV e
       then copyFileSync h src dest ;;
            tryCatch (unlinkSync h src) (fun _ => ret tt)
       else throw e).

(** [linkOrCopySync(src, dest)] *)
Definition linkOrCopySync (h : Host) (src dest : string) : M unit :=
  tryCatch (linkSync h src dest) (fun _ => copyFileSync h src dest).

(** The name the loop of [uniquePath] tries at counter [i]. *)
Definition candidate (dir base ext : string) (i : nat) : string :=
  Path.join dir (base +:+ "_" +:+ pretty i +:+ ext).

(** The [while] loop of [uniquePath], entered with counter [i].  It stops
    at the first name that does not exist; [fuel] bounds the names tried,
    and [uniquePath] gives it more names than the file system has paths. *)
Fixpoint uniquePathLoop (fs : FS) (dir base ext : string) (fuel i : nat) : string :=
  let p := candidate dir base ext i in
  match fuel with
  | O => p
  | S fuel' => if existsSync fs p then uniquePathLoop fs dir base ext fuel' (S i) else p
  end.

(** [uniquePath(targetPath)] *)
Definition uniquePath (fs : FS) (targetPath : string) : string :=
  if negb (existsSync fs targetPath) then targetPath
  else
    let dir := Path.dirname targetPath in
    let ext := Path.extname targetPath in
    let base := Path.basenameExt targetPath ext in
    uniquePathLoop fs dir base ext (size fs) 1.

(** ** The export plan *)

Record Op := mkOp { src : string; dest : string }.

Record Plan := mkPlan {
  total : nat;
  tagged : nat;
  untagged : nat;
  perTag : list (string * nat);
  moves : list Op;
  links : list Op
}.

Definition emptyPlan : Plan := mkPlan 0 0 0 [] [] [].

(** The module-level variables the export code reads. *)
Record Globals := mkGlobals {
  photos : list string;
  sourceFolder : string;
  (** [projectManager.project], [None] when [projectManager] or its
      project is missing *)
  project : option Project
}.

(** Lines 431-436: the links of the tags after the first. *)
Fixpoint planLinks (h : Host) (exportRoot fileName destPrimary : string)
    (secondary : list string) (acc : list Op) : M (list Op) :=
  match secondary with
  | [] => ret acc
  | t :: rest =>
      let folder := Path.join exportRoot (safeTagToFolder t) in
      ensureDirSync h folder ;;
      fun fs =>
        let d := uniquePath fs (Path.join folder fileName) in
        planLinks h exportRoot fileName destPrimary rest (acc ++ [mkOp destPrimary d]) fs
  end.

(** Lines 437-439: [plan.perTag[t] = (plan.perTag[t] || 0) + 1] *)
Definition countTag (perTag : list (string * nat)) (t : string) : list (string * nat) :=
  Dict.set perTag t (match Dict.get perTag t with Some n => n | None => 0 end + 1).

(** The body of the loop over [fileNames]. *)
Definition planFile (h : Host) (g : Globals) (p : Project) (exportRoot : string)
    (plan : Plan) (fileName : string) : M Plan :=
  let tags := match Dict.get (images p) fileName with
              | Some e => tags e
              | None => []
              end in
  match tags with
  | [] => ret (mkPlan (total plan) (tagged plan) (untagged plan + 1)
                      (perTag plan) (moves plan) (links plan))
  | primary :: secondary =>
      let primaryFolder := Path.join exportRoot (safeTagToFolder primary) in
      ensureDirSync h primaryFolder ;;
      fun fs =>
        let srcAbs := Path.join (sourceFolder g) fileName in
        let destPrimary := uniquePath fs (Path.join primaryFolder fileName) in
        (let* ls := planLinks h exportRoot fileName destPrimary secondary (links plan) in
         ret (mkPlan (total plan) (tagged plan + 1) (untagged plan)
                     (foldl countTag (perTag plan) tags)
                     (moves plan ++ [mkOp srcAbs destPrimary]) ls)) fs
  end.

Fixpoint planFiles (h : Host) (g : Globals) (p : Project) (exportRoot : string)
    (plan : Plan) (fileNames : list string) : M Plan :=
  match fileNames with
  | [] => ret plan
  | fileName :: rest =>
      let* plan' := planFile h g p exportRoot plan fileName in
      planFiles h g p exportRoot plan' rest
  end.

(** [buildExportPlan(exportRoot)] *)
Definition buildExportPlan (h : Host) (g : Globals) (exportRoot : string) : M Plan :=
  match project g with
  | None => ret emptyPlan
  | Some p =>
      let fileNames := map Path.basename (photos g) in
      planFiles h g p exportRoot
        (mkPlan (List.length fileNames) 0 0 [] [] []) fileNames
  end.

(** [exportRootArg && typeof exportRootArg === 'string' ? exportRootArg : sourceFolder];
    [None] is an argument that is not a string. *)
Definition chooseRoot (g : Globals) (exportRootArg : option string) : string :=
  match exportRootArg with
  | Some r => if JsString.truthy r then r else sourceFolder g
  | None => sourceFolder g
  end.

(** The handler of ['export-dry-run']; [None] is its [null]. *)
Definition exportDryRun (h : Host) (g : Globals) (exportRootArg : option string)
  : M (option Plan) :=
  let exportRoot := chooseRoot g exportRootArg in
  tryCatch
    (ensureDirSync h exportRoot ;;
     let* plan := buildExportPlan h g exportRoot in
     ret (Some plan))
    (fun _ => ret None).

(** The first loop of ['export-execute']. *)
Fixpoint executeMoves (h : Host) (ms : list Op) : M unit :=
  match ms with
  | [] => ret tt
  | m :: rest =>
      ensureDirSync h (Path.dirname (dest m)) ;;
      moveWithFallbackSync h (src m) (dest m) ;;
      executeMoves h rest
  end.

(** The second loop of ['export-execute']. *)
Fixpoint executeLinks (h : Host) (ls : list Op) : M unit :=
  match ls with
  | [] => ret tt
  | l :: rest =>
      ensureDirSync h (Path.dirname (dest l)) ;;
      linkOrCopySync h (src l) (dest l) ;;
      executeLinks h rest
  end.

(** What ['export-execute'] returns. *)
Inductive ExecResult :=
| ExecOk (moved linked : nat)        (* [{ ok: true, moved, linked }] *)
| ExecFailed (error : string).       (* [{ ok: false, error }] *)

(** The handler of ['export-execute']. *)
Definition exportExecute (h : Host) (g : Globals) (exportRootArg : option string)
  : M ExecResult :=
  let exportRoot := chooseRoot g exportRootArg in
  tryCatch
    (let* plan := buildExportPlan h g exportRoot in
     executeMoves h (moves plan) ;;
     executeLinks h (links plan) ;;
     ret (ExecOk (List.length (moves plan)) (List.length (links plan))))
    (fun e => ret (ExecFailed (message e))).

(** ** The project manager inside the application *)

(** A [ProjectManager] object: its root, [this.project], and the slot
    [#saveTimer] with the contents its pending timer will write ([None]
    when no write is pending).  The only code that empties the slot is
    the timer's own callback, 500 ms after the last [save]. *)
Record Manager := mkManager {
  rootDirectory : string;
  current : option Project;
  saveTimer : option Project
}.

Definition projectDir (m : Manager) : string :=
  Path.join (rootDirectory m) ".photo-sorter".

(** [#scheduleSave(contents)]: a pending timer is cleared and a new one
    is set. *)
Definition scheduleSave (m : Manager) (contents : Project) : Manager :=
  mkManager (rootDirectory m) (current m) (Some contents).

(** [save()].  The manager it returns is the one reached, also when
    [#ensureProjectDir] throws. *)
Definition save (h : Host) (now : string) (m : Manager) (fs : FS)
  : Result unit * Manager * FS :=
  let p := match current m with Some p => p | None => newProject now end in
  let m1 := mkManager (rootDirectory m) (Some (touch p now)) (saveTimer m) in
  match ensureDirSync h (projectDir m1) fs with
  | (Throw e, fs') => (Throw e, m1, fs')
  | (Ok _, fs') => (Ok tt, scheduleSave m1 (touch p now), fs')
  end.

(** The module-level variables of the application. *)
Record App := mkApp {
  appPhotos : list string;
  appSourceFolder : string;
  projectManager : option Manager;
  (** is [statsManager] set? *)
  statsManager : bool
}.

Definition globals (a : App) : Globals :=
  mkGlobals (appPhotos a) (appSourceFolder a)
            (match projectManager a with Some m => current m | None => None end).

Definition withManager (a : App) (m : Manager) : App :=
  mkApp (appPhotos a) (appSourceFolder a) (Some m) (statsManager a).

(** A tag request: ['add-photo-tag'] or ['remove-photo-tag'] with its
    payload. *)
Inductive TagRequest :=
| AddTag (filePath tag : string)
| RemoveTag (filePath tag : string).

Definition requestPath (r : TagRequest) : string :=
  match r with AddTag f _ | RemoveTag f _ => f end.

Definition requestTag (r : TagRequest) : string :=
  match r with AddTag _ t | RemoveTag _ t => t end.

(** [projectManager.addTag] or [projectManager.removeTag] *)
Definition mutate (r : TagRequest) (p : Project) : Project :=
  match r with
  | AddTag f t => addTag p (Path.basename f) t
  | RemoveTag f t => removeTag p (Path.basename f) t
  end.

(** The same on [this.project], which is [null] until a project is
    loaded: a tag that normalises to the empty string returns before the
    project is read, any other tag throws on [null]. *)
Definition mutateCurrent (r : TagRequest) (cur : option Project) : Result (option Project) :=
  match cur with
  | Some p => Ok (Some (mutate r p))
  | None =>
      if negb (JsString.truthy (normalizeTag (requestTag r))) then Ok None
      else Throw (TypeError "Cannot read properties of null")
  end.

(** The handlers of ['add-photo-tag'] and ['remove-photo-tag'].  Both end
    with [statsManager.updateFromProject(...)], a method [StatsManager]
    does not have: when [statsManager] is set the call throws and the
    handler answers [[]], after the tag change and the [save]. *)
Definition tagHandler (h : Host) (now : string) (r : TagRequest) (a : App) (fs : FS)
  : list string * App * FS :=
  match projectManager a with
  | None => ([], a, fs)
  | Some m =>
      if negb (JsString.truthy (requestPath r)) || negb (JsString.truthy (requestTag r))
      then ([], a, fs)
      else
        match mutateCurrent r (current m) with
        | Throw _ => ([], a, fs)
        | Ok cur =>
            let fileName := Path.basename (requestPath r) in
            let m1 := mkManager (rootDirectory m) cur (saveTimer m) in
            match save h now m1 fs with
            | (Throw _, m2, fs') => ([], withManager a m2, fs')
            | (Ok _, m2, fs') =>
                if statsManager a then ([], withManager a m2, fs')
                else (match current m2 with
                      | Some p2 => getTags p2 fileName
                      | None => []
                      end, withManager a m2, fs')
            end
        end
  end.

(** The handler of ['export-execute'] on the application. *)
Definition exportExecuteHandler (h : Host) (exportRootArg : option string)
    (a : App) (fs : FS) : ExecResult * App * FS :=
  match exportExecute h (globals a) exportRootArg fs with
  | (Ok r, fs') => (r, a, fs')
  | (Throw e, fs') => (ExecFailed (message e), a, fs')
  end.

(** ** Revert *)

(** [tryUnlink(p)] *)
Definition tryUnlink (h : Host) (p : string) : M unit :=
  tryCatch (unlinkSync h p) (fun _ => ret tt).

(** [tryRmDirRecursive(p)] *)
Definition tryRmDirRecursive (h : Host) (p : string) : M unit :=
  tryCatch (rmSync h p) (fun _ => ret tt).

(** Lines 511-519: the copies under the tags after the first. *)
Fixpoint revertSecondary (h : Host) (folder fileName : string)
    (secondary : list string) (removed : nat) : M nat :=
  match secondary with
  | [] => ret removed
  | t :: rest =>
      let p := Path.join (Path.join folder (safeTagToFolder t)) fileName in
      fun fs =>
        if existsSync fs p
        then (tryUnlink h p ;; revertSecondary h folder fileName rest (removed + 1)) fs
        else revertSecondary h folder fileName rest removed fs
  end.

(** Lines 500-520: the loop over [Object.entries(project.images)], with
    the counters [restored] and [removed]. *)
Fixpoint revertImages (h : Host) (folder : string)
    (entries : list (string * Entry)) (restored removed : nat) : M (nat * nat) :=
  match entries with
  | [] => ret (restored, removed)
  | (fileName, entry) :: rest =>
      match tags entry with
      | [] => revertImages h folder rest restored removed
      | primary :: secondary =>
          let primaryPath := Path.join (Path.join folder (safeTagToFolder primary)) fileName in
          let* restored' :=
            (fun fs =>
               if existsSync fs primaryPath
               then (moveWithFallbackSync h primaryPath
                       (uniquePath fs (Path.join folder fileName)) ;;
                     ret (restored + 1)) fs
               else ret restored fs) in
          let* removed' := revertSecondary h folder fileName secondary removed in
          revertImages h folder rest restored' removed'
      end
  end.

(** Lines 524-527 *)
Fixpoint removeTagDirs (h : Host) (folder : string) (ts : list string) : M unit :=
  match ts with
  | [] => ret tt
  | t :: rest =>
      tryRmDirRecursive h (Path.join folder (safeTagToFolder t)) ;;
      removeTagDirs h folder rest
  end.

(** What ['revert-export'] returns. *)
Inductive RevertResult :=
| RevertOk (restored removed : nat)   (* [{ ok: true, restored, removed }] *)
| RevertFailed (error : string).      (* [{ ok: false, error }] *)

(** The handler of ['revert-export'].  [reopen] is what lines 490-493 do
    when no project manager exists: build one on the source folder and
    let it load or create its project. *)
Definition revertExportHandler (h : Host) (reopen : FS -> Manager * FS)
    (a : App) (fs : FS) : RevertResult * App * FS :=
  let '(m, fs0) := match projectManager a with
                   | Some m => (m, fs)
                   | None => reopen fs
                   end in
  let a' := withManager a m in
  let folder := appSourceFolder a in
  let body :=
    (let* counts :=
       match current m with
       | Some p => revertImages h folder (images p) 0 0
       | None => ret (0, 0)
       end in
     removeTagDirs h folder (match current m with Some p => allTags p | None => [] end) ;;
     let dir := Path.join folder ".photo-sorter" in
     tryUnlink h (Path.join dir "project.json") ;;
     tryRmDirRecursive h dir ;;
     ret (RevertOk (fst counts) (snd counts))) in
  match body fs0 with
  | (Ok r, fs') => (r, a', fs')
  | (Throw e, fs') => (RevertFailed (message e), a', fs')
  end.

End PhotoSorter.

(* ===================================================================== *)
(** * src/statsManager.js: the counters and the stats file *)
(* ===================================================================== *)

Module StatsCounters.

Import Js Fs StatsManager.

(** A [StatsManager] object: its folder, [this.stats] and
    [this.categorizationMap]. *)
Record Manager := mkManager {
  sourceFolder : string;
  stats : Stats;
  categorizationMap : gmap string string
}.

(** [this.stats.categorized.hasOwnProperty(name)] *)
Definition hasCategory (name : string) : bool :=
  String.eqb name "yes" || String.eqb name "no" || String.eqb name "maybe".

(** [this.stats.categorized[name]] for a name that is an own property. *)
Definition getCategory (c : Categorized) (name : string) : nat :=
  if String.eqb name "yes" then yes c
  else if String.eqb name "no" then no c
  else maybe c.

(** [this.stats.categorized[name] = n] for a name that is an own
    property. *)
Definition setCategory (c : Categorized) (name : string) (n : nat) : Categorized :=
  if String.eqb name "yes" then mkCategorized n (no c) (maybe c)
  else if String.eqb name "no" then mkCategorized (yes c) n (maybe c)
  else mkCategorized (yes c) (no c) n.

Definition statsPath (m : Manager) : string :=
  Path.join (sourceFolder m) "photo_sorter_stats.json".

Definition tempPath (m : Manager) : string := statsPath m +:+ ".tmp".

(** [saveStats()]; [stringify] is [JSON.stringify(_, null, 2)] on the
    stats. *)
Definition saveStats (h : Host) (stringify : Stats -> string) (m : Manager) : M unit :=
  tryCatch
    (writeFileSync h (tempPath m) (stringify (stats m)) ;;
     renameSync h (tempPath m) (statsPath m))
    (fun _ => ret tt).

(** Lines 110-124 of [updateStats]: the change of the object. *)
Definition updated (now : string) (newCategory : string)
    (previousCategory photoPath : option string) (m : Manager) : Manager :=
  let c0 := categorized (stats m) in
  let c1 :=
    match previousCategory with
    | Some prev =>
        if JsString.truthy prev && hasCategory prev
        then setCategory c0 prev (Nat.max 0 (getCategory c0 prev - 1))
        else c0
    | None => c0
    end in
  let c2 :=
    if hasCategory newCategory
    then setCategory c1 newCategory (getCategory c1 newCategory + 1)
    else c1 in
  let map' :=
    match photoPath with
    | Some p => if JsString.truthy p then <[p := newCategory]> (categorizationMap m)
                else categorizationMap m
    | None => categorizationMap m
    end in
  mkManager (sourceFolder m)
            (mkStats (total (stats m)) c2 (duplicates (stats m)) (Some now))
            map'.

(** [updateStats(newCategory, previousCategory, photoPath)].  Nothing in
    its [try] block throws, [saveStats] catching its own exceptions. *)
Definition updateStats (h : Host) (stringify : Stats -> string) (now : string)
    (newCategory : string) (previousCategory photoPath : option string)
    (m : Manager) (fs : FS) : Manager * FS :=
  let m' := updated now newCategory previousCategory photoPath m in
  (m', snd (saveStats h stringify m' fs)).

(** What [getStats()] returns: the stats and the two numbers it adds. *)
Record StatsView := mkStatsView {
  viewed : Stats;
  categorizedTotal : nat;
  remaining : Z
}.

(** [Object.values(this.stats.categorized).reduce((a, b) => a + b, 0)] *)
Definition sumCategorized (c : Categorized) : nat := 0 + yes c + no c + maybe c.

(** [getStats()] *)
Definition getStats (m : Manager) : StatsView :=
  {| viewed := stats m;
     categorizedTotal := sumCategorized (categorized (stats m));
     remaining := (Z.of_nat (total (stats m))
                   - Z.of_nat (sumCategorized (categorized (stats m))))%Z |}.

End StatsCounters.

(* ===================================================================== *)
(** * photo-sorter.js: browsing and sorting into categories *)
(* ===================================================================== *)

Module Browsing.

Import Js Fs.

(** The module-level variables these handlers read and write. *)
Record Session := mkSession {
  photos : list string;
  currentPhotoIndex : Z;
  sourceFolder : string;
  categorizationHistory : gmap string string;
  statsManager : option StatsCounters.Manager
}.

(** [photos[i]]; [None] is [undefined]. *)
Definition photoAt (l : list string) (i : Z) : option string :=
  if (i <? 0)%Z then None else l !! Z.to_nat i.

(** The object the browsing handlers answer with. *)
Record PhotoView := mkPhotoView {
  photo : option string;
  index : Z;
  viewTotal : nat;
  category : option string;
  viewStats : option StatsCounters.StatsView
}.

(** [categorizationHistory.get(photo) || null] *)
Definition categoryOf (s : Session) (p : option string) : option string :=
  match p with
  | Some f =>
      match categorizationHistory s !! f with
      | Some c => if JsString.truthy c then Some c else None
      | None => None
      end
  | None => None
  end.

(** The answer for the photo the index is on. *)
Definition view (s : Session) : PhotoView :=
  let p := photoAt (photos s) (currentPhotoIndex s) in
  {| photo := p;
     index := currentPhotoIndex s;
     viewTotal := List.length (photos s);
     category := categoryOf s p;
     viewStats := StatsCounters.getStats <$> statsManager s |}.

Definition withIndex (s : Session) (i : Z) : Session :=
  mkSession (photos s) i (sourceFolder s) (categorizationHistory s) (statsManager s).

(** The handler of ['get-next-photo']; [%] is the remainder of
    JavaScript, which has the sign of the dividend. *)
Definition getNextPhoto (s : Session) : option PhotoView * Session :=
  if Nat.eqb (List.length (photos s)) 0 then (None, s)
  else
    let s' := withIndex s (Z.rem (currentPhotoIndex s + 1)
                                 (Z.of_nat (List.length (photos s)))) in
    (Some (view s'), s').

(** The handler of ['get-prev-photo']. *)
Definition getPrevPhoto (s : Session) : option PhotoView * Session :=
  if Nat.eqb (List.length (photos s)) 0 then (None, s)
  else
    let s' := withIndex s (Z.rem (currentPhotoIndex s - 1
                                  + Z.of_nat (List.length (photos s)))
                                 (Z.of_nat (List.length (photos s)))) in
    (Some (view s'), s').

(** [getUniqueFilePath(targetPath)]: the loop is the one of
    [uniquePath]. *)
Definition getUniqueFilePath (fs : FS) (targetPath : string) : string :=
  if negb (existsSync fs targetPath) then targetPath
  else
    let dir := Path.dirname targetPath in
    let ext := Path.extname targetPath in
    let baseName := Path.basenameExt targetPath ext in
    PhotoSorter.uniquePathLoop fs dir baseName ext (size fs) 1.

(** The folder a category is copied to. *)
Definition targetFolder (s : Session) (category : string) : string :=
  Path.join (Path.join (sourceFolder s) "sorted") category.

(** What ['categorize-photo'] answers on success: the next photo, and
    the photo and category it has just recorded. *)
Record Categorization := mkCategorization {
  next : PhotoView;
  categorizedPhoto : string;
  categorizedAs : string
}.

(** The handler of ['categorize-photo']; [None] is its [null].  An index
    outside the list makes [path.basename(undefined)] throw, which the
    outer [catch] answers with [null]. *)
Definition categorizePhoto (h : Host) (stringify : StatsManager.Stats -> string)
    (now : string) (category : string) (s : Session) (fs : FS)
  : option Categorization * Session * FS :=
  if Nat.eqb (List.length (photos s)) 0 then (None, s, fs)
  else if negb (StatsCounters.hasCategory category) then (None, s, fs)
  else
    match photoAt (photos s) (currentPhotoIndex s) with
    | None => (None, s, fs)
    | Some currentPhoto =>
        let fileName := Path.basename currentPhoto in
        let previousCategory := categorizationHistory s !! currentPhoto in
        let targetPath :=
          getUniqueFilePath fs (Path.join (targetFolder s category) fileName) in
        match copyFileSync h currentPhoto targetPath fs with
        | (Throw _, fs1) => (None, s, fs1)
        | (Ok _, fs1) =>
            let history := <[currentPhoto := category]> (categorizationHistory s) in
            let '(manager, fs2) :=
              match statsManager s with
              | Some m =>
                  let '(m', fs2) :=
                    StatsCounters.updateStats h stringify now category
                      previousCategory None m fs1 in
                  (Some m', fs2)
              | None => (None, fs1)
              end in
            let s' := mkSession (photos s)
                        (Z.rem (currentPhotoIndex s + 1)
                               (Z.of_nat (List.length (photos s))))
                        (sourceFolder s) history manager in
            (Some (mkCategorization (view s') currentPhoto category), s', fs2)
        end
    end.

End Browsing.

(* ===================================================================== *)
(** * photo-sorter.js: reading the tags *)
(* ===================================================================== *)

Module TagQueries.

Import PhotoSorter.

(** The handler of ['get-photo-tags'].  With no project loaded
    [getTags] throws on [null] and the handler answers [[]]. *)
Definition getPhotoTags (a : App) (filePathArg : string) : list string :=
  match projectManager a with
  | None => []
  | Some m =>
      if negb (JsString.truthy filePathArg) then []
      else match current m with
           | Some p => getTags p (Path.basename filePathArg)
           | None => []
           end
  end.

(** The handler of ['get-all-tags'] *)
Definition getAllTagsHandler (a : App) : list string :=
  match projectManager a with
  | None => []
  | Some m =>
      match current m with
      | Some p => getAllTags p
      | None => []
      end
  end.

End TagQueries.

(* ===================================================================== *)
(** * src/projectManager.js: writing the project file *)
(* ===================================================================== *)

Module ProjectFile.

Import Js Fs PhotoSorter.

(** What the writing code gets from outside: [JSON.stringify(_, null, 2)]
    on a project, and the modification time [fs.statSync] reports for a
    path. *)
Record WriteEnv := mkWriteEnv {
  stringify : Project -> string;
  mtimeMs : string -> Z
}.

Definition projectFilePath (m : Manager) : string :=
  Path.join (projectDir m) "project.json".

Definition backupsDir (m : Manager) : string := Path.join (projectDir m) "backups".

(** [iso.replace(/[-:T.Z]/g, '').slice(0, 14)] *)
Definition stamp (iso : string) : string :=
  JsString.str
    (take 14 (List.filter
                (fun c => negb (existsb (Ascii.eqb c) (JsString.chars "-:T.Z")))
                (JsString.chars iso))).

Definition backupPath (m : Manager) (now : string) : string :=
  Path.join (backupsDir m) ("project-" +:+ stamp now +:+ ".json").

(** [s.endsWith(e)] *)
Definition endsWith (s e : string) : bool :=
  JsString.startsWithL (rev (JsString.chars e)) (rev (JsString.chars s)).

(** [f.startsWith('project-') && f.endsWith('.json')] *)
Definition isBackupName (f : string) : bool :=
  JsString.startsWith f "project-" && endsWith f ".json".

(** [MAX] *)
Definition maxBackups : nat := 5.

(** The comparator [(a, b) => b.t - a.t]: newest first. *)
Definition newestFirst (a b : string * Z) : Z := (snd b - snd a)%Z.

(** [files.slice(MAX).forEach(...)], each [unlinkSync] in a [try] of
    its own. *)
Fixpoint unlinkEach (h : Host) (dir : string) (entries : list (string * Z)) : M unit :=
  match entries with
  | [] => ret tt
  | entry :: rest =>
      tryUnlink h (Path.join dir (fst entry)) ;;
      unlinkEach h dir rest
  end.

(** Lines 121-128: the backups beyond the newest [MAX] are removed. *)
Definition trimBackups (h : Host) (env : WriteEnv) (dir : string) : M unit :=
  let* items := readdirSync dir in
  let files := map (fun f => (f, mtimeMs env (Path.join dir f)))
                   (List.filter isBackupName items) in
  unlinkEach h dir (drop maxBackups (sortBy newestFirst files)).

(** Lines 112-129, the body of the first [try] of [#atomicWrite].
    Lines 114-116 do to the backups folder what [ensureDirSync] does. *)
Definition backup (h : Host) (env : WriteEnv) (now : string) (m : Manager)
    (targetPath : string) : M unit :=
  fun fs =>
    if existsSync fs targetPath
    then (ensureDirSync h (backupsDir m) ;;
          copyFileSync h targetPath (backupPath m now) ;;
          trimBackups h env (backupsDir m)) fs
    else ret tt fs.

(** [#atomicWrite(targetPath, contents)] *)
Definition atomicWrite (h : Host) (env : WriteEnv) (now : string) (m : Manager)
    (targetPath contents : string) : M unit :=
  tryCatch (backup h env now m targetPath) (fun _ => ret tt) ;;
  writeFileSync h (targetPath +:+ ".tmp") contents ;;
  renameSync h (targetPath +:+ ".tmp") targetPath.

(** The callback [#scheduleSave] gives to [setTimeout], run when the
    timer fires: the text scheduled last is written, and the slot is
    emptied also when the write throws. *)
Definition timerFires (h : Host) (env : WriteEnv) (now : string) (m : Manager) (fs : FS)
  : Result unit * Manager * FS :=
  match saveTimer m with
  | None => (Ok tt, m, fs)
  | Some contents =>
      let '(r, fs') := atomicWrite h env now m (projectFilePath m)
                         (stringify env contents) fs in
      (r, mkManager (rootDirectory m) (current m) None, fs')
  end.

End ProjectFile.

(* ===================================================================== *)
(** * photo-sorter.js: scanning the folder *)
(* ===================================================================== *)

Module Scanning.

Import Js Fs.

(** [imageExtensions] *)
Definition imageExtensions : list string :=
  [".jpg"; ".jpeg"; ".png"; ".gif"; ".bmp"; ".tiff"; ".webp"].

(** The callback of [items.forEach]: the path pushed for an item, if
    one is.  The file system has no symbolic links, and [lstatSync]
    throws on a path that does not exist, which skips the item. *)
Definition scanItem (fs : FS) (directory item : string) : option string :=
  let itemPath := Path.join directory item in
  match fs !! itemPath with
  | Some (File _) =>
      if existsb (String.eqb (JsString.toLowerCase (Path.extname item))) imageExtensions
         && existsSync fs itemPath
      then Some itemPath else None
  | _ => None
  end.

(** [getImageFiles(directory)] *)
Definition getImageFiles (directory : string) : M (list string) :=
  let* items := readdirSync directory in
  fun fs => (Ok (omap (scanItem fs directory) items), fs).

End Scanning.

(* ===================================================================== *)
(** * The statements of the specification *)
(* ===================================================================== *)

(** What follows is written from the specification, to be compared with
    the functions above, together with the scenarios it describes. *)

(** ** Tags *)

(** The stored tags of a list that equal [n] when case is ignored. *)
Definition matching (n : string) (l : list string) : list string :=
  List.filter (fun t => equalTag t n) l.

(** Adding a tag to a list only if no stored tag equals it up to case. *)
Definition pushOnce (l : list string) (n : string) : list string :=
  if containsTag l n then l else l ++ [n].

(** C4, as the claim states it: whenever two tag strings normalise to the
    same value up to case, adding both to a photo leaves exactly one
    stored tag matching them. *)
Definition addTag_twice_stores_one (p : Project) (f t1 t2 : string) : Prop :=
  JsString.toLowerCase (normalizeTag t1) = JsString.toLowerCase (normalizeTag t2) ->
  exists stored,
    matching (normalizeTag t1) (getTags (addTag (addTag p f t1) f t2) f) = [stored].

(** ** Loading *)

(** The parsed project file that passes the guard of line 20, if any. *)
Definition accepted (d : Disk) : option Js.Json :=
  match projectFile d with
  | Some (Some v) => if negb (Js.truthy v) || negb (Js.isTypeofObject v) then None else Some v
  | _ => None
  end.

(** C6, as the claim states it: for every input [loadOrCreate] returns a
    valid project. *)
Definition loadOrCreate_returns_valid_project
    (d : Disk) (c : Clock) (paths : list string) : Prop :=
  exists v, loadOrCreate d c paths = Js.Ok v /\ validProject v = true.

Definition someClock : Clock :=
  mkClock "2024-01-01T00:00:00.000Z" "2024-01-01T00:00:00.001Z" "2024-01-01T00:00:00.002Z".

(** ** Duplicates *)

(** A photo with the fingerprint [calculateFileHash] gave it, and whether
    that fingerprint is the fallback of the [catch] block. *)
Record Fingerprinted := mkFingerprinted {
  fpPhoto : string;
  fpHash : string;
  fpFallback : bool
}.

Definition fingerprint (env : StatsManager.HashEnv) (i : nat) (photo : string)
  : Fingerprinted :=
  {| fpPhoto := photo;
     fpHash := StatsManager.calculateFileHash env i photo;
     fpFallback := match StatsManager.fileBytes env photo with
                   | Some _ => false
                   | None => true
                   end |}.

(** The photos in scan order, from position [i] on. *)
Fixpoint fingerprintsFrom (env : StatsManager.HashEnv) (i : nat) (photos : list string)
  : list Fingerprinted :=
  match photos with
  | [] => []
  | photo :: rest => fingerprint env i photo :: fingerprintsFrom env (S i) rest
  end.

(** The first photo seen so far with the fingerprint [h]. *)
Definition firstWith (h : string) (seen : list Fingerprinted) : option Fingerprinted :=
  List.find (fun y => String.eqb (fpHash y) h) seen.

(** The pairs the specification asks for: walking the scan order, every
    photo whose fingerprint is no fallback and was produced before is
    paired with the first photo that produced it. *)
Fixpoint expectedPairs (seen rest : list Fingerprinted) : list StatsManager.Duplicate :=
  match rest with
  | [] => []
  | x :: r =>
      (if fpFallback x then []
       else match firstWith (fpHash x) seen with
            | Some y => [StatsManager.mkDuplicate (fpPhoto y) (fpPhoto x)]
            | None => []
            end)
      ++ expectedPairs (seen ++ [x]) r
  end.

(** What the scan keeps true: for every fingerprint that is no fallback,
    [photoHashes] holds the first photo that produced it. *)
Definition remembersFirst (seen : list Fingerprinted) (m : gmap string string) : Prop :=
  forall h, JsString.startsWith h "error_" = false ->
            m !! h = fpPhoto <$> firstWith h seen.

(** A folder for examples: [a.jpg] and [b.jpg] hold the same bytes,
    [c.jpg] cannot be read, and the digest is a toy one (the code of
    every byte). *)
Definition exampleHashEnv : StatsManager.HashEnv :=
  StatsManager.mkHashEnv
    (fun f => if String.eqb f "/photos/c.jpg" then None else
              if String.eqb f "/photos/d.jpg" then Some "other bytes" else Some "same bytes")
    (fun bytes => map (fun c => N.of_nat (JsString.code c)) (JsString.chars bytes))
    (fun _ => 1700000000000%N).

(** ** Ordering *)

(** The precedence of the specification, tier by tier. *)
Definition byNameTier (env : PhotoSorter.MetaEnv) (a b : PhotoSorter.Meta) : Prop :=
  (PhotoSorter.localeCompare env (PhotoSorter.name a) (PhotoSorter.name b) <= 0)%Z.

Definition byMtimeTier (env : PhotoSorter.MetaEnv) (a b : PhotoSorter.Meta) : Prop :=
  (PhotoSorter.mtimeMs a < PhotoSorter.mtimeMs b)%Z
  \/ (PhotoSorter.mtimeMs a = PhotoSorter.mtimeMs b /\ byNameTier env a b).

(** [a] may stand before [b]: by capture time, a photo with one before
    any without; capture times absent or tied, by modification time;
    those tied, by name. *)
Definition precedes (env : PhotoSorter.MetaEnv) (a b : PhotoSorter.Meta) : Prop :=
  match PhotoSorter.exifDateMs a, PhotoSorter.exifDateMs b with
  | Some x, Some y => (x < y)%Z \/ (x = y /\ byMtimeTier env a b)
  | Some _, None => True
  | None, Some _ => False
  | None, None => byMtimeTier env a b
  end.

(** A natural, case-blind comparison of names, to run the ordering on. *)
Module Collation.

Definition isDigit (c : ascii) : bool :=
  Nat.leb 48 (JsString.code c) && Nat.leb (JsString.code c) 57.

Definition flush (acc : option Z) : list Z :=
  match acc with Some n => [0; n]%Z | None => [] end.

(** The key of a name: a run of digits counts as the number it writes, any
    other character as its lower-case code; numbers go before
    characters.  [acc] is the number of the run being read. *)
Fixpoint keyFrom (acc : option Z) (l : list ascii) : list Z :=
  match l with
  | [] => flush acc
  | c :: r =>
      if isDigit c
      then keyFrom (Some (10 * (match acc with Some n => n | None => 0 end)
                          + Z.of_nat (JsString.code c - 48))%Z) r
      else flush acc ++ [1%Z; Z.of_nat (JsString.code (JsString.lowerChar c))] ++ keyFrom None r
  end.

Definition naturalKey (s : string) : list Z := keyFrom None (JsString.chars s).

Fixpoint lexCompare (a b : list Z) : Z :=
  match a, b with
  | [], [] => 0
  | [], _ :: _ => -1
  | _ :: _, [] => 1
  | x :: a', y :: b' =>
      if Z.ltb x y then -1 else if Z.ltb y x then 1 else lexCompare a' b'
  end.

(** A comparison with the contract of
    [a.localeCompare(b, undefined, { numeric: true, sensitivity: 'base' })]
    on unaccented names. *)
Definition naturalCompare (s t : string) : Z := lexCompare (naturalKey s) (naturalKey t).

End Collation.

(** The three photos of the ordering scenario: capture times 2000 and
    1000 on two of them, none on the third. *)
Definition scenarioMeta : PhotoSorter.MetaEnv :=
  PhotoSorter.mkMetaEnv
    (fun f => if String.eqb f "/photos/b.jpg" then Some 2000%Z
              else if String.eqb f "/photos/c.jpg" then Some 1000%Z else None)
    (fun f => Some 5000%Z)
    Collation.naturalCompare.

(** ** Export *)

(** [fs'] is [fs] with, at most, directories added at paths that did not
    exist. *)
Definition onlyNewDirs (fs fs' : Fs.FS) : Prop :=
  forall p, fs' !! p = fs !! p \/ (fs !! p = None /\ fs' !! p = Some Fs.Dir).

(** A computation that only ever adds directories. *)
Definition addsDirsOnly {A} (c : Fs.M A) : Prop :=
  forall fs, onlyNewDirs fs (snd (c fs)).

(** One device, nothing read-only. *)
Definition scenarioHost : Fs.Host := Fs.mkHost (fun _ => 0) (fun _ => false).

(** The root [/photos] with two photos in it. *)
Definition scenarioFs : Fs.FS :=
  list_to_map [("/photos", Fs.Dir);
               ("/photos/img001.jpg", Fs.File "bytes of img001");
               ("/photos/img002.jpg", Fs.File "bytes of img002")].

(** [img001.jpg] tagged [Yes] then [Maybe], [img002.jpg] tagged [Yes]. *)
Definition scenarioProject : Project :=
  mkProject 1 "."
    [("img001.jpg", mkEntry ["Yes"; "Maybe"]); ("img002.jpg", mkEntry ["Yes"])]
    ["Yes"; "Maybe"] "2024-01-01T00:00:00.000Z".

Definition scenarioGlobals : PhotoSorter.Globals :=
  PhotoSorter.mkGlobals ["/photos/img001.jpg"; "/photos/img002.jpg"] "/photos"
                        (Some scenarioProject).

(** The plan the specification expects for the scenario. *)
Definition scenarioPlan : PhotoSorter.Plan :=
  {| PhotoSorter.total := 2; PhotoSorter.tagged := 2; PhotoSorter.untagged := 0;
     PhotoSorter.perTag := [("Yes", 2); ("Maybe", 1)];
     PhotoSorter.moves :=
       [PhotoSorter.mkOp "/photos/img001.jpg" "/photos/Yes/img001.jpg";
        PhotoSorter.mkOp "/photos/img002.jpg" "/photos/Yes/img002.jpg"];
     PhotoSorter.links :=
       [PhotoSorter.mkOp "/photos/Yes/img001.jpg" "/photos/Maybe/img001.jpg"] |}.

(** The same folder after [img001.jpg] has vanished from the disk, the
    scan and the project still naming it. *)
Definition vanishedFs : Fs.FS :=
  list_to_map [("/photos", Fs.Dir); ("/photos/img002.jpg", Fs.File "bytes of img002")].

(** C1, as the claim states it: the file system after a dry run is the
    file system before it. *)
Definition dryRun_leaves_fs_unchanged
    (h : Fs.Host) (g : PhotoSorter.Globals) (exportRootArg : option string) (fs : Fs.FS)
  : Prop :=
  snd (PhotoSorter.exportDryRun h g exportRootArg fs) = fs.

(** C2, as the claim states it: after a move has failed for another
    reason than a cross-device rename, the export still returns counts
    and still performs every move that can be performed, that is, every
    planned move whose source exists has its destination afterwards. *)
Definition export_continues_after_failure
    (h : Fs.Host) (g : PhotoSorter.Globals) (fs : Fs.FS) : Prop :=
  forall plan,
    fst (PhotoSorter.buildExportPlan h g (PhotoSorter.sourceFolder g) fs) = Js.Ok plan ->
    (exists moved linked,
        fst (PhotoSorter.exportExecute h g None fs) = Js.Ok (PhotoSorter.ExecOk moved linked))
    /\ (forall m, In m (PhotoSorter.moves plan) ->
          Fs.existsSync fs (PhotoSorter.src m) = true ->
          Fs.existsSync (snd (PhotoSorter.exportExecute h g None fs)) (PhotoSorter.dest m)
          = true).

(** ** Tag requests and the pending save *)

(** A request the handlers act on: its payload has a file path and a tag. *)
Definition effective (r : PhotoSorter.TagRequest) : bool :=
  JsString.truthy (PhotoSorter.requestPath r) && JsString.truthy (PhotoSorter.requestTag r).

(** Tag requests served one after the other, each at its own time. *)
Definition runRequests (h : Fs.Host) (reqs : list (string * PhotoSorter.TagRequest))
    (a : PhotoSorter.App) (fs : Fs.FS) : PhotoSorter.App * Fs.FS :=
  foldl (fun st nr =>
           let '(_, a', fs') :=
             PhotoSorter.tagHandler h (fst nr) (snd nr) (fst st) (snd st) in
           (a', fs'))
        (a, fs) reqs.

(** The tag changes of the requests, applied to a project in order. *)
Definition applyRequests (p : Project) (reqs : list (string * PhotoSorter.TagRequest))
  : Project :=
  foldl (fun q r => PhotoSorter.mutate r q) p (List.filter effective (map snd reqs)).

(** A write is pending: the slot [#saveTimer] of the manager is set. *)
Definition writePending (a : PhotoSorter.App) : Prop :=
  exists m contents,
    PhotoSorter.projectManager a = Some m /\ PhotoSorter.saveTimer m = Some contents.

(** The opened folder of the scenario: both photos scanned, an empty
    project in memory, nothing waiting to be written. *)
Definition openedApp : PhotoSorter.App :=
  PhotoSorter.mkApp ["/photos/img001.jpg"; "/photos/img002.jpg"] "/photos"
    (Some (PhotoSorter.mkManager "/photos"
             (Some (newProject "2024-01-01T00:00:00.000Z")) None))
    true.

Definition openedFs : Fs.FS :=
  list_to_map [("/photos", Fs.Dir); ("/photos/.photo-sorter", Fs.Dir);
               ("/photos/img001.jpg", Fs.File "bytes of img001");
               ("/photos/img002.jpg", Fs.File "bytes of img002")].

Definition tagYes : string * PhotoSorter.TagRequest :=
  ("2024-01-01T00:00:01.000Z", PhotoSorter.AddTag "/photos/img001.jpg" "Yes").

(** What lines 490-493 would do in the scenario; the folder is open, so
    that they never run. *)
Definition noReopen (fs : Fs.FS) : PhotoSorter.Manager * Fs.FS :=
  (PhotoSorter.mkManager "/photos" None None, fs).

(** C3, as the claim states it: after any tag requests, when
    ['export-execute'] and ['revert-export'] have read the project, no
    debounced write is left pending. *)
Definition export_and_revert_flush
    (h : Fs.Host) (reopen : Fs.FS -> PhotoSorter.Manager * Fs.FS)
    (reqs : list (string * PhotoSorter.TagRequest))
    (arg : option string) (a : PhotoSorter.App) (fs : Fs.FS) : Prop :=
  let st := runRequests h reqs a fs in
  ~ writePending (snd (fst (PhotoSorter.exportExecuteHandler h arg (fst st) (snd st))))
  /\ ~ writePending (snd (fst (PhotoSorter.revertExportHandler h reopen (fst st) (snd st)))).


(** ** Tags, continued *)

(** No photo holds two tags equal up to case, and neither does the global
    tag list. *)
Definition tagsUnique (p : Project) : Prop :=
  (forall f n, List.length (matching n (getTags p f)) <= 1)
  /\ (forall n, List.length (matching n (allTags p)) <= 1).

(** A list of characters neither starts nor ends with white space. *)
Definition headOk (l : list ascii) : bool :=
  match l with [] => true | c :: _ => negb (JsString.isWhiteSpace c) end.

(** White space occurs only as single spaces; [prevWs] tells that the
    character before the list was white space. *)
Fixpoint collapsedFrom (prevWs : bool) (l : list ascii) : bool :=
  match l with
  | [] => true
  | c :: r =>
      if JsString.isWhiteSpace c
      then Ascii.eqb c " " && negb prevWs && collapsedFrom true r
      else collapsedFrom false r
  end.

(** A tag in normal form: no white space at either end, and inside only
    single spaces. *)
Definition normalTag (s : string) : bool :=
  headOk (JsString.chars s) && headOk (rev (JsString.chars s))
  && collapsedFrom false (JsString.chars s).

(** The tag changes of a list of requests, applied in order. *)
Definition mutateAll (p : Project) (rs : list PhotoSorter.TagRequest) : Project :=
  foldl (fun q r => PhotoSorter.mutate r q) p rs.

(** ** Folder names *)

(** A folder name that is safe below the export root: between 1 and 100
    characters, none of them a separator or another character Windows
    refuses, not one of the two dot names, and not a reserved device
    name in any case. *)
Definition safeFolderName (s : string) : Prop :=
  1 <= String.length s <= 100
  /\ Forall (fun c => PhotoSorter.isIllegal c = false) (JsString.chars s)
  /\ s <> "." /\ s <> ".."
  /\ existsb (String.eqb (JsString.toUpperCase s)) PhotoSorter.reserved = false.

(** ** The shape of a plan *)





(** ** Devices *)


(** ** Browsing and sorting *)

(** The index is on a photo of the list. *)
Definition onPhoto (s : Browsing.Session) : Prop :=
  (0 <= Browsing.currentPhotoIndex s < Z.of_nat (List.length (Browsing.photos s)))%Z.

(** The number of photos the history gives the category [name]. *)
Definition tally (name : string) (history : gmap string string) : nat :=
  size (filter (fun kv => snd kv = name) history).

(** The three counters are the tallies of the history. *)
Definition countersAgree (c : StatsManager.Categorized) (history : gmap string string)
  : Prop :=
  StatsManager.yes c = tally "yes" history
  /\ StatsManager.no c = tally "no" history
  /\ StatsManager.maybe c = tally "maybe" history.

(** A folder with the three category folders made, and a session on its
    first photo. *)
Definition sortedFs : Fs.FS :=
  list_to_map [("/photos", Fs.Dir); ("/photos/sorted", Fs.Dir);
               ("/photos/sorted/yes", Fs.Dir);
               ("/photos/img001.jpg", Fs.File "bytes of img001");
               ("/photos/img002.jpg", Fs.File "bytes of img002")].

Definition emptyStats : StatsManager.Stats :=
  StatsManager.mkStats 2 (StatsManager.mkCategorized 0 0 0) [] None.

Definition browsingSession : Browsing.Session :=
  Browsing.mkSession ["/photos/img001.jpg"; "/photos/img002.jpg"] 0 "/photos" ∅
    (Some (StatsCounters.mkManager "/photos" emptyStats ∅)).

(** A serialisation of the stats that tells the counters only. *)
Definition showCounters (s : StatsManager.Stats) : string :=
  pretty (StatsManager.yes (StatsManager.categorized s)) +:+ " "
  +:+ pretty (StatsManager.no (StatsManager.categorized s)) +:+ " "
  +:+ pretty (StatsManager.maybe (StatsManager.categorized s)).

(** ** What an export counts *)

(** The tags the project holds for a file name. *)
Definition tagsOf (p : Project) (fileName : string) : list string :=
  match Dict.get (images p) fileName with
  | Some e => tags e
  | None => []
  end.

(** The scanned photos with at least one tag, and the tags they have
    beyond their first. *)
Definition taggedPhotos (p : Project) (photos : list string) : nat :=
  List.length (List.filter (fun f => negb (Nat.eqb (List.length (tagsOf p (Path.basename f))) 0))
                           photos).

Definition furtherTags (p : Project) (photos : list string) : nat :=
  list_sum (map (fun f => Nat.pred (List.length (tagsOf p (Path.basename f)))) photos).

(** ** Revert *)

(** [fs'] has nothing that [fs] had not. *)
Definition removesOnly (fs fs' : Fs.FS) : Prop :=
  forall q, fs !! q = None -> fs' !! q = None.

(** The folder after an export of the scenario, with a file of the
    user's own in the folder of the tag [Yes]. *)
Definition exportedFs : Fs.FS :=
  list_to_map [("/photos", Fs.Dir); ("/photos/.photo-sorter", Fs.Dir);
               ("/photos/.photo-sorter/project.json", Fs.File "the project");
               ("/photos/Yes", Fs.Dir); ("/photos/Maybe", Fs.Dir);
               ("/photos/Yes/img001.jpg", Fs.File "bytes of img001");
               ("/photos/Yes/img002.jpg", Fs.File "bytes of img002");
               ("/photos/Maybe/img001.jpg", Fs.File "bytes of img001");
               ("/photos/Yes/notes.txt", Fs.File "the user's notes")].

Definition exportedApp : PhotoSorter.App :=
  PhotoSorter.mkApp ["/photos/img001.jpg"; "/photos/img002.jpg"] "/photos"
    (Some (PhotoSorter.mkManager "/photos" (Some scenarioProject) None))
    true.

(** ** Writing the project file *)

(** The opened folder with six backups of the project file, numbered by
    age. *)
Definition backupsFs : Fs.FS :=
  list_to_map [("/photos", Fs.Dir); ("/photos/.photo-sorter", Fs.Dir);
               ("/photos/.photo-sorter/project.json", Fs.File "the project");
               ("/photos/.photo-sorter/backups", Fs.Dir);
               ("/photos/.photo-sorter/backups/project-1.json", Fs.File "backup 1");
               ("/photos/.photo-sorter/backups/project-2.json", Fs.File "backup 2");
               ("/photos/.photo-sorter/backups/project-3.json", Fs.File "backup 3");
               ("/photos/.photo-sorter/backups/project-4.json", Fs.File "backup 4");
               ("/photos/.photo-sorter/backups/project-5.json", Fs.File "backup 5");
               ("/photos/.photo-sorter/backups/project-6.json", Fs.File "backup 6")].

(** A serialisation that tells the time of the last change and the
    number of photos only, and modification times read off the names of
    the backups: the longer name, written at the time of the call, is
    the newest. *)
Definition toyWriteEnv : ProjectFile.WriteEnv :=
  ProjectFile.mkWriteEnv
    (fun p => updatedAt p +:+ " " +:+ pretty (List.length (images p)))
    (fun path =>
       match rev (JsString.chars path) with
       | _ :: _ :: _ :: _ :: _ :: c :: _ =>
           (Z.of_nat (JsString.code c) + 100 * Z.of_nat (String.length path))%Z
       | _ => 0%Z
       end).

Definition openedManager : PhotoSorter.Manager :=
  PhotoSorter.mkManager "/photos" (Some (newProject "2024-01-01T00:00:00.000Z")) None.

(* ===================================================================== *)
(** * The embedding at work *)
(* ===================================================================== *)

Example basename_ex : Path.basename "/photos/wedding/img001.jpg" = "img001.jpg".
Proof. reflexivity. Qed.

Example dirname_ex : Path.dirname "/photos/Yes/img001.jpg" = "/photos/Yes".
Proof. reflexivity. Qed.

Example extname_ex : Path.extname "/photos/Yes/img.001.jpg" = ".jpg".
Proof. reflexivity. Qed.

Example extname_hidden : Path.extname "/photos/.hidden" = "".
Proof. reflexivity. Qed.

Example basenameExt_ex : Path.basenameExt "/photos/Yes/img001.jpg" ".jpg" = "img001".
Proof. reflexivity. Qed.

Example join_ex : Path.join "/photos" "Yes" = "/photos/Yes".
Proof. reflexivity. Qed.

Example normalizeTag_ex : normalizeTag "  Best   Shot " = "Best Shot".
Proof. reflexivity. Qed.

Example safeTagToFolder_ex :
  map PhotoSorter.safeTagToFolder ["Yes"; "  con "; "a/b: c?  d.."; "..."]
  = ["Yes"; "_con"; "a_b_ c_ d"; "tag"].
Proof. vm_compute. reflexivity. Qed.

Example uniquePath_ex :
  PhotoSorter.uniquePath scenarioFs "/photos/img001.jpg" = "/photos/img001_1.jpg".
Proof. vm_compute. reflexivity. Qed.

Example addTag_ex :
  getTags (addTag (addTag (newProject "2024-01-01T00:00:00.000Z")
                          "img001.jpg" "  Best   Shot ") "img001.jpg" "best shot")
          "img001.jpg" = ["Best Shot"].
Proof. vm_compute. reflexivity. Qed.

Example removeTag_ex :
  getTags (removeTag scenarioProject "img001.jpg" "YES") "img001.jpg" = ["Maybe"]
  /\ getAllTags (removeTag scenarioProject "img001.jpg" "YES") = ["Yes"; "Maybe"].
Proof. vm_compute. split; reflexivity. Qed.

Example loadOrCreate_fresh :
  loadOrCreate (mkDisk None None None) someClock ["/photos/a.jpg"; "/photos/b.png"]
  = Js.Ok (encode (mkProject 1 "." [("a.jpg", mkEntry []); ("b.png", mkEntry [])] []
                             "2024-01-01T00:00:00.001Z")).
Proof. vm_compute. reflexivity. Qed.

Example initialize_ex :
  StatsManager.duplicates
    (StatsManager.initialize exampleHashEnv "2024-01-01T00:00:00.000Z"
       ["/photos/a.jpg"; "/photos/c.jpg"; "/photos/b.jpg"; "/photos/c.jpg"; "/photos/d.jpg";
        "/photos/e.jpg"] [])
  = [StatsManager.mkDuplicate "/photos/a.jpg" "/photos/b.jpg";
     StatsManager.mkDuplicate "/photos/a.jpg" "/photos/e.jpg"].
Proof. vm_compute. reflexivity. Qed.

Example stamp_ex : ProjectFile.stamp "2024-01-01T00:00:01.000Z" = "20240101000001".
Proof. reflexivity. Qed.

Example isBackupName_ex :
  ProjectFile.isBackupName "project-20240101000001.json" = true
  /\ ProjectFile.isBackupName "project.json" = false.
Proof. split; reflexivity. Qed.

Example readdirSync_ex :
  fst (Fs.readdirSync "/photos" scenarioFs) = Js.Ok ["img001.jpg"; "img002.jpg"].
Proof. vm_compute. reflexivity. Qed.

Example getImageFiles_ex :
  fst (Scanning.getImageFiles "/photos" openedFs)
  = Js.Ok ["/photos/img001.jpg"; "/photos/img002.jpg"].
Proof. vm_compute. reflexivity. Qed.

Example getNextPhoto_wraps :
  Browsing.index
    <$> fst (Browsing.getNextPhoto (Browsing.withIndex browsingSession 1)) = Some 0%Z.
Proof. reflexivity. Qed.

Example categorizePhoto_ex :
  let r := Browsing.categorizePhoto scenarioHost showCounters "2024-01-01T00:00:02.000Z"
             "yes" browsingSession sortedFs in
  Browsing.categorizedPhoto <$> fst (fst r) = Some "/photos/img001.jpg"
  /\ Browsing.currentPhotoIndex (snd (fst r)) = 1%Z
  /\ snd r !! "/photos/sorted/yes/img001.jpg" = Some (Fs.File "bytes of img001")
  /\ snd r !! "/photos/photo_sorter_stats.json" = Some (Fs.File "1 0 0").
Proof. vm_compute. repeat split; reflexivity. Qed.

Example atomicWrite_ex :
  let r := ProjectFile.atomicWrite scenarioHost toyWriteEnv "2024-01-01T00:00:01.000Z"
             openedManager "/photos/.photo-sorter/project.json" "new text" backupsFs in
  fst r = Js.Ok tt
  /\ snd r !! "/photos/.photo-sorter/project.json" = Some (Fs.File "new text")
  /\ snd r !! "/photos/.photo-sorter/backups/project-20240101000001.json"
     = Some (Fs.File "the project")
  /\ snd r !! "/photos/.photo-sorter/backups/project-1.json" = None.
Proof. vm_compute. repeat split; reflexivity. Qed.

(* ===================================================================== *)
(** * Properties of the tag operations *)
(* ===================================================================== *)

Section DictLemmas.
Context {V : Type}.
Implicit Types (o : list (string * V)) (k : string) (v : V).

Lemma get_set_same o k v : Dict.get (Dict.set o k v) k = Some v.
Proof.
  induction o as [|[k' v'] o IH]; simpl.
  - by rewrite String.eqb_refl.
  - destruct (String.eqb k' k) eqn:E; simpl; rewrite E; [done | exact IH].
Qed.

Lemma get_set_other o k k' v : k <> k' -> Dict.get (Dict.set o k v) k' = Dict.get o k'.
Proof.
  intros Hne. induction o as [|[k0 v0] o IH]; simpl.
  - destruct (String.eqb k k') eqn:E; [apply String.eqb_eq in E; done | done].
  - destruct (String.eqb k0 k) eqn:E; simpl.
    + apply String.eqb_eq in E. subst k0.
      destruct (String.eqb k k') eqn:E'; [apply String.eqb_eq in E'; done | done].
    + destruct (String.eqb k0 k'); [done | exact IH].
Qed.

Lemma set_absent o k v : Dict.get o k = None -> Dict.set o k v = o ++ [(k, v)].
Proof.
  induction o as [|[k0 v0] o IH]; simpl; [done|].
  destruct (String.eqb k0 k); [done|]. intros H. by rewrite IH.
Qed.

Lemma keys_set_present o k v :
  is_Some (Dict.get o k) -> Dict.keys (Dict.set o k v) = Dict.keys o.
Proof.
  induction o as [|[k0 v0] o IH]; simpl; [by intros [? ?]|].
  destruct (String.eqb k0 k); simpl; [done|]. intros H. by rewrite IH.
Qed.

End DictLemmas.

Lemma str_chars s : JsString.str (JsString.chars s) = s.
Proof. apply string_of_list_ascii_of_string. Qed.

Lemma chars_str l : JsString.chars (JsString.str l) = l.
Proof. apply list_ascii_of_string_of_list_ascii. Qed.

Lemma toLowerCase_empty s : JsString.toLowerCase s = "" -> s = "".
Proof.
  unfold JsString.toLowerCase. intros H.
  apply (f_equal JsString.chars) in H. rewrite chars_str in H.
  change (JsString.chars "") with (@nil ascii) in H.
  apply map_eq_nil in H.
  rewrite <- (str_chars s). by rewrite H.
Qed.

Lemma equalTag_refl a : equalTag a a = true.
Proof. apply String.eqb_refl. Qed.

Lemma equalTag_same_lower a n1 n2 :
  JsString.toLowerCase n1 = JsString.toLowerCase n2 -> equalTag a n1 = equalTag a n2.
Proof. unfold equalTag. by intros ->. Qed.

Lemma matching_app n l1 l2 : matching n (l1 ++ l2) = matching n l1 ++ matching n l2.
Proof. apply List.filter_app. Qed.

Lemma containsTag_matching l n : containsTag l n = false <-> matching n l = [].
Proof.
  unfold containsTag, matching. induction l as [|t l IH]; simpl; [done|].
  destruct (equalTag t n); simpl; [split; discriminate | exact IH].
Qed.

Lemma truthy_nonempty s : JsString.truthy s = true <-> s <> "".
Proof.
  unfold JsString.truthy. destruct (String.eqb s "") eqn:E; simpl.
  - apply String.eqb_eq in E. split; [discriminate | done].
  - apply String.eqb_neq in E. done.
Qed.

Lemma images_upsertGlobalTag p t : images (upsertGlobalTag p t) = images p.
Proof. unfold upsertGlobalTag. by destruct (containsTag _ _). Qed.

(** [addTag] on the tags of the photo it is called on. *)
Lemma getTags_addTag p f t :
  normalizeTag t <> "" ->
  getTags (addTag p f t) f =
    if containsTag (getTags p f) (normalizeTag t) then getTags p f
    else getTags p f ++ [normalizeTag t].
Proof.
  intros Hne. apply truthy_nonempty in Hne.
  unfold addTag, getTags. rewrite Hne. simpl.
  rewrite images_upsertGlobalTag.
  destruct (Dict.get (images p) f) as [e|] eqn:Hget; simpl.
  - rewrite Hget. destruct (containsTag (tags e) (normalizeTag t)); simpl.
    + by rewrite Hget.
    + by rewrite get_set_same.
  - rewrite get_set_same. simpl. by rewrite get_set_same.
Qed.

(** [addTag] on the global tag list. *)
Lemma allTags_addTag p f t :
  normalizeTag t <> "" ->
  allTags (addTag p f t) =
    if containsTag (allTags p) (normalizeTag t) then allTags p
    else allTags p ++ [normalizeTag t].
Proof.
  intros Hne. apply truthy_nonempty in Hne.
  unfold addTag. rewrite Hne. simpl. unfold upsertGlobalTag.
  destruct (Dict.get (images p) f) as [e|] eqn:Hget; simpl.
  - rewrite Hget. destruct (containsTag (tags e) _); simpl;
      by destruct (containsTag (allTags p) _).
  - rewrite get_set_same. simpl. by destruct (containsTag (allTags p) _).
Qed.

(** A tag that normalises to the empty string changes nothing. *)
Lemma addTag_empty p f t : normalizeTag t = "" -> addTag p f t = p.
Proof. intros H. unfold addTag. by rewrite H. Qed.

Lemma matching_pushOnce_twice l n1 n2 :
  JsString.toLowerCase n1 = JsString.toLowerCase n2 ->
  matching n1 (pushOnce (pushOnce l n1) n2) =
    match matching n1 l with [] => [n1] | _ => matching n1 l end
  /\ pushOnce (pushOnce l n1) n2 = pushOnce l n1.
Proof.
  intros Hlow. unfold pushOnce.
  assert (Hc : forall l', containsTag l' n2 = containsTag l' n1).
  { intros l'. unfold containsTag. induction l' as [|a l' IH]; simpl; [done|].
    rewrite IH. f_equal. symmetry. by apply equalTag_same_lower. }
  rewrite Hc.
  destruct (containsTag l n1) eqn:E1.
  - rewrite E1. split; [|done].
    destruct (matching n1 l) eqn:Em; [|done].
    apply containsTag_matching in Em. congruence.
  - assert (E2 : containsTag (l ++ [n1]) n1 = true).
    { unfold containsTag. rewrite existsb_app. simpl. rewrite equalTag_refl.
      by rewrite orb_true_r. }
    rewrite E2. split; [|done].
    rewrite matching_app. apply containsTag_matching in E1. rewrite E1. simpl.
    unfold matching. simpl. by rewrite equalTag_refl.
Qed.

Lemma equalTag_lower a b :
  equalTag a b = true <-> JsString.toLowerCase a = JsString.toLowerCase b.
Proof. unfold equalTag, JsString.eqb. apply String.eqb_eq. Qed.

Lemma matching_equal n n' l : equalTag n n' = true -> matching n l = matching n' l.
Proof.
  intros H%equalTag_lower. unfold matching.
  induction l as [|t l IH]; simpl; [done|].
  by rewrite IH, (equalTag_same_lower t n n' H).
Qed.

(** No two stored tags are equal up to case: per tag, at most one match. *)
Lemma pushOnce_keeps_unique l t :
  (forall n, List.length (matching n l) <= 1) ->
  forall n, List.length (matching n (pushOnce l t)) <= 1.
Proof.
  intros H n. unfold pushOnce. destruct (containsTag l t) eqn:E; [apply H|].
  rewrite matching_app, length_app. unfold matching at 2. simpl.
  destruct (equalTag t n) eqn:Et; simpl; [|specialize (H n); lia].
  rewrite <- (matching_equal t n l Et).
  apply containsTag_matching in E. rewrite E. simpl. lia.
Qed.

(** [addTag] keeps the tag list of its photo and the global tag list
    free of duplicates up to case. *)
Lemma addTag_keeps_unique p f t :
  (forall n, List.length (matching n (getTags p f)) <= 1) ->
  (forall n, List.length (matching n (allTags p)) <= 1) ->
  (forall n, List.length (matching n (getTags (addTag p f t) f)) <= 1)
  /\ (forall n, List.length (matching n (allTags (addTag p f t))) <= 1).
Proof.
  intros Hp Hg. destruct (String.eqb_spec (normalizeTag t) "") as [He|Hne].
  - by rewrite (addTag_empty _ _ _ He).
  - rewrite (getTags_addTag _ _ _ Hne), (allTags_addTag _ _ _ Hne).
    split; by apply pushOnce_keeps_unique.
Qed.

Lemma containsTag_pushOnce l n1 n2 :
  JsString.toLowerCase n1 = JsString.toLowerCase n2 ->
  containsTag (pushOnce l n1) n2 = true.
Proof.
  intros Hlow.
  assert (Hc : forall l', containsTag l' n2 = containsTag l' n1).
  { intros l'. unfold containsTag. induction l' as [|a l' IH]; simpl; [done|].
    rewrite IH. f_equal. symmetry. by apply equalTag_same_lower. }
  rewrite Hc. unfold pushOnce. destruct (containsTag l n1) eqn:E; [done|].
  unfold containsTag. rewrite existsb_app. simpl. rewrite equalTag_refl.
  by rewrite orb_true_r.
Qed.

(** C4, counterexample: a blank tag and the empty tag normalise to the
    same (empty) value, [addTag] returns at its guard [if (!tag) return]
    both times, and the photo has no stored tag at all. *)
Lemma addTag_blank_stores_nothing :
  ~ addTag_twice_stores_one (newProject "2024-01-01T00:00:00.000Z") "img001.jpg" " " "".
Proof.
  intros H. destruct H as [stored Hs]; [reflexivity | discriminate Hs].
Qed.

(** C4, amended: for every photo and two tag strings that normalise to
    the same non-empty value up to case, calling [addTag] with both
    stores the tag once: the second call changes nothing, and the stored
    tags matching them are, in the photo's list and in the global list
    alike, the first string as normalised, in the casing it was typed,
    where none was stored before, and otherwise the ones stored before.
    So a list that held at most one matching tag, as every list built by
    [addTag] does, holds exactly one afterwards. *)
Theorem addTag_twice_case_insensitive (p : Project) (f t1 t2 : string) :
  normalizeTag t1 <> "" ->
  JsString.toLowerCase (normalizeTag t1) = JsString.toLowerCase (normalizeTag t2) ->
  let n := normalizeTag t1 in
  let p' := addTag (addTag p f t1) f t2 in
  p' = addTag p f t1
  /\ matching n (getTags p' f)
     = match matching n (getTags p f) with [] => [n] | kept => kept end
  /\ matching n (allTags p')
     = match matching n (allTags p) with [] => [n] | kept => kept end
  /\ (List.length (matching n (getTags p f)) <= 1 ->
      List.length (matching n (getTags p' f)) = 1)
  /\ (List.length (matching n (allTags p)) <= 1 ->
      List.length (matching n (allTags p')) = 1)
  /\ (getTags p f = [] -> getTags p' f = [n]).
Proof.
  intros Hne Hlow n p'.
  assert (Hne2 : normalizeTag t2 <> "").
  { intros H2. rewrite H2 in Hlow. apply toLowerCase_empty in Hlow. done. }
  pose proof (matching_pushOnce_twice (getTags p f) _ _ Hlow) as [Hm1 Hp1].
  pose proof (matching_pushOnce_twice (allTags p) _ _ Hlow) as [Hm2 Hp2].
  assert (Htags : getTags p' f = pushOnce (pushOnce (getTags p f) n) (normalizeTag t2)).
  { unfold p'. rewrite (getTags_addTag _ _ _ Hne2), (getTags_addTag _ _ _ Hne). done. }
  assert (Hall : allTags p' = pushOnce (pushOnce (allTags p) n) (normalizeTag t2)).
  { unfold p'. rewrite (allTags_addTag _ _ _ Hne2), (allTags_addTag _ _ _ Hne). done. }
  assert (Hsame : p' = addTag p f t1).
  { unfold p'. set (q := addTag p f t1).
    assert (Hq : getTags q f = pushOnce (getTags p f) n)
      by (unfold q; by rewrite (getTags_addTag _ _ _ Hne)).
    assert (Hqa : allTags q = pushOnce (allTags p) n)
      by (unfold q; by rewrite (allTags_addTag _ _ _ Hne)).
    assert (Hc1 : containsTag (getTags q f) (normalizeTag t2) = true).
    { rewrite Hq. by apply containsTag_pushOnce. }
    assert (Hc2 : containsTag (allTags q) (normalizeTag t2) = true).
    { rewrite Hqa. by apply containsTag_pushOnce. }
    assert (Hin : exists e, Dict.get (images q) f = Some e /\ tags e = getTags q f).
    { unfold getTags in *. destruct (Dict.get (images q) f) as [e|] eqn:G; [eauto|].
      simpl in Hc1. discriminate. }
    destruct Hin as (e & Ge & Te).
    unfold addTag at 1. apply truthy_nonempty in Hne2. rewrite Hne2. simpl.
    rewrite Ge. simpl. rewrite Ge. rewrite Te, Hc1. unfold upsertGlobalTag. by rewrite Hc2. }
  subst n. split; [exact Hsame|].
  split; [rewrite Htags, Hm1; by destruct (matching _ (getTags p f))|].
  split; [rewrite Hall, Hm2; by destruct (matching _ (allTags p))|].
  split; [|split].
  - intros Hone. rewrite Htags, Hm1.
    destruct (matching (normalizeTag t1) (getTags p f)) as [|a [|b l]]; simpl in *; lia.
  - intros Hone. rewrite Hall, Hm2.
    destruct (matching (normalizeTag t1) (allTags p)) as [|a [|b l]]; simpl in *; lia.
  - intros He. rewrite Htags, Hp1. unfold pushOnce. by rewrite He.
Qed.

(** C4, witness: [Yes] then [yes] on a new project. *)
Lemma addTag_twice_case_insensitive_witness :
  let p := newProject "2024-01-01T00:00:00.000Z" in
  let p' := addTag (addTag p "img001.jpg" " Yes ") "img001.jpg" "yes" in
  getTags p' "img001.jpg" = ["Yes"] /\ matching "Yes" (allTags p') = ["Yes"].
Proof.
  intros p p'.
  destruct (addTag_twice_case_insensitive p "img001.jpg" " Yes " "yes")
    as (_ & _ & Hall & _ & _ & Hnew).
  - vm_compute. discriminate.
  - vm_compute. reflexivity.
  - split; [exact (Hnew eq_refl) | exact Hall].
Defined.

(* ===================================================================== *)
(** * Properties of [loadOrCreate] *)
(* ===================================================================== *)

Lemma mapM_map_inverse {A B} (f : A -> B) (g : B -> option A) (l : list A) :
  (forall x, g (f x) = Some x) -> mapM g (map f l) = Some l.
Proof.
  intros H. induction l as [|x l IH]; [done|].
  cbn [map mapM]. rewrite H. simpl. rewrite IH. done.
Qed.

Lemma decodeTags_encodeTags l : decodeTags (Some (encodeTags l)) = Some l.
Proof. unfold decodeTags, encodeTags. by apply mapM_map_inverse. Qed.

Lemma decodeEntry_encodeEntry e : decodeEntry (encodeEntry e) = Some e.
Proof.
  destruct e as [ts]. unfold decodeEntry, encodeEntry.
  change (Dict.get [("tags", encodeTags (tags (mkEntry ts)))] "tags")
    with (Some (encodeTags ts)).
  pose proof (decodeTags_encodeTags ts) as H. unfold decodeTags in *.
  cbn [encodeTags] in *. by rewrite H.
Qed.

Lemma decodeImages_encodeImages im : decodeImages (Some (encodeImages im)) = Some im.
Proof.
  unfold decodeImages, encodeImages. apply mapM_map_inverse.
  intros [k e]. cbn [fst snd]. by rewrite decodeEntry_encodeEntry.
Qed.

(** A project record, written as a JavaScript value, is a valid project
    and reads back as itself. *)
Lemma decode_encode p : decode (encode p) = Some p.
Proof.
  destruct p as [v r im ts u]. unfold decode, encode.
  cbn [Dict.get String.eqb Ascii.eqb Bool.eqb version root images allTags updatedAt].
  rewrite decodeImages_encodeImages. cbn [mbind option_bind].
  rewrite decodeTags_encodeTags. reflexivity.
Qed.

Lemma validProject_encode p : validProject (encode p) = true.
Proof. unfold validProject. by rewrite decode_encode. Qed.

Lemma get_encodeImages im f :
  Dict.get (map (fun kv => (fst kv, encodeEntry (snd kv))) im) f
  = encodeEntry <$> Dict.get im f.
Proof.
  induction im as [|[k e] im IH]; simpl; [done|].
  destruct (String.eqb k f); [done | exact IH].
Qed.

Lemma set_encodeImages im f e :
  Dict.set (map (fun kv => (fst kv, encodeEntry (snd kv))) im) f (encodeEntry e)
  = map (fun kv => (fst kv, encodeEntry (snd kv))) (Dict.set im f e).
Proof.
  induction im as [|[k e'] im IH]; simpl; [done|].
  destruct (String.eqb k f); simpl; [done | by rewrite IH].
Qed.

(** The merge loop on a project record is [mergeName], name by name. *)
Lemma mergeImages_encode p names :
  mergeImages (encode p) names = Js.Ok (encode (foldl mergeName p names)).
Proof.
  revert p. induction names as [|f names IH]; intros p; [done|].
  cbn [mergeImages foldl].
  change (Js.getOwn (encode p) "images") with (Some (encodeImages (images p))).
  unfold encodeImages at 1. cbn [Js.getOwn].
  rewrite get_encodeImages. unfold mergeName at 2.
  destruct (Dict.get (images p) f) as [e|] eqn:G; simpl.
  - apply IH.
  - change (Js.JObj [("tags", Js.JArr [] [])]) with (encodeEntry (mkEntry [])).
    rewrite set_encodeImages.
    rewrite <- IH. reflexivity.
Qed.

Lemma touch_encode p u :
  Js.setOwn (encode p) "updatedAt" (Js.JStr u) = Js.Ok (encode (touch p u)).
Proof. reflexivity. Qed.







Lemma initialProject_accepted d c :
  initialProject d c = match accepted d with
                       | Some v => v
                       | None => encode (newProject (atNew c))
                       end.
Proof.
  unfold initialProject, accepted.
  destruct (projectFile d) as [[v|]|]; try reflexivity.
  by destruct (negb (Js.truthy v) || negb (Js.isTypeofObject v)).
Qed.

(** The [try] block on a project record: it fails only where the file
    system fails. *)
Lemma loadOrCreateBody_encode d c paths p :
  initialProject d c = encode p ->
  loadOrCreateBody d c paths =
    match dirError d, writeError d with
    | Some e, _ => Js.Throw e
    | None, Some e => Js.Throw e
    | None, None =>
        Js.Ok (encode (touch (foldl mergeName p (imageFileNames paths)) (atUpdate c)))
    end.
Proof.
  intros H. unfold loadOrCreateBody. rewrite H, mergeImages_encode, touch_encode.
  by destruct (dirError d), (writeError d).
Qed.

(** C6, counterexample: the project file holds the JSON text of an empty
    object and the folder has no image.  The object passes the guard of
    line 20, the merge loop has nothing to do, and what is returned has
    neither [images] nor [tags] nor [version]. *)
Lemma loadOrCreate_returns_bare_object :
  ~ loadOrCreate_returns_valid_project
      (mkDisk None (Some (Some (Js.JObj []))) None)
      someClock [].
Proof.
  intros (v & Hv & Hvalid). vm_compute in Hv. injection Hv as <-.
  vm_compute in Hvalid. discriminate.
Qed.

(** The same with a photo in the folder: an entry of the file that has
    no [tags] array is truthy, so that line 32 keeps it as it is. *)
Example loadOrCreate_keeps_malformed_entry :
  exists v,
    loadOrCreate
      (mkDisk None
         (Some (Some (Js.JObj [("version", Js.JNum 1); ("root", Js.JStr ".");
                               ("images", Js.JObj [("a.jpg", Js.JObj [])]);
                               ("tags", Js.JArr [] []);
                               ("updatedAt", Js.JStr "2023-12-31T00:00:00.000Z")])))
         None)
      someClock ["/photos/a.jpg"] = Js.Ok v
    /\ validProject v = false.
Proof. eexists. split; vm_compute; reflexivity. Qed.

(** C6, amended: [loadOrCreate] never throws and always returns a value.
    That value is a new empty project whenever its [try] block throws.
    It is a valid project whenever the project file is missing,
    unreadable, not JSON or not an object (then it is, errors apart, a
    new project with the discovered names merged in) and whenever the
    file holds a valid project.  A file that parses to some other object
    is taken as the project as it is, its fields unchecked. *)
Theorem loadOrCreate_never_throws (d : Disk) (c : Clock) (paths : list string) :
  exists v,
    loadOrCreate d c paths = Js.Ok v
    /\ (forall e, loadOrCreateBody d c paths = Js.Throw e ->
          v = encode (newProject (atCatch c)) /\ validProject v = true)
    /\ (accepted d = None ->
          validProject v = true
          /\ (dirError d = None -> writeError d = None ->
                v = encode (touch (foldl mergeName (newProject (atNew c))
                                         (imageFileNames paths)) (atUpdate c))))
    /\ (forall p, accepted d = Some (encode p) -> validProject v = true).
Proof.
  pose proof (initialProject_accepted d c) as Hi.
  unfold loadOrCreate.
  destruct (loadOrCreateBody d c paths) as [v|e] eqn:Hbody.
  - exists v. split; [done|]. split; [intros e; discriminate|]. split.
    + intros Hacc. rewrite Hacc in Hi.
      rewrite (loadOrCreateBody_encode _ _ _ _ Hi) in Hbody.
      destruct (dirError d), (writeError d); try discriminate.
      injection Hbody as <-. split; [apply validProject_encode | done].
    + intros p Hacc. rewrite Hacc in Hi.
      rewrite (loadOrCreateBody_encode _ _ _ _ Hi) in Hbody.
      destruct (dirError d), (writeError d); try discriminate.
      injection Hbody as <-. apply validProject_encode.
  - exists (encode (newProject (atCatch c))).
    split; [done|]. split; [|split].
    + intros _ _. split; [done | apply validProject_encode].
    + intros Hacc. split; [apply validProject_encode|].
      intros Hd Hw. rewrite Hacc in Hi.
      rewrite (loadOrCreateBody_encode _ _ _ _ Hi), Hd, Hw in Hbody. discriminate.
    + intros p _. apply validProject_encode.
Qed.

(** C6, witness: an unreadable project file and two discovered photos. *)
Lemma loadOrCreate_never_throws_witness :
  let d := mkDisk None (Some None) None in
  let c := someClock in
  exists v,
    loadOrCreate d c ["/photos/a.jpg"; "/photos/b.png"] = Js.Ok v
    /\ validProject v = true
    /\ v = encode (mkProject 1 "." [("a.jpg", mkEntry []); ("b.png", mkEntry [])] []
                             "2024-01-01T00:00:00.001Z").
Proof.
  intros d c.
  destruct (loadOrCreate_never_throws d c ["/photos/a.jpg"; "/photos/b.png"])
    as (v & Hv & _ & Hnone & _).
  exists v. split; [exact Hv|].
  destruct (Hnone eq_refl) as [Hvalid Heq].
  split; [exact Hvalid | exact (Heq eq_refl eq_refl)].
Defined.

(* ===================================================================== *)
(** * Properties of the duplicate scan *)
(* ===================================================================== *)

Section Duplicates.

Import StatsManager.
Variable env : HashEnv.

Lemma hexChar_not_r d : Ascii.eqb (hexChar d) "r"%char = false.
Proof.
  unfold hexChar.
  assert (H : (N.to_nat (d mod 16) < 16)%nat).
  { pose proof (N.mod_upper_bound d 16). lia. }
  revert H. generalize (N.to_nat (d mod 16)). intros k Hk.
  do 16 (destruct k as [|k]; [reflexivity|]). lia.
Qed.

(** A hexadecimal digest never looks like a fallback. *)
Lemma hexDigest_not_error digits :
  JsString.startsWith (hexDigest digits) "error_" = false.
Proof.
  unfold JsString.startsWith, hexDigest. rewrite chars_str.
  destruct digits as [|d1 [|d2 digits]]; [reflexivity| |].
  - cbn [map JsString.chars list_ascii_of_string JsString.startsWithL].
    by destruct (Ascii.eqb "e" (hexChar d1)).
  - cbn [map JsString.chars list_ascii_of_string JsString.startsWithL].
    destruct (Ascii.eqb "e" (hexChar d1)); [|done].
    rewrite Ascii.eqb_sym, hexChar_not_r. done.
Qed.

Lemma fallback_is_error i photo :
  fileBytes env photo = None ->
  JsString.startsWith (calculateFileHash env i photo) "error_" = true.
Proof. intros H. unfold calculateFileHash. rewrite H. reflexivity. Qed.

Lemma digest_not_error i photo bytes :
  fileBytes env photo = Some bytes ->
  JsString.startsWith (calculateFileHash env i photo) "error_" = false.
Proof. intros H. unfold calculateFileHash. rewrite H. apply hexDigest_not_error. Qed.

Lemma firstWith_snoc h seen x :
  firstWith h (seen ++ [x]) =
    match firstWith h seen with
    | Some y => Some y
    | None => if String.eqb (fpHash x) h then Some x else None
    end.
Proof.
  unfold firstWith. induction seen as [|y seen IH]; simpl.
  - by destruct (String.eqb (fpHash x) h).
  - destruct (String.eqb (fpHash y) h); [done | exact IH].
Qed.

Lemma scanPhoto_step seen s i photo :
  remembersFirst seen (photoHashes s) ->
  remembersFirst (seen ++ [fingerprint env i photo]) (photoHashes (scanPhoto env s i photo))
  /\ found (scanPhoto env s i photo) = found s ++ expectedPairs seen [fingerprint env i photo].
Proof.
  intros Hinv. unfold scanPhoto. cbn [expectedPairs fingerprint fpFallback fpHash fpPhoto].
  set (hash := calculateFileHash env i photo).
  destruct (fileBytes env photo) as [bytes|] eqn:Hread.
  - (* a digest *)
    pose proof (digest_not_error i _ _ Hread) as Hne. fold hash in Hne.
    rewrite (Hinv hash Hne), Hne. cbn [negb].
    destruct (firstWith hash seen) as [y|] eqn:Hfirst; cbn [fmap option_fmap option_map].
    + split; [|cbn [found]; rewrite ?app_nil_r; reflexivity].
      intros h Hh. cbn [photoHashes]. rewrite firstWith_snoc.
      rewrite (Hinv h Hh). cbn [fingerprint fpHash]. fold hash.
      destruct (firstWith h seen) eqn:Hh'; [done|].
      destruct (String.eqb_spec hash h) as [<-|Hneq]; [congruence | done].
    + split; [|cbn [found]; rewrite ?app_nil_r; reflexivity].
      intros h Hh. cbn [photoHashes]. rewrite firstWith_snoc.
      cbn [fingerprint fpHash fpPhoto]. fold hash.
      destruct (String.eqb_spec hash h) as [<-|Hneq].
      * rewrite lookup_insert_eq, Hfirst. done.
      * rewrite lookup_insert_ne by done. rewrite (Hinv h Hh).
        by destruct (firstWith h seen).
  - (* the fallback *)
    pose proof (fallback_is_error i _ Hread) as He. fold hash in He.
    rewrite He. cbn [negb].
    assert (Hkeep : remembersFirst (seen ++ [fingerprint env i photo])
                      (<[hash := photo]> (photoHashes s))).
    { intros h Hh. rewrite firstWith_snoc. cbn [fingerprint fpHash]. fold hash.
      destruct (String.eqb_spec hash h) as [<-|Hneq]; [congruence|].
      rewrite lookup_insert_ne by done. rewrite (Hinv h Hh).
      by destruct (firstWith h seen). }
    destruct (photoHashes s !! hash); cbn [photoHashes found];
      (split; [exact Hkeep | cbn [found]; rewrite ?app_nil_r; reflexivity]).
Qed.

Lemma scanFrom_expected photos : forall seen s i,
  remembersFirst seen (photoHashes s) ->
  found (scanFrom env s i photos) = found s ++ expectedPairs seen (fingerprintsFrom env i photos).
Proof.
  induction photos as [|photo rest IH]; intros seen s i Hinv.
  - simpl. by rewrite app_nil_r.
  - cbn [scanFrom fingerprintsFrom].
    destruct (scanPhoto_step seen s i photo Hinv) as [Hinv' Hfound].
    rewrite (IH _ _ _ Hinv'), Hfound.
    cbn [expectedPairs]. rewrite app_nil_r, <- app_assoc. reflexivity.
Qed.

(** C8: for every photo list, [initialize] records as duplicates exactly
    the pairs of the specification, in scan order: the original is the
    first photo that produced the fingerprint, the duplicate a later photo
    with the same fingerprint, and a fallback fingerprint never makes a
    pair. *)
Theorem initialize_duplicates (now : string) (photos : list string)
    (history : list (string * string)) :
  duplicates (initialize env now photos history)
  = expectedPairs [] (fingerprintsFrom env 0 photos).
Proof.
  unfold initialize. cbn [duplicates].
  rewrite (scanFrom_expected photos [] (mkScan ∅ []) 0); [done|].
  intros h _. reflexivity.
Qed.

End Duplicates.

(* ===================================================================== *)
(** * Properties of the photo order *)
(* ===================================================================== *)

Section Ordering.

Import PhotoSorter.
Variable env : MetaEnv.

(** The comparator of the source says [a] is not after [b] exactly when
    the specification lets [a] stand before [b]. *)
Lemma comparePhotos_precedes a b :
  (comparePhotos env a b <= 0)%Z <-> precedes env a b.
Proof.
  unfold comparePhotos, precedes, byMtimeTier, byNameTier.
  destruct (exifDateMs a) as [x|], (exifDateMs b) as [y|].
  - destruct (Z.eqb_spec x y) as [->|Hxy]; simpl.
    + destruct (Z.eqb_spec (mtimeMs a) (mtimeMs b)) as [Hm|Hm]; simpl.
      * split; [intros H; right; split; [done|]; right; done|].
        intros [?|[_ [?|[_ ?]]]]; lia.
      * split; [intros H; right; split; [done|]; left; lia|].
        intros [?|[_ [?|[? _]]]]; lia.
    + split; [intros H; left; lia|]. intros [?|[? _]]; lia.
  - split; [done | lia].
  - split; [lia | done].
  - destruct (Z.eqb_spec (mtimeMs a) (mtimeMs b)) as [Hm|Hm]; simpl.
    + split; [intros H; right; done|]. intros [?|[_ ?]]; lia.
    + split; [intros H; left; lia|]. intros [?|[? _]]; lia.
Qed.

Lemma insertBy_perm {A} (cmp : A -> A -> Z) x l : Permutation (x :: l) (insertBy cmp x l).
Proof.
  induction l as [|y l IH]; simpl; [done|].
  destruct (Z.leb (cmp x y) 0); [done|].
  rewrite <- IH. apply perm_swap.
Qed.

Lemma sortBy_perm {A} (cmp : A -> A -> Z) l : Permutation l (sortBy cmp l).
Proof.
  induction l as [|x l IH]; simpl; [done|].
  rewrite <- insertBy_perm. by constructor.
Qed.

Section Sorted.
Context {A : Type} (cmp : A -> A -> Z).
Abbreviation le := (fun a b : A => (cmp a b <= 0)%Z).
Hypothesis le_total : forall a b, le a b \/ le b a.
Hypothesis le_trans : forall a b c, le a b -> le b c -> le a c.

Lemma insertBy_sorted x l : StronglySorted le l -> StronglySorted le (insertBy cmp x l).
Proof.
  induction l as [|y l IH]; intros Hs; simpl.
  - constructor; [constructor | constructor].
  - apply StronglySorted_inv in Hs as [Hs Hy].
    destruct (Z.leb_spec (cmp x y) 0) as [Hle|Hgt].
    + constructor; [by constructor|].
      constructor; [exact Hle|].
      eapply Forall_impl; [exact Hy|]. intros z Hz. by apply (le_trans x y z).
    + constructor; [by apply IH|].
      eapply Permutation_Forall; [apply insertBy_perm|].
      constructor; [|exact Hy].
      destruct (le_total x y) as [H|H]; [lia | exact H].
Qed.

Lemma sortBy_sorted l : StronglySorted le (sortBy cmp l).
Proof.
  induction l as [|x l IH]; simpl; [constructor | by apply insertBy_sorted].
Qed.

End Sorted.

(** What [localeCompare] promises: any two names are comparable, and
    "not after" is transitive. *)
Hypothesis name_total : forall s t,
  (localeCompare env s t <= 0)%Z \/ (localeCompare env t s <= 0)%Z.
Hypothesis name_trans : forall s t u,
  (localeCompare env s t <= 0)%Z -> (localeCompare env t u <= 0)%Z ->
  (localeCompare env s u <= 0)%Z.

Lemma precedes_total a b : precedes env a b \/ precedes env b a.
Proof.
  unfold precedes, byMtimeTier, byNameTier.
  pose proof (name_total (name a) (name b)).
  destruct (exifDateMs a) as [x|], (exifDateMs b) as [y|]; try tauto; lia.
Qed.

Lemma precedes_trans a b c : precedes env a b -> precedes env b c -> precedes env a c.
Proof.
  unfold precedes, byMtimeTier, byNameTier.
  pose proof (name_trans (name a) (name b) (name c)).
  destruct (exifDateMs a) as [x|], (exifDateMs b) as [y|], (exifDateMs c) as [z|];
    try tauto; intros; try lia.
Qed.


End Ordering.

Lemma lexCompare_total a b :
  (Collation.lexCompare a b <= 0)%Z \/ (Collation.lexCompare b a <= 0)%Z.
Proof.
  revert b. induction a as [|x a IH]; intros [|y b]; simpl; try lia.
  destruct (Z.ltb_spec x y), (Z.ltb_spec y x); try lia. apply IH.
Qed.

Lemma lexCompare_trans a b c :
  (Collation.lexCompare a b <= 0)%Z -> (Collation.lexCompare b c <= 0)%Z ->
  (Collation.lexCompare a c <= 0)%Z.
Proof.
  revert b c. induction a as [|x a IH]; intros [|y b] [|z c]; simpl; try lia.
  destruct (Z.ltb_spec x y), (Z.ltb_spec y x), (Z.ltb_spec y z), (Z.ltb_spec z y),
    (Z.ltb_spec x z), (Z.ltb_spec z x); try lia.
  apply IH.
Qed.

Example naturalCompare_numeric :
  Collation.naturalCompare "IMG2.jpg" "img10.JPG" = (-1)%Z.
Proof. reflexivity. Qed.


(* ===================================================================== *)
(** * Properties of the export plan *)
(* ===================================================================== *)

Section Planning.

Import Js Fs PhotoSorter.

Lemma bind_ok {A B} (c : M A) (k : A -> M B) fs b fs' :
  bind c k fs = (Ok b, fs') ->
  exists a fs1, c fs = (Ok a, fs1) /\ k a fs1 = (Ok b, fs').
Proof.
  unfold bind. destruct (c fs) as [[a|e] fs1]; [eauto | discriminate].
Qed.

Lemma bind_throw {A B} (c : M A) (k : A -> M B) fs e fs' :
  c fs = (Throw e, fs') -> bind c k fs = (Throw e, fs').
Proof. unfold bind. by intros ->. Qed.

Lemma bind_step {A B} (c : M A) (k : A -> M B) fs a fs1 :
  c fs = (Ok a, fs1) -> bind c k fs = k a fs1.
Proof. unfold bind. by intros ->. Qed.

(** ** Counting *)

Lemma planFile_counts h g p exportRoot plan fileName fs plan' fs' :
  planFile h g p exportRoot plan fileName fs = (Ok plan', fs') ->
  total plan' = total plan
  /\ tagged plan' + untagged plan' = tagged plan + untagged plan + 1.
Proof.
  unfold planFile.
  destruct (match Dict.get (images p) fileName with Some e => tags e | None => [] end)
    as [|primary secondary].
  - intros [= <- _]. simpl. lia.
  - intros H. apply bind_ok in H as (_ & fs1 & _ & H).
    apply bind_ok in H as (ls & fs2 & _ & H).
    injection H as <- _. simpl. lia.
Qed.

Lemma planFiles_counts h g p exportRoot fileNames : forall plan fs plan' fs',
  planFiles h g p exportRoot plan fileNames fs = (Ok plan', fs') ->
  total plan' = total plan
  /\ tagged plan' + untagged plan' = tagged plan + untagged plan + List.length fileNames.
Proof.
  induction fileNames as [|f rest IH]; intros plan fs plan' fs' H.
  - injection H as <- _. simpl. lia.
  - cbn [planFiles] in H. apply bind_ok in H as (plan1 & fs1 & H1 & H).
    apply planFile_counts in H1 as [Ht Hc].
    apply IH in H as [Ht' Hc']. simpl. lia.
Qed.

(** C10: every plan [buildExportPlan] returns has
    [tagged + untagged = total]; with a project loaded, [total] is the
    number of scanned photos, so that each of them is counted once, as
    tagged or as untagged. *)
Theorem buildExportPlan_counts (h : Host) (g : Globals) (exportRoot : string)
    (fs fs' : FS) (plan : Plan) :
  buildExportPlan h g exportRoot fs = (Ok plan, fs') ->
  tagged plan + untagged plan = total plan
  /\ total plan = match project g with
                  | Some _ => List.length (photos g)
                  | None => 0
                  end.
Proof.
  unfold buildExportPlan. destruct (project g) as [p|].
  - intros H. apply planFiles_counts in H as [Ht Hc]. simpl in *.
    rewrite length_map in *. lia.
  - intros [= <- _]. simpl. lia.
Qed.

(** ** What planning does to the file system *)

Lemma onlyNewDirs_refl fs : onlyNewDirs fs fs.
Proof. intros p. by left. Qed.

Lemma onlyNewDirs_trans fs1 fs2 fs3 :
  onlyNewDirs fs1 fs2 -> onlyNewDirs fs2 fs3 -> onlyNewDirs fs1 fs3.
Proof.
  intros H12 H23 p. destruct (H12 p) as [E1|[N1 D1]], (H23 p) as [E2|[N2 D2]].
  - left. congruence.
  - right. split; congruence.
  - right. split; congruence.
  - congruence.
Qed.

Lemma addsDirsOnly_ret {A} (a : A) : addsDirsOnly (ret a).
Proof. intros fs. apply onlyNewDirs_refl. Qed.

Lemma addsDirsOnly_bind {A B} (c : M A) (k : A -> M B) :
  addsDirsOnly c -> (forall a, addsDirsOnly (k a)) -> addsDirsOnly (bind c k).
Proof.
  intros Hc Hk fs. unfold bind. specialize (Hc fs).
  destruct (c fs) as [[a|e] fs1]; simpl in *; [|done].
  eapply onlyNewDirs_trans; [exact Hc | apply Hk].
Qed.

Lemma addsDirsOnly_tryCatch {A} (c : M A) (k : Exn -> M A) :
  addsDirsOnly c -> (forall e, addsDirsOnly (k e)) -> addsDirsOnly (tryCatch c k).
Proof.
  intros Hc Hk fs. unfold tryCatch. specialize (Hc fs).
  destruct (c fs) as [[a|e] fs1]; simpl in *; [done|].
  eapply onlyNewDirs_trans; [exact Hc | apply Hk].
Qed.

Lemma addsDirsOnly_read {A} (c : FS -> M A) :
  (forall fs0, addsDirsOnly (c fs0)) -> addsDirsOnly (fun fs => c fs fs).
Proof. intros H fs. apply H. Qed.

Lemma mkdir_fold_onlyNewDirs dirs : forall fs,
  onlyNewDirs fs (foldl (fun acc d => if existsSync acc d then acc else <[d := Dir]> acc)
                        fs dirs).
Proof.
  induction dirs as [|d dirs IH]; intros fs; simpl; [apply onlyNewDirs_refl|].
  eapply onlyNewDirs_trans; [|apply IH].
  unfold existsSync. destruct (fs !! d) eqn:E; [apply onlyNewDirs_refl|].
  intros p. destruct (decide (d = p)) as [->|Hne].
  - right. by rewrite lookup_insert_eq.
  - left. by rewrite lookup_insert_ne.
Qed.

Lemma addsDirsOnly_mkdirSync h p : addsDirsOnly (mkdirSync h p).
Proof.
  intros fs. unfold mkdirSync.
  destruct (existsb _ _); [apply onlyNewDirs_refl|].
  destruct (existsb _ _); [apply onlyNewDirs_refl|].
  apply mkdir_fold_onlyNewDirs.
Qed.

Lemma addsDirsOnly_ensureDirSync h p : addsDirsOnly (ensureDirSync h p).
Proof.
  intros fs. unfold ensureDirSync.
  destruct (negb _); [apply addsDirsOnly_mkdirSync | apply onlyNewDirs_refl].
Qed.

Lemma addsDirsOnly_planLinks h exportRoot fileName destPrimary secondary :
  forall acc, addsDirsOnly (planLinks h exportRoot fileName destPrimary secondary acc).
Proof.
  induction secondary as [|t rest IH]; intros acc; cbn [planLinks].
  - apply addsDirsOnly_ret.
  - apply addsDirsOnly_bind; [apply addsDirsOnly_ensureDirSync|].
    intros _ fs. apply IH.
Qed.

Lemma addsDirsOnly_planFile h g p exportRoot plan fileName :
  addsDirsOnly (planFile h g p exportRoot plan fileName).
Proof.
  unfold planFile. destruct (match Dict.get _ _ with Some _ => _ | None => _ end).
  - apply addsDirsOnly_ret.
  - apply addsDirsOnly_bind; [apply addsDirsOnly_ensureDirSync|].
    intros _ fs. cbv zeta.
    refine (addsDirsOnly_bind _ _ _ _ fs).
    + apply addsDirsOnly_planLinks.
    + intros ls. apply addsDirsOnly_ret.
Qed.

Lemma addsDirsOnly_planFiles h g p exportRoot fileNames :
  forall plan, addsDirsOnly (planFiles h g p exportRoot plan fileNames).
Proof.
  induction fileNames as [|f rest IH]; intros plan; cbn [planFiles].
  - apply addsDirsOnly_ret.
  - apply addsDirsOnly_bind; [apply addsDirsOnly_planFile | apply IH].
Qed.

Lemma addsDirsOnly_buildExportPlan h g exportRoot :
  addsDirsOnly (buildExportPlan h g exportRoot).
Proof.
  unfold buildExportPlan. destruct (project g);
    [apply addsDirsOnly_planFiles | apply addsDirsOnly_ret].
Qed.

End Planning.

(** ** The scenario of the specification *)

Section Scenario.

Import Js Fs PhotoSorter.

(** C1, counterexample: the dry run of the scenario creates the folders
    [/photos/Yes] and [/photos/Maybe]. *)
Lemma dryRun_creates_tag_folders :
  ~ dryRun_leaves_fs_unchanged scenarioHost scenarioGlobals None scenarioFs.
Proof.
  unfold dryRun_leaves_fs_unchanged. intros H.
  apply (f_equal (fun fs : FS => fs !! "/photos/Yes")) in H.
  vm_compute in H. discriminate.
Qed.

(** C1, amended: computing an export plan, by [buildExportPlan] or by the
    dry-run handler around it, never moves, links, copies, rewrites or
    deletes anything: every path keeps the node it had.  What it does is
    create directories that were missing (the export root, and a folder
    per tag of a tagged photo): a path that is new afterwards is a
    directory. *)
Theorem planning_adds_directories_only
    (h : Host) (g : Globals) (exportRootArg : option string) (exportRoot : string) (fs : FS) :
  onlyNewDirs fs (snd (exportDryRun h g exportRootArg fs))
  /\ onlyNewDirs fs (snd (buildExportPlan h g exportRoot fs)).
Proof.
  split; [|apply addsDirsOnly_buildExportPlan].
  unfold exportDryRun. apply addsDirsOnly_tryCatch.
  - apply addsDirsOnly_bind; [apply addsDirsOnly_ensureDirSync|].
    intros _. apply addsDirsOnly_bind; [apply addsDirsOnly_buildExportPlan|].
    intros plan. apply addsDirsOnly_ret.
  - intros e. apply addsDirsOnly_ret.
Qed.

(** C9: in the scenario the plan moves both photos into the [Yes] folder,
    links [Maybe/img001.jpg] from the destination of the move of
    [img001.jpg], and counts two tagged photos, none untagged, [Yes]
    twice and [Maybe] once. *)
Theorem buildExportPlan_scenario :
  fst (buildExportPlan scenarioHost scenarioGlobals "/photos" scenarioFs) = Ok scenarioPlan
  /\ moves scenarioPlan = [mkOp "/photos/img001.jpg" "/photos/Yes/img001.jpg";
                          mkOp "/photos/img002.jpg" "/photos/Yes/img002.jpg"]
  /\ links scenarioPlan = [mkOp "/photos/Yes/img001.jpg" "/photos/Maybe/img001.jpg"]
  /\ (tagged scenarioPlan, untagged scenarioPlan) = (2, 0)
  /\ perTag scenarioPlan = [("Yes", 2); ("Maybe", 1)].
Proof. split; [vm_compute; reflexivity | repeat split]. Qed.

(** Executing that plan leaves the three files of the scenario where the
    specification says, and none at the root. *)
Example exportExecute_scenario :
  let r := exportExecute scenarioHost scenarioGlobals None scenarioFs in
  fst r = Ok (ExecOk 2 1)
  /\ snd r !! "/photos/Yes/img001.jpg" = Some (File "bytes of img001")
  /\ snd r !! "/photos/Yes/img002.jpg" = Some (File "bytes of img002")
  /\ snd r !! "/photos/Maybe/img001.jpg" = Some (File "bytes of img001")
  /\ snd r !! "/photos/img001.jpg" = None
  /\ snd r !! "/photos/img002.jpg" = None.
Proof. vm_compute. repeat split. Qed.

Lemma pair_of_fst {A B} (x : A * B) (a : A) : fst x = a -> x = (a, snd x).
Proof. intros <-. apply surjective_pairing. Qed.

(** C10, witness: the plan of the scenario. *)
Lemma buildExportPlan_counts_witness :
  exists plan fs',
    buildExportPlan scenarioHost scenarioGlobals "/photos" scenarioFs = (Ok plan, fs')
    /\ tagged plan + untagged plan = total plan
    /\ total plan = 2.
Proof.
  assert (Hr : buildExportPlan scenarioHost scenarioGlobals "/photos" scenarioFs
               = (Ok scenarioPlan,
                  snd (buildExportPlan scenarioHost scenarioGlobals "/photos" scenarioFs))).
  { apply pair_of_fst. vm_compute. reflexivity. }
  eexists _, _. split; [exact Hr|].
  exact (buildExportPlan_counts _ _ _ _ _ _ Hr).
Defined.

(** ** Executing the moves *)

Lemma moveWithFallbackSync_rethrows h src dest fs e fs' :
  renameSync h src dest fs = (Throw e, fs') -> isEXDEV e = false ->
  moveWithFallbackSync h src dest fs = (Throw e, fs').
Proof.
  intros H He. unfold moveWithFallbackSync, tryCatch. rewrite H, He. reflexivity.
Qed.

Lemma executeMoves_app h done rest fs fs1 :
  executeMoves h done fs = (Ok tt, fs1) ->
  executeMoves h (done ++ rest) fs = executeMoves h rest fs1.
Proof.
  revert fs. induction done as [|m done IH]; intros fs H; cbn [executeMoves app] in *.
  - by injection H as <-.
  - unfold bind in *.
    destruct (ensureDirSync h _ fs) as [[[]|e] fs2]; [|discriminate].
    destruct (moveWithFallbackSync h _ _ fs2) as [[[]|e] fs3]; [|discriminate].
    by apply IH.
Qed.

(** C2, counterexample: [img001.jpg] has vanished, its rename fails with
    [ENOENT], and the handler answers [{ ok: false, error }] with
    [img002.jpg] left where it was. *)
Lemma export_stops_at_vanished_file :
  ~ export_continues_after_failure scenarioHost scenarioGlobals vanishedFs.
Proof.
  intros H.
  assert (Hp : fst (buildExportPlan scenarioHost scenarioGlobals
                      (sourceFolder scenarioGlobals) vanishedFs) = Ok scenarioPlan)
    by (vm_compute; reflexivity).
  destruct (H _ Hp) as [(moved & linked & Hr) _].
  vm_compute in Hr. discriminate Hr.
Qed.

Example export_leaves_later_move_undone :
  let '(r, fs) := exportExecute scenarioHost scenarioGlobals None vanishedFs in
  r = Ok (ExecFailed "ENOENT")
  /\ existsSync fs "/photos/img002.jpg" = true
  /\ existsSync fs "/photos/Yes/img002.jpg" = false.
Proof. vm_compute. repeat split. Qed.

(** C2, amended: in ['export-execute'] the first move whose rename fails
    for another reason than a cross-device rename ends the export: the
    handler answers [{ ok: false, error }] with that error and no
    counts, and the file system is the one that failed rename left, so
    that no later move and no link has been tried while the moves before
    it stay done.  Counts are returned only when every move and every
    link went through, and then they are the lengths of the plan. *)
Theorem exportExecute_stops_at_first_failure
    (h : Host) (g : Globals) (exportRootArg : option string) (fs fs0 : FS) (plan : Plan) :
  buildExportPlan h g (chooseRoot g exportRootArg) fs = (Ok plan, fs0) ->
  (forall done m rest fs1 fs2 e fs3,
      moves plan = done ++ m :: rest ->
      executeMoves h done fs0 = (Ok tt, fs1) ->
      ensureDirSync h (Path.dirname (dest m)) fs1 = (Ok tt, fs2) ->
      renameSync h (src m) (dest m) fs2 = (Throw e, fs3) ->
      isEXDEV e = false ->
      exportExecute h g exportRootArg fs = (Ok (ExecFailed (message e)), fs3))
  /\ (forall fs1 fs2,
      executeMoves h (moves plan) fs0 = (Ok tt, fs1) ->
      executeLinks h (links plan) fs1 = (Ok tt, fs2) ->
      exportExecute h g exportRootArg fs
      = (Ok (ExecOk (List.length (moves plan)) (List.length (links plan))), fs2)).
Proof.
  intros Hplan. split.
  - intros done m rest fs1 fs2 e fs3 Hsplit Hdone Hdir Hren He.
    unfold exportExecute, tryCatch.
    rewrite (bind_step _ _ _ _ _ Hplan).
    rewrite Hsplit.
    assert (Hm : executeMoves h (done ++ m :: rest) fs0 = (Throw e, fs3)).
    { rewrite (executeMoves_app _ _ _ _ _ Hdone). cbn [executeMoves].
      rewrite (bind_step _ _ _ _ _ Hdir).
      apply bind_throw. by apply moveWithFallbackSync_rethrows. }
    rewrite (bind_throw _ _ _ _ _ Hm). reflexivity.
  - intros fs1 fs2 Hm Hl. unfold exportExecute, tryCatch.
    rewrite (bind_step _ _ _ _ _ Hplan), (bind_step _ _ _ _ _ Hm),
      (bind_step _ _ _ _ _ Hl).
    reflexivity.
Qed.

(** C2, witness: the vanished photo is the first move of the plan. *)
Lemma exportExecute_stops_at_first_failure_witness :
  exists fs3,
    exportExecute scenarioHost scenarioGlobals None vanishedFs
    = (Ok (ExecFailed "ENOENT"), fs3)
    /\ existsSync fs3 "/photos/img002.jpg" = true
    /\ existsSync fs3 "/photos/Yes/img002.jpg" = false.
Proof.
  pose (fs0 := snd (buildExportPlan scenarioHost scenarioGlobals "/photos" vanishedFs)).
  pose (fs2 := snd (ensureDirSync scenarioHost "/photos/Yes" fs0)).
  pose (fs3 := snd (renameSync scenarioHost "/photos/img001.jpg"
                      "/photos/Yes/img001.jpg" fs2)).
  assert (Hplan : buildExportPlan scenarioHost scenarioGlobals
                    (chooseRoot scenarioGlobals None) vanishedFs = (Ok scenarioPlan, fs0)).
  { apply pair_of_fst. vm_compute. reflexivity. }
  assert (Hdir : ensureDirSync scenarioHost
                   (Path.dirname (dest (mkOp "/photos/img001.jpg" "/photos/Yes/img001.jpg")))
                   fs0 = (Ok tt, fs2)).
  { apply pair_of_fst. vm_compute. reflexivity. }
  assert (Hren : renameSync scenarioHost "/photos/img001.jpg" "/photos/Yes/img001.jpg" fs2
                 = (Throw (SystemError "ENOENT"), fs3)).
  { apply pair_of_fst. vm_compute. reflexivity. }
  exists fs3. split.
  - exact (proj1 (exportExecute_stops_at_first_failure
                    scenarioHost scenarioGlobals None vanishedFs fs0 scenarioPlan Hplan)
             [] (mkOp "/photos/img001.jpg" "/photos/Yes/img001.jpg")
             [mkOp "/photos/img002.jpg" "/photos/Yes/img002.jpg"]
             fs0 fs2 (SystemError "ENOENT") fs3 eq_refl eq_refl Hdir Hren eq_refl).
  - split; vm_compute; reflexivity.
Defined.

End Scenario.

(** ** The loop of [uniquePath] ends *)

Section UniquePath.
Import Js Fs PhotoSorter.

Lemma chars_app a b : JsString.chars (a +:+ b) = JsString.chars a ++ JsString.chars b.
Proof. induction a as [|c a IH]; simpl; [done | by rewrite IH]. Qed.

Lemma app_cancel_r a b e : a +:+ e = b +:+ e -> a = b.
Proof.
  intros H. apply (f_equal JsString.chars) in H. rewrite !chars_app in H.
  apply app_inv_tail in H. rewrite <- (str_chars a), <- (str_chars b). by rewrite H.
Qed.

Lemma candidate_inj dir base ext i j :
  candidate dir base ext i = candidate dir base ext j -> i = j.
Proof.
  unfold candidate, Path.join.
  assert (Hne : forall k : nat, String.eqb (base +:+ "_" +:+ pretty k +:+ ext) "" = false).
  { intros k. apply String.eqb_neq. intros H.
    apply (f_equal JsString.chars) in H. rewrite chars_app in H.
    destruct (JsString.chars base); discriminate. }
  rewrite !Hne.
  assert (Hinj : base +:+ "_" +:+ pretty i +:+ ext = base +:+ "_" +:+ pretty j +:+ ext -> i = j).
  { intros H. apply String.app_inj in H. apply (String.app_inj "_") in H.
    apply app_cancel_r in H. by apply pretty_nat_inj in H. }
  destruct (String.eqb dir ""); [exact Hinj|].
  destruct (Path.endsWithSep dir); intros H.
  - apply String.app_inj in H. by apply Hinj.
  - apply String.app_inj in H. apply (String.app_inj "/") in H. by apply Hinj.
Qed.

Lemma exists_in_dom (fs : FS) p : existsSync fs p = true <-> p ∈ dom fs.
Proof.
  unfold existsSync. rewrite elem_of_dom.
  destruct (fs !! p) eqn:E; split; intros H; try done; by destruct H.
Qed.

Lemma existing_paths_bound (fs : FS) (seen : list string) :
  NoDup seen -> (forall p, p ∈ seen -> existsSync fs p = true) ->
  List.length seen <= size fs.
Proof.
  intros Hnd Hall. rewrite <- size_dom. unfold size, set_size. simpl.
  apply submseteq_length, NoDup_submseteq; [done|].
  intros p Hp. apply elem_of_elements, exists_in_dom, Hall, Hp.
Qed.

(** The loop of [uniquePath] has fuel enough: the name it returns does
    not exist, whatever names [seen] it has found taken before. *)
Lemma uniquePathLoop_fresh (fs : FS) dir base ext : forall fuel i seen,
  NoDup seen ->
  (forall p, p ∈ seen -> existsSync fs p = true) ->
  (forall j, i <= j -> candidate dir base ext j ∉ seen) ->
  size fs <= fuel + List.length seen ->
  existsSync fs (uniquePathLoop fs dir base ext fuel i) = false.
Proof.
  induction fuel as [|fuel IH]; intros i seen Hnd Hall Hnew Hsize; cbn [uniquePathLoop].
  - destruct (existsSync fs (candidate dir base ext i)) eqn:E; [|done].
    exfalso.
    assert (H : List.length (candidate dir base ext i :: seen) <= size fs).
    { apply existing_paths_bound.
      - constructor; [apply Hnew; lia | done].
      - intros p [->|Hp]%elem_of_cons; [done | by apply Hall]. }
    simpl in H. lia.
  - destruct (existsSync fs (candidate dir base ext i)) eqn:E; [|done].
    apply (IH (S i) (candidate dir base ext i :: seen)).
    + constructor; [apply Hnew; lia | done].
    + intros p [->|Hp]%elem_of_cons; [done | by apply Hall].
    + intros j Hj [Heq|Hin]%elem_of_cons.
      * apply candidate_inj in Heq. lia.
      * apply (Hnew j); [lia | done].
    + simpl. lia.
Qed.

(** [uniquePath] always returns a path that does not exist. *)
Lemma uniquePath_fresh (fs : FS) targetPath :
  existsSync fs (uniquePath fs targetPath) = false.
Proof.
  unfold uniquePath. destruct (existsSync fs targetPath) eqn:E; simpl; [|done].
  apply (uniquePathLoop_fresh fs _ _ _ _ 1 []).
  - constructor.
  - intros p Hp. by apply elem_of_nil in Hp.
  - intros j _ Hp. by apply elem_of_nil in Hp.
  - simpl. lia.
Qed.

End UniquePath.

(* ===================================================================== *)
(** * Tag requests, the pending save, export and revert *)
(* ===================================================================== *)

Section PendingSave.

Import Js Fs PhotoSorter.

Lemma touch_touch p u v : touch (touch p u) v = touch p v.
Proof. reflexivity. Qed.

Lemma touch_same p : touch p (updatedAt p) = p.
Proof. by destruct p. Qed.

Lemma mutate_touch r p u : mutate r (touch p u) = touch (mutate r p) u.
Proof.
  destruct p as [v rt im ts ua].
  destruct r as [f t|f t];
    unfold mutate, addTag, removeTag, upsertGlobalTag, withImages, touch;
    cbv zeta; cbn [images allTags version root updatedAt tags];
    repeat (case_match; cbn [images allTags version root updatedAt tags] in *;
            simplify_eq);
    try reflexivity; congruence.
Qed.

Lemma save_in_existing_dir h now m fs p :
  current m = Some p -> existsSync fs (projectDir m) = true ->
  save h now m fs
  = (Ok tt, mkManager (rootDirectory m) (Some (touch p now)) (Some (touch p now)), fs).
Proof.
  intros Hp Hdir. unfold save, ensureDirSync. rewrite Hp.
  change (projectDir (mkManager (rootDirectory m) (Some (touch p now)) (saveTimer m)))
    with (projectDir m).
  rewrite Hdir. reflexivity.
Qed.

(** One request on an opened folder whose project directory exists. *)
Lemma tagHandler_step h now r a fs m p :
  projectManager a = Some m -> current m = Some p ->
  existsSync fs (projectDir m) = true ->
  exists answer,
    tagHandler h now r a fs
    = (answer,
       if effective r
       then withManager a (mkManager (rootDirectory m) (Some (touch (mutate r p) now))
                                     (Some (touch (mutate r p) now)))
       else a,
       fs).
Proof.
  intros Hm Hp Hdir. unfold tagHandler, effective. rewrite Hm.
  destruct (JsString.truthy (requestPath r)), (JsString.truthy (requestTag r));
    cbn [negb orb andb]; try (by eexists).
  rewrite Hp. cbn [mutateCurrent].
  erewrite save_in_existing_dir; [|reflexivity|exact Hdir].
  destruct (statsManager a); by eexists.
Qed.

Lemma foldl_mutate_touch l : forall q v,
  foldl (fun q r => mutate r q) (touch q v) l
  = touch (foldl (fun q r => mutate r q) q l) v.
Proof.
  induction l as [|x l IH]; intros q v; simpl; [done|].
  by rewrite mutate_touch, IH.
Qed.

(** The state a sequence of requests leads to: the project in memory is
    the one the tag changes give, up to [updatedAt], and once a request
    was effective the slot holds that very project, waiting to be
    written. *)
Lemma runRequests_state h reqs : forall a fs m p,
  projectManager a = Some m -> current m = Some p ->
  existsSync fs (projectDir m) = true ->
  exists p1 timer,
    runRequests h reqs a fs
    = (mkApp (appPhotos a) (appSourceFolder a)
             (Some (mkManager (rootDirectory m) (Some p1) timer)) (statsManager a), fs)
    /\ (exists u, p1 = touch (applyRequests p reqs) u)
    /\ (List.filter effective (map snd reqs) <> [] -> timer = Some p1)
    /\ (List.filter effective (map snd reqs) = [] -> timer = saveTimer m /\ p1 = p).
Proof.
  induction reqs as [|[now r] reqs IH]; intros a fs m p Hm Hp Hdir.
  - exists p, (saveTimer m). unfold runRequests, applyRequests. simpl.
    split; [|split; [|split]]; try done.
    + destruct a as [ph sf pm sm], m as [rd cur tm]. simpl in *. by subst.
    + exists (updatedAt p). by rewrite touch_same.
  - unfold runRequests. cbn [foldl fst snd].
    destruct (tagHandler_step h now r a fs m p Hm Hp Hdir) as [answer ->].
    fold (runRequests h reqs
            (if effective r
             then withManager a (mkManager (rootDirectory m) (Some (touch (mutate r p) now))
                                           (Some (touch (mutate r p) now)))
             else a) fs).
    unfold applyRequests. cbn [map snd List.filter].
    destruct (effective r) eqn:Er.
    + edestruct (IH (withManager a (mkManager (rootDirectory m)
                                      (Some (touch (mutate r p) now))
                                      (Some (touch (mutate r p) now)))) fs)
        as (p1 & timer & Hrun & [u Hu] & Hset & Hkeep); [reflexivity | reflexivity | exact Hdir |].
      rewrite Hrun. cbn [foldl appPhotos appSourceFolder statsManager withManager rootDirectory].
      exists p1, timer. split; [done|]. split; [|split].
      * exists u. rewrite Hu. unfold applyRequests.
        by rewrite foldl_mutate_touch, touch_touch.
      * intros _. destruct (List.filter effective (map snd reqs)) eqn:Ef.
        -- destruct (Hkeep eq_refl) as [-> ->]. reflexivity.
        -- by apply Hset.
      * discriminate.
    + destruct (IH a fs m p Hm Hp Hdir) as (p1 & timer & Hrun & Hu & Hset & Hkeep).
      exists p1, timer. done.
Qed.

(** Whatever the file system does, [save] leaves the project it was
    given in memory, with [updatedAt] set. *)
Lemma save_project h now m fs p :
  current m = Some p ->
  exists res timer fs',
    save h now m fs = (res, mkManager (rootDirectory m) (Some (touch p now)) timer, fs').
Proof.
  intros Hp. unfold save. rewrite Hp.
  destruct (ensureDirSync h _ fs) as [[[]|e] fs']; by eexists _, _, _.
Qed.

Lemma tagHandler_project h now r a fs m p :
  projectManager a = Some m -> current m = Some p ->
  exists answer timer fs',
    tagHandler h now r a fs
    = (answer,
       if effective r
       then withManager a (mkManager (rootDirectory m) (Some (touch (mutate r p) now)) timer)
       else a,
       fs').
Proof.
  intros Hm Hp. unfold tagHandler, effective. rewrite Hm.
  destruct (JsString.truthy (requestPath r)), (JsString.truthy (requestTag r));
    cbn [negb orb andb]; try (by eexists _, None, _).
  rewrite Hp. cbn [mutateCurrent].
  destruct (save_project h now
              (mkManager (rootDirectory m) (Some (mutate r p)) (saveTimer m)) fs
              (mutate r p) eq_refl) as (res & timer & fs' & ->).
  cbn [rootDirectory current].
  destruct res as [[]|e]; [destruct (statsManager a)|]; by eexists _, _, _.
Qed.

(** The project in memory after a sequence of requests is the one their
    tag changes give, up to [updatedAt], whether or not the saves went
    through. *)
Lemma runRequests_project h reqs : forall a fs m p,
  projectManager a = Some m -> current m = Some p ->
  exists p1 timer fs1,
    runRequests h reqs a fs
    = (mkApp (appPhotos a) (appSourceFolder a)
             (Some (mkManager (rootDirectory m) (Some p1) timer)) (statsManager a), fs1)
    /\ (exists u, p1 = touch (applyRequests p reqs) u).
Proof.
  induction reqs as [|[now r] reqs IH]; intros a fs m p Hm Hp.
  - exists p, (saveTimer m), fs. unfold runRequests, applyRequests. simpl. split.
    + destruct a as [ph sf pm sm], m as [rd cur tm]. simpl in *. by subst.
    + exists (updatedAt p). by rewrite touch_same.
  - unfold runRequests. cbn [foldl fst snd].
    destruct (tagHandler_project h now r a fs m p Hm Hp) as (answer & timer0 & fs0 & ->).
    fold (runRequests h reqs
            (if effective r
             then withManager a (mkManager (rootDirectory m) (Some (touch (mutate r p) now))
                                           timer0)
             else a) fs0).
    unfold applyRequests. cbn [map snd List.filter].
    destruct (effective r) eqn:Er.
    + edestruct (IH (withManager a (mkManager (rootDirectory m)
                                      (Some (touch (mutate r p) now)) timer0)) fs0)
        as (p1 & timer & fs1 & Hrun & [u Hu]); [reflexivity | reflexivity |].
      rewrite Hrun. cbn [foldl appPhotos appSourceFolder statsManager withManager rootDirectory].
      exists p1, timer, fs1. split; [done|].
      exists u. rewrite Hu. unfold applyRequests.
      by rewrite foldl_mutate_touch, touch_touch.
    + destruct (IH a fs0 m p Hm Hp) as (p1 & timer & fs1 & Hrun & Hu).
      by exists p1, timer, fs1.
Qed.

Lemma exportExecute_returns h g arg fs :
  exists r, fst (exportExecute h g arg fs) = Ok r.
Proof.
  unfold exportExecute, tryCatch.
  destruct (bind _ _ fs) as [[r|e] fs']; by eexists.
Qed.

(** C3, counterexample: one tag is added and the export follows at once.
    The handler builds its plan while the write scheduled by [save] is
    still pending, and leaves it pending: nothing in the program flushes
    the slot. *)
Lemma export_leaves_write_pending :
  ~ export_and_revert_flush scenarioHost noReopen
      [tagYes] None openedApp openedFs.
Proof.
  intros [Hexport _]. apply Hexport. clear Hexport.
  unfold writePending.
  eexists _, _. split; vm_compute; reflexivity.
Qed.

(** C3, amended: ['export-execute'] and ['revert-export'] act on the
    project in memory, and that project holds every tag change of the
    requests served before them; neither of them flushes: the manager,
    with its slot, is after the handler what it was before.  Where the
    project directory exists, so that [save] cannot fail, the slot holds
    after the last effective request the very project the handlers read,
    still waiting to be written. *)
Theorem export_and_revert_read_memory
    (h : Host) (reopen : FS -> Manager * FS) (reqs : list (string * TagRequest))
    (arg : option string) (a : App) (fs : FS) (m : Manager) (p : Project) :
  projectManager a = Some m -> current m = Some p ->
  exists p1 timer fs1,
    let a1 := mkApp (appPhotos a) (appSourceFolder a)
                    (Some (mkManager (rootDirectory m) (Some p1) timer)) (statsManager a) in
    runRequests h reqs a fs = (a1, fs1)
    /\ (exists u, p1 = touch (applyRequests p reqs) u)
    /\ (exists r fs2,
          exportExecuteHandler h arg a1 fs1 = (r, a1, fs2)
          /\ exportExecute h (mkGlobals (appPhotos a) (appSourceFolder a) (Some p1)) arg fs1
              = (Ok r, fs2))
    /\ (exists r fs3, revertExportHandler h reopen a1 fs1 = (r, a1, fs3))
    /\ (existsSync fs (projectDir m) = true ->
        List.filter effective (map snd reqs) <> [] ->
        timer = Some p1 /\ fs1 = fs).
Proof.
  intros Hm Hp.
  destruct (runRequests_project h reqs a fs m p Hm Hp) as (p1 & timer & fs1 & Hrun & Hu).
  exists p1, timer, fs1. cbv zeta. split; [exact Hrun|]. split; [exact Hu|].
  split; [|split].
  - unfold exportExecuteHandler, globals.
    cbn [projectManager current appPhotos appSourceFolder].
    destruct (exportExecute_returns h
                (mkGlobals (appPhotos a) (appSourceFolder a) (Some p1)) arg fs1) as [r Hr].
    destruct (exportExecute h _ arg fs1) as [[r'|e] fs2]; simpl in Hr; [|discriminate].
    injection Hr as ->. by exists r, fs2.
  - unfold revertExportHandler.
    cbn [projectManager current appPhotos appSourceFolder withManager statsManager].
    match goal with |- context [match ?b fs1 with _ => _ end] => destruct (b fs1) as [[r|e] fs3] end;
      by eexists _, _.
  - intros Hdir Heff.
    destruct (runRequests_state h reqs a fs m p Hm Hp Hdir)
      as (p1' & timer' & Hrun' & _ & Hset & _).
    rewrite Hrun in Hrun'. injection Hrun' as -> -> ->.
    split; [by apply Hset | done].
Qed.

(** C3, witness: the tag added in the scenario is in the project the
    export reads, and its write is pending. *)
Lemma export_and_revert_read_memory_witness :
  exists p1 timer,
    runRequests scenarioHost [tagYes] openedApp openedFs
    = (mkApp ["/photos/img001.jpg"; "/photos/img002.jpg"] "/photos"
             (Some (mkManager "/photos" (Some p1) timer)) true, openedFs)
    /\ timer = Some p1
    /\ getTags p1 "img001.jpg" = ["Yes"].
Proof.
  destruct (export_and_revert_read_memory scenarioHost noReopen [tagYes] None
              openedApp openedFs _ _ eq_refl eq_refl)
    as (p1 & timer & fs1 & Hrun & [u Hu] & _ & _ & Hpending).
  destruct Hpending as [Htimer Hfs].
  - vm_compute. reflexivity.
  - vm_compute. discriminate.
  - exists p1, timer. split; [rewrite Hfs in Hrun; exact Hrun|]. split; [exact Htimer|].
    rewrite Hu. vm_compute. reflexivity.
Defined.

(** The same holds of the revert: the write is still pending after it,
    although the project file it would go to has been deleted. *)
Example revert_leaves_write_pending :
  let st := runRequests scenarioHost [tagYes] openedApp openedFs in
  let r := revertExportHandler scenarioHost noReopen (fst st) (snd st) in
  writePending (snd (fst r))
  /\ existsSync (snd r) "/photos/.photo-sorter" = false.
Proof.
  split.
  - unfold writePending. eexists _, _. split; vm_compute; reflexivity.
  - vm_compute. reflexivity.
Qed.

End PendingSave.

(* ===================================================================== *)
(** * More on the tag operations *)
(* ===================================================================== *)

Lemma getTags_addTag_other p f g t : f <> g -> getTags (addTag p f t) g = getTags p g.
Proof.
  intros Hne. unfold addTag, getTags.
  destruct (negb (JsString.truthy (normalizeTag t))); [done|]. cbv zeta.
  rewrite images_upsertGlobalTag.
  destruct (Dict.get (images p) f) as [e|] eqn:G; cbn [images withImages].
  - rewrite G. destruct (containsTag (tags e) _); cbn [images withImages]; [done|].
    by rewrite get_set_other.
  - rewrite get_set_same. cbn [tags containsTag existsb images withImages].
    by rewrite !get_set_other.
Qed.

Lemma getTags_removeTag p f t :
  getTags (removeTag p f t) f =
    if JsString.truthy (normalizeTag t) then removeFirst (normalizeTag t) (getTags p f)
    else getTags p f.
Proof.
  unfold removeTag, getTags.
  destruct (JsString.truthy (normalizeTag t)); cbn [negb]; [|done].
  destruct (Dict.get (images p) f) as [e|] eqn:G; cbn [images withImages].
  - by rewrite get_set_same.
  - by rewrite G.
Qed.

Lemma getTags_removeTag_other p f g t : f <> g -> getTags (removeTag p f t) g = getTags p g.
Proof.
  intros Hne. unfold removeTag, getTags.
  destruct (negb (JsString.truthy (normalizeTag t))); [done|].
  destruct (Dict.get (images p) f) as [e|] eqn:G; cbn [images withImages]; [|done].
  by rewrite get_set_other.
Qed.

Lemma allTags_removeTag p f t : allTags (removeTag p f t) = allTags p.
Proof.
  unfold removeTag. destruct (negb _); [done|]. by destruct (Dict.get (images p) f).
Qed.

Lemma matching_removeFirst_le n t l :
  List.length (matching n (removeFirst t l)) <= List.length (matching n l).
Proof.
  unfold matching. induction l as [|x l IH]; simpl; [lia|].
  destruct (equalTag x t); simpl.
  - destruct (equalTag x n); simpl; lia.
  - destruct (equalTag x n); simpl; lia.
Qed.

Lemma removeFirst_absent t l : containsTag l t = false -> removeFirst t l = l.
Proof.
  unfold containsTag. induction l as [|x l IH]; simpl; [done|].
  destruct (equalTag x t); simpl; [discriminate|]. intros H. by rewrite IH.
Qed.

Lemma removeFirst_pushed t n l :
  containsTag l t = false -> equalTag n t = true -> removeFirst t (l ++ [n]) = l.
Proof.
  unfold containsTag. intros Hl Hn. induction l as [|x l IH]; simpl.
  - by rewrite Hn.
  - simpl in Hl. destruct (equalTag x t); simpl in *; [discriminate|]. by rewrite IH.
Qed.

(** X1: [addTag] and [removeTag] keep every photo's tag list and the
    global tag list free of tags equal up to case. *)
Theorem tag_operations_keep_tags_unique (p : Project) (f t : string) :
  tagsUnique p -> tagsUnique (addTag p f t) /\ tagsUnique (removeTag p f t).
Proof.
  intros [Hp Hg]. split; split.
  - intros g n. destruct (decide (f = g)) as [<-|Hne].
    + apply addTag_keeps_unique; [apply Hp | apply Hg].
    + rewrite (getTags_addTag_other _ _ _ _ Hne). apply Hp.
  - apply addTag_keeps_unique; [apply Hp | apply Hg].
  - intros g n. destruct (decide (f = g)) as [<-|Hne].
    + rewrite getTags_removeTag. destruct (JsString.truthy _); [|apply Hp].
      etransitivity; [apply matching_removeFirst_le | apply Hp].
    + rewrite (getTags_removeTag_other _ _ _ _ Hne). apply Hp.
  - intros n. rewrite allTags_removeTag. apply Hg.
Qed.

(** X1, witness: a new project and the tag [Yes]. *)
Lemma tag_operations_keep_tags_unique_witness :
  tagsUnique (addTag (newProject "2024-01-01T00:00:00.000Z") "img001.jpg" "Yes")
  /\ tagsUnique (removeTag (newProject "2024-01-01T00:00:00.000Z") "img001.jpg" "Yes").
Proof.
  apply (tag_operations_keep_tags_unique
           (newProject "2024-01-01T00:00:00.000Z") "img001.jpg" "Yes").
  split; intros; simpl; lia.
Defined.

(** X2: removing a tag that was just added, under any spelling equal up to
    case, gives the photo its former tag list back, while the global tag
    list keeps the tag. *)
Theorem removeTag_undoes_addTag (p : Project) (f t t' : string) :
  normalizeTag t <> "" ->
  containsTag (getTags p f) (normalizeTag t) = false ->
  JsString.toLowerCase (normalizeTag t') = JsString.toLowerCase (normalizeTag t) ->
  getTags (removeTag (addTag p f t) f t') f = getTags p f
  /\ allTags (removeTag (addTag p f t) f t') = pushOnce (allTags p) (normalizeTag t)
  /\ containsTag (allTags (removeTag (addTag p f t) f t')) (normalizeTag t) = true.
Proof.
  intros Hne Hnew Hlow.
  assert (Hne' : normalizeTag t' <> "").
  { intros H'. rewrite H' in Hlow. symmetry in Hlow. by apply toLowerCase_empty in Hlow. }
  rewrite getTags_removeTag, allTags_removeTag, (getTags_addTag _ _ _ Hne),
    (allTags_addTag _ _ _ Hne), Hnew.
  apply truthy_nonempty in Hne'. rewrite Hne'.
  split; [|split].
  - apply removeFirst_pushed.
    + rewrite <- Hnew. unfold containsTag. clear Hnew.
      induction (getTags p f) as [|x l IH]; simpl; [done|].
      rewrite IH. by rewrite (equalTag_same_lower x _ _ Hlow).
    + by apply equalTag_lower.
  - reflexivity.
  - fold (pushOnce (allTags p) (normalizeTag t)). by apply containsTag_pushOnce.
Qed.

(** X2, witness: [Maybe] added to and removed from a photo tagged [Yes]. *)
Lemma removeTag_undoes_addTag_witness :
  getTags (removeTag (addTag scenarioProject "img002.jpg" " maybe ") "img002.jpg" "MAYBE")
          "img002.jpg" = ["Yes"].
Proof.
  refine (proj1 (removeTag_undoes_addTag scenarioProject "img002.jpg" " maybe " "MAYBE" _ _ _)).
  - vm_compute. discriminate.
  - vm_compute. reflexivity.
  - vm_compute. reflexivity.
Defined.

(* ===================================================================== *)
(** * The normal form of a tag *)
(* ===================================================================== *)

Lemma headOk_dropWhile l : headOk (JsString.dropWhile JsString.isWhiteSpace l) = true.
Proof.
  induction l as [|c l IH]; simpl; [done|].
  destruct (JsString.isWhiteSpace c) eqn:E; [exact IH|]. simpl. by rewrite E.
Qed.

Lemma dropWhile_headOk l : headOk l = true -> JsString.dropWhile JsString.isWhiteSpace l = l.
Proof. destruct l as [|c l]; simpl; [done|]. by destruct (JsString.isWhiteSpace c). Qed.

Lemma dropWhile_snoc l c :
  JsString.isWhiteSpace c = false ->
  JsString.dropWhile JsString.isWhiteSpace (l ++ [c])
  = JsString.dropWhile JsString.isWhiteSpace l ++ [c].
Proof.
  intros Hc. induction l as [|x l IH]; simpl; [by rewrite Hc|].
  by destruct (JsString.isWhiteSpace x).
Qed.

Lemma headOk_dropWhileEnd l :
  headOk l = true -> headOk (JsString.dropWhileEnd JsString.isWhiteSpace l) = true.
Proof.
  unfold JsString.dropWhileEnd. destruct l as [|c l]; simpl; [done|].
  intros Hc. apply negb_true_iff in Hc.
  rewrite (dropWhile_snoc _ _ Hc), rev_app_distr. simpl. by rewrite Hc.
Qed.

Lemma collapseFrom_snoc b l c :
  JsString.isWhiteSpace c = false ->
  JsString.collapseFrom b (l ++ [c]) = JsString.collapseFrom b l ++ [c].
Proof.
  intros Hc. revert b. induction l as [|x l IH]; intros b; simpl; [by rewrite Hc|].
  destruct (JsString.isWhiteSpace x); [destruct b|]; by rewrite IH.
Qed.

Lemma headOk_collapseFrom l :
  headOk l = true -> headOk (JsString.collapseFrom false l) = true.
Proof.
  destruct l as [|c l]; simpl; [done|]. intros Hc. apply negb_true_iff in Hc.
  rewrite Hc. simpl. by rewrite Hc.
Qed.

Lemma lastOk_collapseFrom b l :
  headOk (rev l) = true -> headOk (rev (JsString.collapseFrom b l)) = true.
Proof.
  destruct (rev l) as [|c m] eqn:E; intros Hc.
  - apply (f_equal (@rev ascii)) in E. rewrite rev_involutive in E. by subst l.
  - apply (f_equal (@rev ascii)) in E. rewrite rev_involutive in E. simpl in E. subst l.
    simpl in Hc. apply negb_true_iff in Hc.
    rewrite (collapseFrom_snoc _ _ _ Hc), rev_app_distr. simpl. by rewrite Hc.
Qed.

Lemma space_isWhiteSpace : JsString.isWhiteSpace " " = true.
Proof. reflexivity. Qed.

Lemma collapsedFrom_collapseFrom b l : collapsedFrom b (JsString.collapseFrom b l) = true.
Proof.
  revert b. induction l as [|c l IH]; intros b; simpl; [done|].
  destruct (JsString.isWhiteSpace c) eqn:E.
  - destruct b; [apply IH|]. simpl. apply IH.
  - simpl. rewrite E. apply IH.
Qed.

Lemma collapseFrom_collapsed b l :
  collapsedFrom b l = true -> JsString.collapseFrom b l = l.
Proof.
  revert b. induction l as [|c l IH]; intros b; simpl; [done|].
  destruct (JsString.isWhiteSpace c) eqn:E.
  - intros H. apply andb_true_iff in H as [H H3]. apply andb_true_iff in H as [H1 H2].
    apply Ascii.eqb_eq in H1. apply negb_true_iff in H2. subst. by rewrite IH.
  - intros H. by rewrite IH.
Qed.

Lemma trimmed_chars s :
  let l := JsString.chars (JsString.trim s) in headOk l = true /\ headOk (rev l) = true.
Proof.
  cbv zeta. unfold JsString.trim. rewrite chars_str. split.
  - apply headOk_dropWhileEnd, headOk_dropWhile.
  - unfold JsString.dropWhileEnd. rewrite rev_involutive. apply headOk_dropWhile.
Qed.

Lemma trim_normal l :
  headOk l = true -> headOk (rev l) = true -> JsString.trim (JsString.str l) = JsString.str l.
Proof.
  intros H1 H2. unfold JsString.trim, JsString.dropWhileEnd.
  rewrite chars_str, (dropWhile_headOk _ H1), (dropWhile_headOk _ H2).
  by rewrite rev_involutive.
Qed.

Lemma normalTag_fixed s : normalTag s = true -> normalizeTag s = s.
Proof.
  unfold normalTag. intros H.
  apply andb_true_iff in H as [H H3]. apply andb_true_iff in H as [H1 H2].
  unfold normalizeTag, JsString.collapseWhiteSpace.
  rewrite <- (str_chars s) at 1. rewrite (trim_normal _ H1 H2), chars_str.
  rewrite (collapseFrom_collapsed _ _ H3). apply str_chars.
Qed.

Lemma normalTag_normalizeTag s : normalTag (normalizeTag s) = true.
Proof.
  unfold normalTag, normalizeTag, JsString.collapseWhiteSpace.
  rewrite chars_str. destruct (trimmed_chars s) as [H1 H2].
  rewrite (headOk_collapseFrom _ H1), (lastOk_collapseFrom _ _ H2).
  by rewrite collapsedFrom_collapseFrom.
Qed.

(** X3: [#normalizeTag] gives a tag in normal form (no white space at
    either end, inside only single spaces), and a tag in normal form is
    left as it is; so normalising twice is normalising once. *)
Theorem normalizeTag_idempotent (t : string) :
  normalTag (normalizeTag t) = true
  /\ normalizeTag (normalizeTag t) = normalizeTag t.
Proof.
  split; [apply normalTag_normalizeTag | apply normalTag_fixed, normalTag_normalizeTag].
Qed.

(* ===================================================================== *)
(** * Sequences of tag requests *)
(* ===================================================================== *)

Lemma keys_set_grows {V} (o : list (string * V)) k v :
  exists more, Dict.keys (Dict.set o k v) = Dict.keys o ++ more.
Proof.
  destruct (Dict.get o k) as [x|] eqn:G.
  - exists []. rewrite app_nil_r. apply keys_set_present. by exists x.
  - exists [k]. rewrite (set_absent _ _ _ G). unfold Dict.keys. by rewrite map_app.
Qed.

Lemma mutate_grows r p :
  (exists more, allTags (PhotoSorter.mutate r p) = allTags p ++ more)
  /\ (exists more, Dict.keys (images (PhotoSorter.mutate r p)) = Dict.keys (images p) ++ more).
Proof.
  destruct r as [f t|f t]; simpl.
  - split.
    + destruct (String.eqb_spec (normalizeTag t) "") as [He|Hne].
      * rewrite (addTag_empty _ _ _ He). exists []. by rewrite app_nil_r.
      * rewrite (allTags_addTag _ _ _ Hne). destruct (containsTag _ _).
        -- exists []. by rewrite app_nil_r.
        -- by eexists.
    + unfold addTag. destruct (negb _); [exists []; by rewrite app_nil_r|]. cbv zeta.
      rewrite images_upsertGlobalTag.
      destruct (Dict.get (images p) (Path.basename f)) as [e|] eqn:G; cbn [images withImages].
      * rewrite G. destruct (containsTag _ _); cbn [images withImages].
        -- exists []. by rewrite app_nil_r.
        -- apply keys_set_grows.
      * rewrite get_set_same. cbn [tags containsTag existsb images withImages].
        destruct (keys_set_grows (images p) (Path.basename f) (mkEntry [])) as [m1 H1].
        destruct (keys_set_grows (Dict.set (images p) (Path.basename f) (mkEntry []))
                    (Path.basename f) (mkEntry ([] ++ [normalizeTag t]))) as [m2 H2].
        exists (m1 ++ m2). by rewrite H2, H1, app_assoc.
  - rewrite allTags_removeTag. split; [exists []; by rewrite app_nil_r|].
    unfold removeTag. destruct (negb _); [exists []; by rewrite app_nil_r|].
    destruct (Dict.get (images p) (Path.basename f)); cbn [images withImages].
    + apply keys_set_grows.
    + exists []. by rewrite app_nil_r.
Qed.

(** X4: whatever tag requests are served, in whatever order, the global
    tag list and the list of known file names only grow at their end: a
    tag removed from every photo stays in the global list, and no photo
    entry is ever dropped. *)
Theorem tag_requests_only_append (p : Project) (rs : list PhotoSorter.TagRequest) :
  (exists more, allTags (mutateAll p rs) = allTags p ++ more)
  /\ (exists more, Dict.keys (images (mutateAll p rs)) = Dict.keys (images p) ++ more).
Proof.
  unfold mutateAll. revert p. induction rs as [|r rs IH]; intros p; simpl.
  - split; exists []; by rewrite app_nil_r.
  - destruct (IH (PhotoSorter.mutate r p)) as [[a Ha] [b Hb]].
    destruct (mutate_grows r p) as [[a' Ha'] [b' Hb']].
    split.
    + exists (a' ++ a). by rewrite Ha, Ha', app_assoc.
    + exists (b' ++ b). by rewrite Hb, Hb', app_assoc.
Qed.

(* ===================================================================== *)
(** * Loading twice *)
(* ===================================================================== *)




(* ===================================================================== *)
(** * What a duplicate pair tells *)
(* ===================================================================== *)

Section DuplicatePairs.

Import StatsManager.
Variable env : HashEnv.





End DuplicatePairs.


(* ===================================================================== *)
(** * The export helpers *)
(* ===================================================================== *)

Section ExportHelpers.
Import Js Fs PhotoSorter.

Lemma uniquePathLoop_least (fs : FS) dir base ext : forall fuel i,
  exists k, i <= k
    /\ uniquePathLoop fs dir base ext fuel i = candidate dir base ext k
    /\ forall j, i <= j < k -> existsSync fs (candidate dir base ext j) = true.
Proof.
  induction fuel as [|fuel IH]; intros i; cbn [uniquePathLoop].
  - exists i. split; [lia|]. split; [done|]. intros j Hj. lia.
  - destruct (existsSync fs (candidate dir base ext i)) eqn:E.
    + destruct (IH (S i)) as (k & Hk & Heq & Hall).
      exists k. split; [lia|]. split; [done|]. intros j Hj.
      destruct (decide (j = i)) as [->|Hne]; [done | apply Hall; lia].
    + exists i. split; [lia|]. split; [done|]. intros j Hj. lia.
Qed.

(** X7: [uniquePath] returns a path that does not exist: the target
    itself when it is free, and otherwise the target's name with the
    least counter, from 1 on, that makes a free name in the same
    directory. *)
Theorem uniquePath_least_free (fs : FS) (targetPath : string) :
  let dir := Path.dirname targetPath in
  let ext := Path.extname targetPath in
  let base := Path.basenameExt targetPath ext in
  existsSync fs (uniquePath fs targetPath) = false
  /\ (existsSync fs targetPath = false -> uniquePath fs targetPath = targetPath)
  /\ (existsSync fs targetPath = true ->
      exists k, 1 <= k
        /\ uniquePath fs targetPath = candidate dir base ext k
        /\ forall j, 1 <= j < k -> existsSync fs (candidate dir base ext j) = true).
Proof.
  intros dir ext base. split; [apply uniquePath_fresh|].
  unfold uniquePath. split; intros ->; cbn [negb]; [done|].
  apply uniquePathLoop_least.
Qed.





End ExportHelpers.

(* ===================================================================== *)
(** * Folder names *)
(* ===================================================================== *)

Section FolderNames.
Import PhotoSorter.

Abbreviation legal := (Forall (fun c => isIllegal c = false)).

Lemma length_str l : String.length (JsString.str l) = List.length l.
Proof. induction l as [|c l IH]; simpl; [done | by rewrite IH]. Qed.

Lemma length_chars s : List.length (JsString.chars s) = String.length s.
Proof. by rewrite <- (str_chars s) at 2; rewrite length_str. Qed.

Lemma legal_dropWhile f l : legal l -> legal (JsString.dropWhile f l).
Proof.
  induction 1 as [|c l Hc Hl IH]; simpl; [constructor|].
  destruct (f c); [exact IH | by constructor].
Qed.

Lemma legal_dropWhileEnd f l : legal l -> legal (JsString.dropWhileEnd f l).
Proof.
  intros H. unfold JsString.dropWhileEnd.
  apply Forall_rev, legal_dropWhile, Forall_rev, H.
Qed.

Lemma legal_trim s : legal (JsString.chars s) -> legal (JsString.chars (JsString.trim s)).
Proof.
  intros H. unfold JsString.trim. rewrite chars_str.
  by apply legal_dropWhileEnd, legal_dropWhile.
Qed.

Lemma legal_collapseFrom b l : legal l -> legal (JsString.collapseFrom b l).
Proof.
  intros H. revert b. induction H as [|c l Hc Hl IH]; intros b; simpl; [constructor|].
  destruct (JsString.isWhiteSpace c); [destruct b|]; try apply IH.
  - constructor; [reflexivity | apply IH].
  - constructor; [exact Hc | apply IH].
Qed.

Lemma legal_replaced l : legal (map (fun c => if isIllegal c then "_"%char else c) l).
Proof.
  induction l as [|c l IH]; simpl; constructor; [|exact IH].
  destruct (isIllegal c) eqn:E; [reflexivity | exact E].
Qed.

Lemma dropWhile_head {A} (f : A -> bool) l :
  match JsString.dropWhile f l with [] => True | x :: _ => f x = false end.
Proof.
  induction l as [|c l IH]; simpl; [done|]. destruct (f c) eqn:E; [exact IH | exact E].
Qed.

(** What is left after the trailing dots and spaces are cut does not end
    with a dot. *)
Lemma stripped_not_dots l pre :
  JsString.dropWhileEnd isSpaceOrDot l <> pre ++ ["."%char].
Proof.
  unfold JsString.dropWhileEnd. intros H.
  apply (f_equal (@rev ascii)) in H. rewrite rev_involutive, rev_app_distr in H.
  pose proof (dropWhile_head isSpaceOrDot (rev l)) as Hh. rewrite H in Hh.
  simpl in Hh. discriminate.
Qed.

Lemma reserved_short s :
  existsb (String.eqb s) reserved = true -> String.length s <= 4.
Proof.
  intros H. apply existsb_exists in H as (x & Hin & Heq).
  apply String.eqb_eq in Heq. subst x.
  simpl in Hin. repeat (destruct Hin as [<-|Hin]; [simpl; lia|]). done.
Qed.

Lemma length_toUpperCase s : String.length (JsString.toUpperCase s) = String.length s.
Proof. unfold JsString.toUpperCase. by rewrite length_str, length_map, length_chars. Qed.

Lemma underscore_not_reserved s :
  existsb (String.eqb (JsString.toUpperCase ("_" +:+ s))) reserved = false.
Proof. reflexivity. Qed.

(** X10: whatever the tag, [safeTagToFolder] gives a name that is safe
    below the export root: it is not empty and has at most 100
    characters, holds no separator and no other character from the list
    of the first [replace], is neither [.] nor [..], and is no reserved
    device name, in any case. *)
Theorem safeTagToFolder_safe (tag : string) : safeFolderName (safeTagToFolder tag).
Proof.
  unfold safeTagToFolder.
  set (s2 := JsString.str (map _ (JsString.chars (JsString.trim tag)))).
  set (l4 := JsString.dropWhileEnd isSpaceOrDot
               (JsString.chars (JsString.trim (JsString.collapseWhiteSpace s2)))).
  assert (Hl4 : legal l4).
  { apply legal_dropWhileEnd, legal_trim. unfold JsString.collapseWhiteSpace.
    rewrite chars_str. apply legal_collapseFrom. unfold s2. rewrite chars_str.
    apply legal_replaced. }
  assert (Hdots : forall pre, l4 <> pre ++ ["."%char]) by (intros; apply stripped_not_dots).
  cbv zeta.
  set (s5 := if existsb _ reserved then "_" +:+ JsString.str l4 else JsString.str l4).
  assert (H5 : legal (JsString.chars s5)
               /\ existsb (String.eqb (JsString.toUpperCase s5)) reserved = false
               /\ forall pre, JsString.chars s5 <> pre ++ ["."%char]).
  { unfold s5.
    destruct (existsb (String.eqb (JsString.toUpperCase (JsString.str l4))) reserved) eqn:E.
    - split; [|split].
      + rewrite chars_app, chars_str. apply Forall_app. split; [|exact Hl4].
        by constructor.
      + apply underscore_not_reserved.
      + intros pre H. rewrite chars_app, chars_str in H.
        destruct pre as [|c pre]; simpl in H.
        * injection H as _ H. by destruct l4.
        * injection H as _ H. by apply (Hdots pre).
    - rewrite chars_str. done. }
  clearbody s5. destruct H5 as (Hleg & Hres & Hnd).
  set (s6 := if Nat.eqb (String.length s5) 0 then "tag" else s5).
  assert (H6 : 1 <= String.length s6
               /\ legal (JsString.chars s6)
               /\ existsb (String.eqb (JsString.toUpperCase s6)) reserved = false
               /\ forall pre, JsString.chars s6 <> pre ++ ["."%char]).
  { unfold s6. destruct (Nat.eqb_spec (String.length s5) 0) as [E|E].
    - split; [simpl; lia|]. split; [by repeat constructor|]. split; [reflexivity|].
      intros pre H. destruct pre as [|? [|? [|? pre]]]; try discriminate.
      simpl in H. destruct pre; discriminate.
    - split; [lia | done]. }
  clearbody s6. destruct H6 as (Hlen & Hleg6 & Hres6 & Hnd6).
  destruct (Nat.ltb_spec 100 (String.length s6)) as [Hlong|Hshort].
  - assert (Hl : String.length (JsString.str (take 100 (JsString.chars s6))) = 100).
    { rewrite length_str, length_take, length_chars. lia. }
    split; [lia|]. split; [|split; [|split]].
    + rewrite chars_str. by apply Forall_take.
    + intros H. rewrite H in Hl. discriminate.
    + intros H. rewrite H in Hl. discriminate.
    + apply not_true_is_false. intros E.
      apply reserved_short in E. rewrite length_toUpperCase in E. lia.
  - split; [lia|]. split; [done|]. split; [|split; [|done]].
    + intros ->. by apply (Hnd6 []).
    + intros ->. by apply (Hnd6 ["."%char]).
Qed.

End FolderNames.

(* ===================================================================== *)
(** * The shape of the export plan *)
(* ===================================================================== *)

Section PlanShape.
Import Js Fs PhotoSorter.




Lemma planLinks_shape h exportRoot fileName destPrimary secondary :
  forall acc fs ls fs',
    planLinks h exportRoot fileName destPrimary secondary acc fs = (Ok ls, fs') ->
    exists new, ls = acc ++ new
      /\ List.length new = List.length secondary
      /\ forall l, In l new -> src l = destPrimary.
Proof.
  induction secondary as [|t rest IH]; intros acc fs ls fs' H; cbn [planLinks] in H.
  - injection H as <- _. exists []. rewrite app_nil_r. done.
  - apply bind_ok in H as ([] & fs1 & _ & H).
    apply IH in H as (new & -> & Hlen & Hsrc).
    eexists (_ :: new). rewrite <- app_assoc. split; [reflexivity|].
    split; [simpl; lia|]. intros l [<-|Hl]; [done | by apply Hsrc].
Qed.





End PlanShape.

(* ===================================================================== *)
(** * The order does not depend on the scan *)
(* ===================================================================== *)

Section ScanOrder.
Import PhotoSorter.

Lemma sorted_perm_unique {A} (le : A -> A -> Prop) (l1 : list A) : forall l2,
  StronglySorted le l1 -> StronglySorted le l2 -> Permutation l1 l2 ->
  (forall a b, In a l1 -> In b l1 -> le a b -> le b a -> a = b) ->
  l1 = l2.
Proof.
  induction l1 as [|a l1 IH]; intros l2 Hs1 Hs2 Hp Hanti.
  - by apply Permutation_nil in Hp.
  - destruct l2 as [|b l2]; [by apply Permutation_sym, Permutation_nil in Hp|].
    apply StronglySorted_inv in Hs1 as [Hs1 Ha].
    apply StronglySorted_inv in Hs2 as [Hs2 Hb].
    assert (Hab : a = b).
    { assert (Hin1 : In a (b :: l2)) by (eapply Permutation_in; [exact Hp | by left]).
      assert (Hin2 : In b (a :: l1))
        by (eapply Permutation_in; [apply Permutation_sym, Hp | by left]).
      destruct Hin1 as [->|Hin1]; [done|]. destruct Hin2 as [->|Hin2]; [done|].
      rewrite List.Forall_forall in Ha, Hb.
      apply Hanti; [by left | by right | by apply Ha | by apply Hb]. }
    subst b. f_equal. apply IH; [done | done | by apply Permutation_cons_inv in Hp |].
    intros x y Hx Hy. apply Hanti; by right.
Qed.

(** X12: the order of the photos does not depend on the order in which
    the folder was read.  When no two photos of the folder tie on capture
    time, modification time and name together, [orderPhotos] gives the
    same list for every enumeration of the same files. *)
Theorem orderPhotos_scan_order_irrelevant (env : MetaEnv) (scan1 scan2 : list string) :
  (forall s t, (localeCompare env s t <= 0)%Z \/ (localeCompare env t s <= 0)%Z) ->
  (forall s t u, (localeCompare env s t <= 0)%Z -> (localeCompare env t u <= 0)%Z ->
                 (localeCompare env s u <= 0)%Z) ->
  (forall f f', In f scan1 -> In f' scan1 ->
     (comparePhotos env (readMeta env f) (readMeta env f') <= 0)%Z ->
     (comparePhotos env (readMeta env f') (readMeta env f) <= 0)%Z -> f = f') ->
  Permutation scan1 scan2 ->
  orderPhotos env scan1 = orderPhotos env scan2.
Proof.
  intros Htotal Htrans Hties Hperm. unfold orderPhotos. f_equal.
  assert (Hsorted : forall l,
            StronglySorted (fun a b => (comparePhotos env a b <= 0)%Z)
                           (sortBy (comparePhotos env) (map (readMeta env) l))).
  { intros l. apply sortBy_sorted.
    - intros a b. rewrite !comparePhotos_precedes. by apply precedes_total.
    - intros a b c. rewrite !comparePhotos_precedes. by apply precedes_trans. }
  apply (sorted_perm_unique _ _ _ (Hsorted scan1) (Hsorted scan2)).
  - rewrite <- !sortBy_perm. by apply Permutation_map.
  - intros a b Ha Hb Hab Hba.
    apply (Permutation_in _ (Permutation_sym (sortBy_perm _ _))) in Ha, Hb.
    apply in_map_iff in Ha as (f & <- & Hf). apply in_map_iff in Hb as (f' & <- & Hf').
    f_equal. by apply Hties.
Qed.

(** X12, witness: the three photos of the ordering scenario, read in two
    orders. *)
Lemma orderPhotos_scan_order_irrelevant_witness :
  orderPhotos scenarioMeta ["/photos/a.jpg"; "/photos/b.jpg"; "/photos/c.jpg"]
  = orderPhotos scenarioMeta ["/photos/c.jpg"; "/photos/a.jpg"; "/photos/b.jpg"].
Proof.
  apply (orderPhotos_scan_order_irrelevant scenarioMeta).
  - intros s t. apply lexCompare_total.
  - intros s t u. apply lexCompare_trans.
  - intros f f' Hf Hf'. simpl in Hf, Hf'.
    destruct Hf as [<-|[<-|[<-|[]]]], Hf' as [<-|[<-|[<-|[]]]];
      intros H1 H2; try reflexivity; exfalso;
      first [apply H1; vm_compute; reflexivity | apply H2; vm_compute; reflexivity].
  - change ["/photos/c.jpg"; "/photos/a.jpg"; "/photos/b.jpg"]
      with (["/photos/c.jpg"] ++ ["/photos/a.jpg"; "/photos/b.jpg"]).
    change ["/photos/a.jpg"; "/photos/b.jpg"; "/photos/c.jpg"]
      with (["/photos/a.jpg"; "/photos/b.jpg"] ++ ["/photos/c.jpg"]).
    apply Permutation_app_comm.
Defined.

End ScanOrder.

(* ===================================================================== *)
(** * Browsing *)
(* ===================================================================== *)

Section BrowsingLemmas.
Import Js Fs Browsing.

Lemma withIndex_same s : withIndex s (currentPhotoIndex s) = s.
Proof. by destruct s. Qed.

Lemma rem_next i n : (0 <= i < n)%Z ->
  (0 <= Z.rem (i + 1) n < n)%Z /\ Z.rem (Z.rem (i + 1) n - 1 + n) n = i.
Proof.
  intros H. destruct (decide (i + 1 = n)%Z) as [E|E].
  - rewrite E, Z.rem_same by lia.
    split; [lia|]. rewrite Z.rem_small by lia. lia.
  - rewrite (Z.rem_small (i + 1)) by lia. split; [lia|].
    replace (i + 1 - 1 + n)%Z with (i + 1 * n)%Z by lia.
    rewrite Z.rem_mod_nonneg by lia. rewrite Z_mod_plus_full. apply Z.mod_small. lia.
Qed.

Lemma rem_prev i n : (0 <= i < n)%Z ->
  (0 <= Z.rem (i - 1 + n) n < n)%Z /\ Z.rem (Z.rem (i - 1 + n) n + 1) n = i.
Proof.
  intros H. destruct (decide (i = 0)%Z) as [E|E].
  - subst i. rewrite (Z.rem_small (0 - 1 + n)) by lia. split; [lia|].
    replace (0 - 1 + n + 1)%Z with n by lia. apply Z.rem_same. lia.
  - replace (i - 1 + n)%Z with ((i - 1) + 1 * n)%Z by lia.
    rewrite Z.rem_mod_nonneg by lia. rewrite Z_mod_plus_full.
    rewrite Z.mod_small by lia. split; [lia|]. rewrite Z.rem_small by lia. lia.
Qed.

(** X13: browsing stays on the list and goes round it.  With the index
    on a photo, ['get-next-photo'] and ['get-prev-photo'] leave it on a
    photo, change nothing but the index, and undo each other: the photo
    shown after one step forward and one step back, or one back and one
    forward, is the photo shown before. *)
Theorem next_and_prev_are_inverse (s : Session) :
  onPhoto s ->
  onPhoto (snd (getNextPhoto s)) /\ onPhoto (snd (getPrevPhoto s))
  /\ getPrevPhoto (snd (getNextPhoto s)) = (Some (view s), s)
  /\ getNextPhoto (snd (getPrevPhoto s)) = (Some (view s), s).
Proof.
  unfold onPhoto, getNextPhoto, getPrevPhoto. intros H.
  destruct (Nat.eqb_spec (List.length (photos s)) 0) as [E|E]; [lia|].
  cbn [snd withIndex photos currentPhotoIndex].
  destruct (Nat.eqb_spec (List.length (photos s)) 0) as [E'|_]; [lia|].
  destruct (rem_next _ _ H) as [Hn Hnp]. destruct (rem_prev _ _ H) as [Hp Hpn].
  split; [exact Hn|]. split; [exact Hp|].
  unfold withIndex. cbn [photos sourceFolder categorizationHistory statsManager].
  rewrite Hnp, Hpn. fold (withIndex s (currentPhotoIndex s)).
  rewrite withIndex_same. done.
Qed.

End BrowsingLemmas.

(** X13, witness: the session on the first of two photos. *)
Lemma next_and_prev_are_inverse_witness :
  Browsing.getPrevPhoto (snd (Browsing.getNextPhoto browsingSession))
  = (Some (Browsing.view browsingSession), browsingSession).
Proof.
  refine (proj1 (proj2 (proj2 (next_and_prev_are_inverse browsingSession _)))).
  unfold onPhoto. simpl. lia.
Defined.

(* ===================================================================== *)
(** * Sorting into categories *)
(* ===================================================================== *)

Section Sorting.
Import Js Fs StatsManager StatsCounters Browsing.

Lemma getUniqueFilePath_fresh (fs : FS) targetPath :
  existsSync fs (getUniqueFilePath fs targetPath) = false.
Proof. exact (uniquePath_fresh fs targetPath). Qed.

Lemma existsSync_false (fs : FS) p : existsSync fs p = false -> fs !! p = None.
Proof. unfold existsSync. by destruct (fs !! p). Qed.

(** X14: ['categorize-photo'] copies and never overwrites.  When it
    answers [null], neither the variables nor the file system have
    changed.  When it answers, the category is one of the three, the
    photo the index was on is still where it was, its bytes have been
    copied to a path that did not exist, the history records the
    category, and the only other change of the file system is the stats
    file written by [saveStats]. *)
Theorem categorizePhoto_copies_or_changes_nothing
    (h : Host) (stringify : Stats -> string) (now category : string)
    (s : Session) (fs : FS) :
  match categorizePhoto h stringify now category s fs with
  | (None, s', fs') => s' = s /\ fs' = fs
  | (Some r, s', fs') =>
      exists content target,
        hasCategory category = true
        /\ categorizedAs r = category
        /\ photoAt (photos s) (currentPhotoIndex s) = Some (categorizedPhoto r)
        /\ fs !! categorizedPhoto r = Some (File content)
        /\ fs !! target = None
        /\ categorizationHistory s'
           = <[categorizedPhoto r := category]> (categorizationHistory s)
        /\ photos s' = photos s
        /\ fs' = match statsManager s' with
                 | Some m' => snd (saveStats h stringify m' (<[target := File content]> fs))
                 | None => <[target := File content]> fs
                 end
  end.
Proof.
  unfold categorizePhoto.
  destruct (Nat.eqb (List.length (photos s)) 0); [done|].
  destruct (hasCategory category) eqn:Hcat; cbn [negb]; [|done].
  destruct (photoAt (photos s) (currentPhotoIndex s)) as [currentPhoto|] eqn:Hat; [|done].
  set (target := getUniqueFilePath fs _).
  pose proof (getUniqueFilePath_fresh fs
                (Path.join (targetFolder s category) (Path.basename currentPhoto))) as Hfresh.
  fold target in Hfresh. apply existsSync_false in Hfresh.
  unfold copyFileSync.
  destruct (fs !! currentPhoto) as [[content|]|] eqn:Hsrc; [|done|done].
  destruct (negb (existsSync fs (Path.dirname target))); [done|].
  destruct (readOnly h target); [done|].
  destruct (statsManager s) as [m|] eqn:Hm.
  - cbn [updateStats]. exists content, target. cbn. done.
  - exists content, target. cbn. done.
Qed.

End Sorting.

(* ===================================================================== *)
(** * Paths below a folder *)
(* ===================================================================== *)

Section PathLemmas.

Lemma lastSegment_no_sep l : existsb Path.isSep (Path.lastSegment l) = false.
Proof.
  induction l as [|c l IH]; [done|]. cbn [Path.lastSegment].
  destruct (existsb Path.isSep (c :: l)) eqn:E; [exact IH | exact E].
Qed.

Lemma basename_no_sep p : existsb Path.isSep (JsString.chars (Path.basename p)) = false.
Proof. unfold Path.basename, Path.basenameL. rewrite chars_str. apply lastSegment_no_sep. Qed.

Lemma beforeLastSep_no_sep n : existsb Path.isSep n = false -> Path.beforeLastSep n = None.
Proof.
  induction n as [|c n IH]; [done|]. cbn [existsb Path.beforeLastSep].
  intros [Hc Hn]%orb_false_elim. by rewrite (IH Hn), Hc.
Qed.

Lemma beforeLastSep_child d n :
  existsb Path.isSep n = false -> Path.beforeLastSep (d ++ Path.sep :: n) = Some d.
Proof.
  intros Hn. induction d as [|c d IH]; cbn [app Path.beforeLastSep].
  - by rewrite (beforeLastSep_no_sep _ Hn).
  - by rewrite IH.
Qed.

Lemma dropWhileEnd_keeps {A} (f : A -> bool) l x :
  f x = false -> JsString.dropWhileEnd f (l ++ [x]) = l ++ [x].
Proof.
  intros Hx. unfold JsString.dropWhileEnd. rewrite rev_app_distr. cbn [rev app JsString.dropWhile].
  rewrite Hx. cbn [rev]. by rewrite rev_involutive.
Qed.

(** The directory of [d/n] is [d], for a name [n] without separator. *)
Lemma dirname_child d n :
  d <> "" -> n <> "" -> existsb Path.isSep (JsString.chars n) = false ->
  Path.dirname (d +:+ "/" +:+ n) = d.
Proof.
  intros Hd Hn Hsep. unfold Path.dirname. rewrite !chars_app.
  change (JsString.chars "/") with [Path.sep]. cbn [app].
  destruct (JsString.chars n) as [|c0 n0] eqn:En using rev_ind.
  { apply (f_equal JsString.str) in En. rewrite str_chars in En. done. }
  clear IHn0.
  assert (Hx : Path.isSep c0 = false).
  { rewrite existsb_app in Hsep. apply orb_false_elim in Hsep as [_ H]. simpl in H.
    by destruct (Path.isSep c0). }
  change (JsString.chars d ++ Path.sep :: n0 ++ [c0])
    with (JsString.chars d ++ (Path.sep :: n0) ++ [c0]).
  rewrite app_assoc, (dropWhileEnd_keeps _ _ _ Hx), <- app_assoc. cbn [app].
  rewrite (beforeLastSep_child _ _ Hsep).
  destruct (JsString.chars d) as [|c d'] eqn:Ed.
  - apply (f_equal JsString.str) in Ed. rewrite str_chars in Ed. done.
  - rewrite <- Ed. apply str_chars.
Qed.

End PathLemmas.

(* ===================================================================== *)
(** * Sorting into a folder that is missing, and the counters *)
(* ===================================================================== *)

Section MissingFolder.
Import Js Fs StatsManager StatsCounters Browsing.

Lemma append_assoc (a b c : string) : (a +:+ b) +:+ c = a +:+ b +:+ c.
Proof.
  induction a as [|x a IH]; [done|].
  change (String x ((a +:+ b) +:+ c) = String x (a +:+ b +:+ c)). by f_equal.
Qed.

Lemma hasCategory_cases c :
  hasCategory c = true -> c = "yes" \/ c = "no" \/ c = "maybe".
Proof.
  unfold hasCategory. intros H.
  apply orb_true_iff in H as [H|H]; [apply orb_true_iff in H as [H|H]|];
    apply String.eqb_eq in H; tauto.
Qed.

Lemma join_category a c :
  hasCategory c = true ->
  Path.join a c <> "" /\ Path.endsWithSep (Path.join a c) = false.
Proof.
  intros Hc.
  assert (Hx : exists x, Path.join a c = x +:+ c).
  { unfold Path.join. destruct (String.eqb a ""); [by exists ""|].
    destruct (String.eqb_spec c "") as [->|_]; [done|].
    destruct (Path.endsWithSep a); [by exists a | exists (a +:+ "/"); by rewrite append_assoc]. }
  destruct Hx as [x ->]. unfold Path.endsWithSep. rewrite chars_app, rev_app_distr.
  destruct (hasCategory_cases _ Hc) as [-> | [-> | ->]]; (split; [|reflexivity]);
    intros H; apply (f_equal JsString.chars) in H; rewrite chars_app in H;
    by destruct (JsString.chars x).
Qed.

(** X15: ['categorize-photo'] does not make the folder it copies to.
    When the folder [sorted/<category>] of the source folder does not
    exist, the handler answers [null] and changes nothing, whatever the
    category and the photo. *)
Theorem categorizePhoto_needs_folder
    (h : Host) (stringify : Stats -> string) (now category photo : string)
    (s : Session) (fs : FS) :
  photoAt (photos s) (currentPhotoIndex s) = Some photo ->
  Path.basename photo <> "" ->
  existsSync fs (targetFolder s category) = false ->
  existsSync fs (Path.join (targetFolder s category) (Path.basename photo)) = false ->
  categorizePhoto h stringify now category s fs = (None, s, fs).
Proof.
  intros Hat Hname Hfolder Hfree. unfold categorizePhoto.
  destruct (Nat.eqb (List.length (photos s)) 0); [done|].
  destruct (hasCategory category) eqn:Hcat; cbn [negb]; [|done].
  rewrite Hat. unfold getUniqueFilePath. rewrite Hfree. cbn [negb].
  destruct (join_category (Path.join (sourceFolder s) "sorted") category Hcat) as [Hne Hsep].
  fold (targetFolder s category) in Hne, Hsep.
  assert (Hdir : Path.dirname (Path.join (targetFolder s category) (Path.basename photo))
                 = targetFolder s category).
  { unfold Path.join at 1.
    destruct (String.eqb_spec (targetFolder s category) "") as [E|_]; [done|].
    destruct (String.eqb_spec (Path.basename photo) "") as [E|_]; [done|].
    rewrite Hsep. apply dirname_child; [done | done | apply basename_no_sep]. }
  unfold copyFileSync. rewrite Hdir, Hfolder.
  by destruct (fs !! photo) as [[?|]|].
Qed.

(** X15, witness: the folder of the scenario, where nothing has made
    [sorted/yes]. *)
Lemma categorizePhoto_needs_folder_witness :
  categorizePhoto scenarioHost showCounters "2024-01-01T00:00:02.000Z" "yes"
    browsingSession scenarioFs
  = (None, browsingSession, scenarioFs).
Proof.
  apply (categorizePhoto_needs_folder scenarioHost showCounters _ "yes" "/photos/img001.jpg").
  - reflexivity.
  - vm_compute. discriminate.
  - vm_compute. reflexivity.
  - vm_compute. reflexivity.
Defined.

(* --------------------------------------------------------------------- *)
(** ** The counters and the history *)

Lemma tally_insert name k v (m : gmap string string) :
  tally name (<[k := v]> m) + (if decide (m !! k = Some name) then 1 else 0)
  = tally name m + (if decide (v = name) then 1 else 0).
Proof.
  unfold tally.
  assert (Hk : filter (fun kv : string * string => snd kv = name) m !! k
               = if decide (m !! k = Some name) then Some name else None).
  { destruct (decide (m !! k = Some name)) as [E|E].
    - apply map_lookup_filter_Some. done.
    - apply map_lookup_filter_None. destruct (m !! k) as [x|] eqn:Ex; [|by left].
      right. intros y [= <-] Hy. simpl in Hy. congruence. }
  destruct (decide (v = name)) as [->|Hv].
  - rewrite map_filter_insert_True by done. rewrite map_size_insert, Hk.
    destruct (decide (m !! k = Some name)); simpl; lia.
  - rewrite map_filter_insert_False by done. rewrite map_filter_delete.
    destruct (decide (m !! k = Some name)) as [E|E].
    + rewrite map_size_delete_Some by (rewrite Hk; eauto).
      assert (size (filter (fun kv : string * string => snd kv = name) m) <> 0).
      { intros H0. apply map_size_empty_inv in H0. rewrite H0 in Hk.
        rewrite lookup_empty in Hk. done. }
      lia.
    + rewrite map_size_delete_None by (by rewrite Hk). lia.
Qed.

Lemma tally_positive name k (m : gmap string string) :
  m !! k = Some name -> 1 <= tally name m.
Proof.
  intros H. pose proof (tally_insert name k name m) as Hi.
  rewrite insert_id in Hi by done.
  unfold tally in *. destruct (decide (m !! k = Some name)); [|done].
  assert (size (filter (fun kv : string * string => snd kv = name) m) <> 0); [|lia].
  intros H0. apply map_size_empty_inv in H0.
  assert (Hk : filter (fun kv : string * string => snd kv = name) m !! k = Some name)
    by (by apply map_lookup_filter_Some).
  rewrite H0, lookup_empty in Hk. done.
Qed.

(** The counter of [name] after [updated], for a name that is a
    category. *)
Lemma getCategory_updated now new prev path m name :
  hasCategory name = true -> hasCategory new = true ->
  getCategory (categorized (stats (updated now new prev path m))) name
  = (if decide (prev = Some name)
     then Nat.max 0 (getCategory (categorized (stats m)) name - 1)
     else getCategory (categorized (stats m)) name)
    + (if decide (new = name) then 1 else 0).
Proof.
  intros Hn Hnew. unfold updated. cbn [stats categorized]. rewrite Hnew.
  destruct (hasCategory_cases _ Hn) as [-> | [-> | ->]],
           (hasCategory_cases _ Hnew) as [-> | [-> | ->]];
    destruct prev as [prev|]; cbn;
    try (destruct (JsString.truthy prev && hasCategory prev) eqn:Hp;
         [apply andb_true_iff in Hp as [_ Hp];
          destruct (hasCategory_cases _ Hp) as [-> | [-> | ->]]
         |]);
    repeat case_decide; simplify_eq; cbn; try lia;
    try (exfalso; cbn in Hp; discriminate).
Qed.

End MissingFolder.

Section Counters.
Import Js Fs StatsManager StatsCounters Browsing.

Lemma tally_as_list name (m : gmap string string) :
  List.length (filter (fun kv : string * string => Is_true (String.eqb (snd kv) name))
                      (map_to_list m))
  = tally name m.
Proof.
  unfold tally. induction m as [|k v m Hk Hfirst IH] using map_first_key_ind.
  - by rewrite map_to_list_empty, map_filter_empty, map_size_empty.
  - rewrite map_to_list_insert_first_key by done.
    rewrite filter_cons. cbn [snd].
    assert (Hf : filter (fun kv : string * string => snd kv = name) m !! k = None).
    { apply map_lookup_filter_None. by left. }
    destruct (String.eqb_spec v name) as [->|Hne].
    + rewrite decide_True by done. cbn [List.length].
      rewrite map_filter_insert_True by done.
      rewrite map_size_insert_None by done. by rewrite IH.
    + rewrite decide_False by (by intros []).
      rewrite map_filter_insert_False by done.
      rewrite map_filter_delete, map_size_delete_None by done. exact IH.
Qed.

Lemma countCategory_history name (history : gmap string string) :
  countCategory name (map_to_list history) = tally name history.
Proof.
  unfold countCategory.
  assert (H : list_to_map (M := gmap string string) (reverse (map_to_list history))
              = history).
  { rewrite <- (list_to_map_to_list history) at 2.
    apply list_to_map_proper.
    - rewrite fmap_reverse, reverse_Permutation. apply NoDup_fst_map_to_list.
    - apply reverse_Permutation. }
  rewrite H. apply tally_as_list.
Qed.

(** X16: [initialize] sets the three counters to the tallies of the
    categorisation history it is given: each counts the photos the
    history gives that category. *)
Theorem initialize_counts_history (env : HashEnv) (now : string) (photos : list string)
    (history : gmap string string) :
  countersAgree (categorized (initialize env now photos (map_to_list history))) history.
Proof.
  unfold initialize, countersAgree. cbn [categorized yes no maybe].
  by rewrite !countCategory_history.
Qed.

(** X17: ['categorize-photo'] keeps the counters equal to the tallies of
    the history.  A photo sorted for the first time adds one to its
    category; a photo sorted again moves one from its former category to
    the new one; a failed call changes neither. *)
Theorem categorizePhoto_keeps_counters
    (h : Host) (stringify : Stats -> string) (now category : string)
    (s : Session) (fs : FS) (m : Manager) :
  statsManager s = Some m ->
  countersAgree (categorized (stats m)) (categorizationHistory s) ->
  exists m',
    statsManager (snd (fst (categorizePhoto h stringify now category s fs))) = Some m'
    /\ countersAgree (categorized (stats m'))
         (categorizationHistory (snd (fst (categorizePhoto h stringify now category s fs)))).
Proof.
  intros Hm Hagree. unfold categorizePhoto.
  destruct (Nat.eqb (List.length (photos s)) 0); [by exists m|].
  destruct (hasCategory category) eqn:Hcat; cbn [negb]; [|by exists m].
  destruct (photoAt (photos s) (currentPhotoIndex s)) as [photo|]; [|by exists m].
  destruct (copyFileSync h photo _ fs) as [[[]|e] fs1]; [|by exists m].
  rewrite Hm. cbn [updateStats fst snd statsManager categorizationHistory].
  eexists. split; [reflexivity|].
  set (hist := categorizationHistory s) in *.
  assert (Hone : forall name, hasCategory name = true ->
            getCategory (categorized (stats m)) name = tally name hist ->
            getCategory (categorized (stats (updated now category (hist !! photo) None m)))
                        name
            = tally name (<[photo := category]> hist)).
  { intros name Hname Hold. rewrite (getCategory_updated _ _ _ _ _ _ Hname Hcat), Hold.
    pose proof (tally_insert name photo category hist) as Hi.
    destruct (decide (hist !! photo = Some name)) as [E|E].
    - pose proof (tally_positive _ _ _ E). destruct (decide (category = name)); lia.
    - destruct (decide (category = name)); lia. }
  destruct Hagree as (Hy & Hn & Hmb).
  split; [|split].
  - apply (Hone "yes" eq_refl Hy).
  - apply (Hone "no" eq_refl Hn).
  - apply (Hone "maybe" eq_refl Hmb).
Qed.

(** X17, witness: the first photo of the session sorted as [yes]. *)
Lemma categorizePhoto_keeps_counters_witness :
  exists m',
    statsManager (snd (fst (categorizePhoto scenarioHost showCounters
                              "2024-01-01T00:00:02.000Z" "yes" browsingSession sortedFs)))
    = Some m'
    /\ countersAgree (categorized (stats m'))
         (categorizationHistory
            (snd (fst (categorizePhoto scenarioHost showCounters
                         "2024-01-01T00:00:02.000Z" "yes" browsingSession sortedFs)))).
Proof.
  apply (categorizePhoto_keeps_counters scenarioHost showCounters _ "yes" browsingSession
           sortedFs (mkManager "/photos" emptyStats ∅)).
  - reflexivity.
  - split; [|split]; vm_compute; reflexivity.
Defined.

End Counters.

(* ===================================================================== *)
(** * The stats file *)
(* ===================================================================== *)

Section StatsFile.
Import Js Fs StatsManager StatsCounters.

Lemma append_not_self (s t : string) : t <> "" -> s +:+ t <> s.
Proof.
  intros Ht H. apply (f_equal String.length) in H.
  rewrite <- !length_chars, chars_app, length_app in H.
  destruct (JsString.chars t) as [|c l] eqn:E.
  - apply (f_equal JsString.str) in E. rewrite str_chars in E. done.
  - simpl in H. lia.
Qed.

(** X18: [saveStats] never throws and writes all or nothing.  After it,
    the stats file holds the new text or is what it was before; every
    path but the stats file and its temporary file is untouched. *)
Theorem saveStats_all_or_nothing
    (h : Host) (stringify : Stats -> string) (m : Manager) (fs : FS) :
  let fs' := snd (saveStats h stringify m fs) in
  fst (saveStats h stringify m fs) = Ok tt
  /\ (fs' !! statsPath m = Some (File (stringify (stats m)))
      \/ fs' !! statsPath m = fs !! statsPath m)
  /\ (forall p, p <> statsPath m -> p <> tempPath m -> fs' !! p = fs !! p).
Proof.
  assert (Hne : tempPath m <> statsPath m) by (by apply append_not_self).
  unfold saveStats, tryCatch, bind, writeFileSync.
  assert (Hrename : forall fs1,
            fs1 !! statsPath m = fs !! statsPath m ->
            (forall p, p <> statsPath m -> p <> tempPath m -> fs1 !! p = fs !! p) ->
            let r := renameSync h (tempPath m) (statsPath m)
                       (<[tempPath m := File (stringify (stats m))]> fs1) in
            let fs' := snd (match r with (Ok a, fs2) => (Ok a, fs2)
                                       | (Throw e, fs2) => ret tt fs2 end) in
            fst (match r with (Ok a, fs2) => (Ok a, fs2)
                            | (Throw e, fs2) => ret tt fs2 end) = Ok tt
            /\ (fs' !! statsPath m = Some (File (stringify (stats m)))
                \/ fs' !! statsPath m = fs !! statsPath m)
            /\ (forall p, p <> statsPath m -> p <> tempPath m -> fs' !! p = fs !! p)).
  { intros fs1 Hs Ho. unfold renameSync. rewrite lookup_insert_eq.
    set (fs2 := <[tempPath m := _]> fs1).
    assert (H2 : fs2 !! statsPath m = fs !! statsPath m
                 /\ forall p, p <> statsPath m -> p <> tempPath m -> fs2 !! p = fs !! p).
    { unfold fs2. split.
      - by rewrite lookup_insert_ne.
      - intros p H1 H2. rewrite lookup_insert_ne by done. by apply Ho. }
    destruct H2 as [H2s H2o].
    destruct (negb (existsSync fs2 (Path.dirname (statsPath m)))); [by auto|].
    destruct (readOnly h (tempPath m) || readOnly h (statsPath m)); [by auto|].
    destruct (negb (Nat.eqb _ _)); [by auto|].
    cbn [fst snd]. split; [done|]. split.
    - left. apply lookup_insert_eq.
    - intros p H1 H2. rewrite lookup_insert_ne by done.
      rewrite lookup_delete_ne by done. by apply H2o. }
  destruct (fs !! tempPath m) as [[c|]|] eqn:Et.
  - destruct (negb (existsSync fs (Path.dirname (tempPath m)))); [by auto|].
    destruct (readOnly h (tempPath m)); [by auto|]. by apply Hrename.
  - cbn. auto.
  - destruct (negb (existsSync fs (Path.dirname (tempPath m)))); [by auto|].
    destruct (readOnly h (tempPath m)); [by auto|]. by apply Hrename.
Qed.

End StatsFile.

(* ===================================================================== *)
(** * What the tag handlers answer *)
(* ===================================================================== *)

Section TagAnswers.
Import Js Fs PhotoSorter TagQueries.

Lemma tagHandler_answer_with_stats h now r a fs :
  statsManager a = true -> fst (fst (tagHandler h now r a fs)) = [].
Proof.
  intros Hs. unfold tagHandler.
  destruct (projectManager a) as [m|]; [|done].
  destruct (negb (JsString.truthy (requestPath r)) || negb (JsString.truthy (requestTag r)));
    [done|].
  destruct (mutateCurrent r (current m)) as [cur|e]; [|done].
  cbv zeta. destruct (save h now _ fs) as [[[[]|e] m2] fs']; [|done].
  by rewrite Hs.
Qed.

Lemma getTags_touch p now f : getTags (touch p now) f = getTags p f.
Proof. reflexivity. Qed.

(** X19: with a stats manager set, as it is once a folder has been
    opened, ['add-photo-tag'] answers the empty list although it has
    stored the tag: the call of [statsManager.updateFromProject], a
    method that does not exist, throws after the change.  A
    ['get-photo-tags'] or ['get-all-tags'] that follows finds the tag. *)
Theorem add_photo_tag_answers_empty_but_stores
    (h : Host) (now filePath tag : string) (a : App) (fs : FS) (m : Manager) (p : Project) :
  projectManager a = Some m -> current m = Some p ->
  statsManager a = true ->
  filePath <> "" -> normalizeTag tag <> "" ->
  let r := tagHandler h now (AddTag filePath tag) a fs in
  fst (fst r) = []
  /\ containsTag (getPhotoTags (snd (fst r)) filePath) (normalizeTag tag) = true
  /\ containsTag (getAllTagsHandler (snd (fst r))) (normalizeTag tag) = true.
Proof.
  intros Hm Hp Hs Hf Ht r. split; [by apply tagHandler_answer_with_stats|].
  assert (Htag : tag <> "") by (intros ->; by apply Ht).
  destruct (tagHandler_project h now (AddTag filePath tag) a fs m p Hm Hp)
    as (answer & timer & fs' & Heq).
  assert (Heff : effective (AddTag filePath tag) = true).
  { unfold effective. cbn [requestPath requestTag].
    apply andb_true_iff. split; by apply truthy_nonempty. }
  rewrite Heff in Heq. subst r. rewrite Heq. cbn [fst snd].
  unfold getPhotoTags, getAllTagsHandler, withManager.
  cbn [projectManager current mutate].
  apply truthy_nonempty in Hf. rewrite Hf. cbn [negb].
  rewrite getTags_touch, (getTags_addTag _ _ _ Ht).
  unfold getAllTags. cbn [touch allTags]. rewrite (allTags_addTag _ _ _ Ht).
  split.
  - fold (pushOnce (getTags p (Path.basename filePath)) (normalizeTag tag)).
    by apply containsTag_pushOnce.
  - fold (pushOnce (allTags p) (normalizeTag tag)). by apply containsTag_pushOnce.
Qed.

(** X19, witness: [Yes] added to the first photo of the opened folder. *)
Lemma add_photo_tag_answers_empty_but_stores_witness :
  let r := tagHandler scenarioHost "2024-01-01T00:00:01.000Z"
             (AddTag "/photos/img001.jpg" "Yes") openedApp openedFs in
  fst (fst r) = []
  /\ containsTag (getPhotoTags (snd (fst r)) "/photos/img001.jpg") (normalizeTag "Yes") = true
  /\ containsTag (getAllTagsHandler (snd (fst r))) (normalizeTag "Yes") = true.
Proof.
  apply (add_photo_tag_answers_empty_but_stores scenarioHost _ "/photos/img001.jpg" "Yes"
           openedApp openedFs
           (mkManager "/photos" (Some (newProject "2024-01-01T00:00:00.000Z")) None)
           (newProject "2024-01-01T00:00:00.000Z")).
  - reflexivity.
  - reflexivity.
  - reflexivity.
  - discriminate.
  - vm_compute. discriminate.
Defined.

End TagAnswers.

(* ===================================================================== *)
(** * What an export counts *)
(* ===================================================================== *)

Section ExportCounts.
Import Js Fs PhotoSorter.

Lemma planFile_lengths h g p exportRoot plan fileName fs plan' fs' :
  planFile h g p exportRoot plan fileName fs = (Ok plan', fs') ->
  List.length (moves plan')
  = List.length (moves plan)
    + (if Nat.eqb (List.length (tagsOf p fileName)) 0 then 0 else 1)
  /\ List.length (links plan')
     = List.length (links plan) + Nat.pred (List.length (tagsOf p fileName)).
Proof.
  unfold planFile, tagsOf.
  destruct (match Dict.get (images p) fileName with Some e => tags e | None => [] end)
    as [|primary secondary].
  - intros [= <- _]. simpl. lia.
  - intros H. apply bind_ok in H as ([] & fs1 & _ & H).
    apply bind_ok in H as (ls & fs2 & Hls & H). injection H as <- _.
    apply planLinks_shape in Hls as (new & -> & Hlen & _).
    cbn [moves links]. rewrite !length_app. simpl. lia.
Qed.

Lemma planFiles_lengths h g p exportRoot : forall scanned plan fs plan' fs',
  planFiles h g p exportRoot plan (map Path.basename scanned) fs = (Ok plan', fs') ->
  List.length (moves plan') = List.length (moves plan) + taggedPhotos p scanned
  /\ List.length (links plan') = List.length (links plan) + furtherTags p scanned.
Proof.
  unfold taggedPhotos, furtherTags.
  induction scanned as [|f rest IH]; intros plan fs plan' fs' H.
  - injection H as <- _. simpl. lia.
  - cbn [map planFiles] in H. apply bind_ok in H as (plan1 & fs1 & H1 & H).
    apply planFile_lengths in H1 as [Hm Hl]. apply IH in H as [Hm' Hl'].
    cbn [List.filter map]. change (list_sum (?x :: ?l)) with (x + list_sum l).
    destruct (Nat.eqb (List.length (tagsOf p (Path.basename f))) 0) eqn:E;
      cbn [negb List.length]; split; lia.
Qed.

(** X20: what a successful ['export-execute'] counts.  When the handler
    answers [{ ok: true, moved, linked }], [moved] is the number of
    scanned photos with at least one tag and [linked] the number of tags
    those photos have beyond their first; with no project loaded both
    are 0. *)
Theorem exportExecute_counts (h : Host) (g : Globals) (exportRootArg : option string)
    (fs : FS) (moved linked : nat) :
  fst (exportExecute h g exportRootArg fs) = Ok (ExecOk moved linked) ->
  match project g with
  | Some p => moved = taggedPhotos p (photos g) /\ linked = furtherTags p (photos g)
  | None => moved = 0 /\ linked = 0
  end.
Proof.
  unfold exportExecute, tryCatch, bind.
  destruct (buildExportPlan h g (chooseRoot g exportRootArg) fs) as [[plan|e] fs1] eqn:Hplan;
    [|discriminate].
  destruct (executeMoves h (moves plan) fs1) as [[[]|e] fs2]; [|discriminate].
  destruct (executeLinks h (links plan) fs2) as [[[]|e] fs3]; [|discriminate].
  cbn [fst ret]. intros [= <- <-].
  unfold buildExportPlan in Hplan. destruct (project g) as [p|].
  - apply planFiles_lengths in Hplan. cbn [moves links List.length] in Hplan. lia.
  - by injection Hplan as <- _.
Qed.

(** X20, witness: the export of the scenario moves two photos and links
    one. *)
Lemma exportExecute_counts_witness :
  2 = taggedPhotos scenarioProject ["/photos/img001.jpg"; "/photos/img002.jpg"]
  /\ 1 = furtherTags scenarioProject ["/photos/img001.jpg"; "/photos/img002.jpg"].
Proof.
  apply (exportExecute_counts scenarioHost scenarioGlobals None scenarioFs 2 1).
  vm_compute. reflexivity.
Defined.

End ExportCounts.

(* ===================================================================== *)
(** * What a revert removes *)
(* ===================================================================== *)

Section Revert.
Import Js Fs PhotoSorter.

Variable h : Host.
Hypothesis writable : forall q, readOnly h q = false.

Lemma removesOnly_refl fs : removesOnly fs fs.
Proof. by intros q. Qed.

Lemma removesOnly_trans fs1 fs2 fs3 :
  removesOnly fs1 fs2 -> removesOnly fs2 fs3 -> removesOnly fs1 fs3.
Proof. intros H12 H23 q Hq. by apply H23, H12. Qed.

Lemma tryUnlink_removesOnly p fs :
  fst (tryUnlink h p fs) = Ok tt /\ removesOnly fs (snd (tryUnlink h p fs)).
Proof.
  unfold tryUnlink, tryCatch, unlinkSync.
  destruct (fs !! p) as [[c|]|] eqn:E; cbn; try (split; [done | apply removesOnly_refl]).
  rewrite writable. cbn. split; [done|]. intros q Hq.
  destruct (decide (p = q)) as [->|Hne]; [apply lookup_delete_eq|].
  by rewrite lookup_delete_ne.
Qed.

Lemma no_readOnly_within p (l : list string) :
  existsb (fun q => within p q && readOnly h q) l = false.
Proof.
  induction l as [|q l IH]; [done|]. cbn [existsb].
  by rewrite writable, andb_false_r, IH.
Qed.

Lemma tryRmDirRecursive_clears p fs :
  fst (tryRmDirRecursive h p fs) = Ok tt
  /\ removesOnly fs (snd (tryRmDirRecursive h p fs))
  /\ forall q, within p q = true -> snd (tryRmDirRecursive h p fs) !! q = None.
Proof.
  unfold tryRmDirRecursive, tryCatch, rmSync. rewrite no_readOnly_within. cbn.
  split; [done|]. split.
  - intros q Hq. apply map_lookup_filter_None. by left.
  - intros q Hq. apply map_lookup_filter_None. right. intros x _. cbn. by rewrite Hq.
Qed.

Lemma removeTagDirs_clears folder ts : forall fs,
  fst (removeTagDirs h folder ts fs) = Ok tt
  /\ removesOnly fs (snd (removeTagDirs h folder ts fs))
  /\ forall t q, In t ts -> within (Path.join folder (safeTagToFolder t)) q = true ->
                 snd (removeTagDirs h folder ts fs) !! q = None.
Proof.
  induction ts as [|t ts IH]; intros fs; cbn [removeTagDirs].
  - cbn. split; [done|]. split; [apply removesOnly_refl | by intros ? ? []].
  - unfold bind.
    destruct (tryRmDirRecursive_clears (Path.join folder (safeTagToFolder t)) fs)
      as (Hok & Hsub & Hclear).
    destruct (tryRmDirRecursive h _ fs) as [[[]|e] fs1]; [|discriminate]. cbn [fst snd] in *.
    destruct (IH fs1) as (Hok' & Hsub' & Hclear').
    split; [done|]. split; [by eapply removesOnly_trans|].
    intros t' q [<-|Hin] Hq.
    + by apply Hsub', Hclear.
    + by apply (Hclear' t').
Qed.

(** X21: a revert that answers [{ ok: true, ... }] leaves nothing of the
    folder of any tag of the global tag list, whatever it held (also
    files the export had not put there), and nothing of the project
    directory; nothing read-only being in the way. *)
Theorem revert_removes_tag_folders
    (reopen : FS -> Manager * FS) (a : App) (fs : FS) (m : Manager) (p : Project)
    (restored removed : nat) :
  projectManager a = Some m -> current m = Some p ->
  fst (fst (revertExportHandler h reopen a fs)) = RevertOk restored removed ->
  forall q,
    (within (Path.join (appSourceFolder a) ".photo-sorter") q = true
     \/ exists t, In t (allTags p)
                  /\ within (Path.join (appSourceFolder a) (safeTagToFolder t)) q = true) ->
    snd (revertExportHandler h reopen a fs) !! q = None.
Proof.
  intros Hm Hp. unfold revertExportHandler. rewrite Hm, Hp. unfold bind.
  destruct (revertImages h (appSourceFolder a) (images p) 0 0 fs) as [[counts|e] fs1];
    [|discriminate].
  destruct (removeTagDirs_clears (appSourceFolder a) (allTags p) fs1) as (Hok & _ & Hclear).
  destruct (removeTagDirs h _ (allTags p) fs1) as [[[]|e] fs2]; [|discriminate].
  cbn [fst snd] in Hclear.
  destruct (tryUnlink_removesOnly
              (Path.join (Path.join (appSourceFolder a) ".photo-sorter") "project.json") fs2)
    as (Hok3 & Hsub3).
  destruct (tryUnlink h _ fs2) as [[[]|e] fs3]; [|discriminate]. cbn [fst snd] in Hsub3.
  destruct (tryRmDirRecursive_clears (Path.join (appSourceFolder a) ".photo-sorter") fs3)
    as (Hok4 & Hsub4 & Hclear4).
  destruct (tryRmDirRecursive h _ fs3) as [[[]|e] fs4]; [|discriminate].
  cbn [fst snd] in *. intros _ q [Hq|(t & Ht & Hq)].
  - by apply Hclear4.
  - apply Hsub4, Hsub3. by apply (Hclear t).
Qed.

End Revert.

(** X21, witness: the notes the user kept in the folder of [Yes] are
    gone after the revert. *)
Lemma revert_removes_tag_folders_witness :
  snd (PhotoSorter.revertExportHandler scenarioHost noReopen exportedApp exportedFs)
  !! "/photos/Yes/notes.txt" = None.
Proof.
  apply (revert_removes_tag_folders scenarioHost (fun _ => eq_refl) noReopen exportedApp
           exportedFs (PhotoSorter.mkManager "/photos" (Some scenarioProject) None)
           scenarioProject 2 1).
  - reflexivity.
  - reflexivity.
  - vm_compute. reflexivity.
  - right. exists "Yes". split; [by left | vm_compute; reflexivity].
Defined.

(* ===================================================================== *)
(** * Listing a directory *)
(* ===================================================================== *)

Section Listing.
Import Js Fs.

Lemma startsWithL_app d l : JsString.startsWithL d (d ++ l) = true.
Proof. induction d as [|c d IH]; [done|]. cbn. by rewrite Ascii.eqb_refl. Qed.

Lemma startsWithL_split d : forall l,
  JsString.startsWithL d l = true -> l = d ++ drop (List.length d) l.
Proof.
  induction d as [|c d IH]; intros l H; [done|].
  destruct l as [|x l]; [done|]. cbn in H.
  destruct (Ascii.eqb_spec c x) as [->|]; [|done]. cbn. f_equal. by apply IH.
Qed.

Lemma str_app a b : JsString.str (a ++ b) = JsString.str a +:+ JsString.str b.
Proof.
  rewrite <- (str_chars (JsString.str a +:+ JsString.str b)).
  by rewrite chars_app, !chars_str.
Qed.

Lemma append_inj_l (a b c : string) : a +:+ b = a +:+ c -> b = c.
Proof.
  intros H. apply (f_equal JsString.chars) in H. rewrite !chars_app in H.
  apply app_inv_head in H. rewrite <- (str_chars b), <- (str_chars c). by rewrite H.
Qed.

Lemma str_nonempty l : l <> [] -> JsString.str l <> "".
Proof. destruct l; [done | discriminate]. Qed.

Lemma entryName_Some dir q n :
  entryName dir q = Some n ->
  q = childPrefix dir +:+ n /\ n <> ""
  /\ existsb Path.isSep (JsString.chars n) = false.
Proof.
  unfold entryName. cbv zeta.
  destruct (JsString.startsWithL _ (JsString.chars q)) eqn:Hpre; [|done].
  destruct (Nat.eqb_spec (List.length
              (drop (List.length (JsString.chars (childPrefix dir))) (JsString.chars q))) 0)
    as [|Hlen]; [done|].
  destruct (existsb Path.isSep _) eqn:Hsep; [done|]. cbn [andb negb].
  intros [= <-]. apply startsWithL_split in Hpre. split; [|split].
  - rewrite <- (str_chars q) at 1. rewrite Hpre at 1. by rewrite str_app, str_chars.
  - apply str_nonempty. intros E. by rewrite E in Hlen.
  - by rewrite chars_str.
Qed.

Lemma entryName_child dir n :
  n <> "" -> existsb Path.isSep (JsString.chars n) = false ->
  entryName dir (childPrefix dir +:+ n) = Some n.
Proof.
  intros Hn Hsep. unfold entryName. cbv zeta.
  rewrite chars_app, startsWithL_app, drop_app_length, Hsep, str_chars.
  destruct (JsString.chars n) eqn:E; [|done].
  apply (f_equal JsString.str) in E. rewrite str_chars in E. done.
Qed.

Lemma NoDup_omap_inj {A B} (f : A -> option B) (l : list A) :
  (forall x y b, f x = Some b -> f y = Some b -> x = y) ->
  NoDup l -> NoDup (omap f l).
Proof.
  intros Hinj. induction 1 as [|x l Hx Hl IH]; cbn; [constructor|].
  destruct (f x) as [b|] eqn:E; [|exact IH]. constructor; [|exact IH].
  intros Hin. apply list_elem_of_omap in Hin as (y & Hy & Hfy).
  by rewrite (Hinj x y b E Hfy) in Hx.
Qed.

(** What [readdirSync] lists: without repetition, the names that are not
    empty, hold no separator, and name something in the directory. *)
Lemma readdirSync_lists dir (fs fs' : FS) items :
  readdirSync dir fs = (Ok items, fs') ->
  fs' = fs /\ fs !! dir = Some Dir /\ NoDup items
  /\ forall n, n ∈ items <->
       n <> "" /\ existsb Path.isSep (JsString.chars n) = false
       /\ is_Some (fs !! (childPrefix dir +:+ n)).
Proof.
  unfold readdirSync. destruct (fs !! dir) as [[c|]|]; try discriminate.
  intros [= <- <-]. split; [done|]. split; [done|]. split.
  - apply NoDup_omap_inj; [|apply NoDup_elements].
    intros x y b Hx Hy. apply entryName_Some in Hx as [-> _].
    by apply entryName_Some in Hy as [-> _].
  - intros n. rewrite list_elem_of_omap. split.
    + intros (q & Hq & Hn). apply entryName_Some in Hn as (-> & Hne & Hsep).
      split; [done|]. split; [done|]. by apply elem_of_elements, elem_of_dom in Hq.
    + intros (Hne & Hsep & Hin). exists (childPrefix dir +:+ n).
      split; [by apply elem_of_elements, elem_of_dom | by apply entryName_child].
Qed.

Lemma join_child dir n : dir <> "" -> n <> "" -> Path.join dir n = childPrefix dir +:+ n.
Proof.
  intros Hd Hn. unfold Path.join, childPrefix.
  destruct (String.eqb_spec dir ""); [done|]. destruct (String.eqb_spec n ""); [done|].
  destruct (Path.endsWithSep dir); [done | by rewrite append_assoc].
Qed.





End Listing.

(* ===================================================================== *)
(** * Scanning the folder *)
(* ===================================================================== *)

Section ScanningLemmas.
Import Js Fs Scanning.



End ScanningLemmas.


(* ===================================================================== *)
(** * Writing the project file *)
(* ===================================================================== *)

Section Backups.
Import Js Fs PhotoSorter ProjectFile.

Variable h : Host.

(** [unlinkEach] never throws, and what it changes are files it
    removes. *)
Lemma tryUnlink_removes_files p fs :
  fst (tryUnlink h p fs) = Ok tt
  /\ forall q, snd (tryUnlink h p fs) !! q = fs !! q
               \/ (q = p /\ snd (tryUnlink h p fs) !! q = None
                   /\ exists c, fs !! q = Some (File c)).
Proof.
  unfold tryUnlink, tryCatch, unlinkSync.
  destruct (fs !! p) as [[c|]|] eqn:E; cbn; try (split; [done | by left]).
  destruct (readOnly h p); cbn; [split; [done | by left]|].
  split; [done|]. intros q. destruct (decide (q = p)) as [->|Hne].
  - right. rewrite lookup_delete_eq. eauto.
  - left. by rewrite lookup_delete_ne.
Qed.

Lemma unlinkEach_removes_files dir entries : forall fs,
  fst (unlinkEach h dir entries fs) = Ok tt
  /\ forall q, snd (unlinkEach h dir entries fs) !! q = fs !! q
               \/ (In q (map (fun e => Path.join dir (fst e)) entries)
                   /\ snd (unlinkEach h dir entries fs) !! q = None
                   /\ exists c, fs !! q = Some (File c)).
Proof.
  induction entries as [|e rest IH]; intros fs; cbn [unlinkEach map].
  - cbn. split; [done | by left].
  - unfold bind. destruct (tryUnlink_removes_files (Path.join dir (fst e)) fs) as [Hok Hq].
    destruct (tryUnlink h _ fs) as [[[]|err] fs1]; [|discriminate]. cbn [fst snd] in Hq.
    destruct (IH fs1) as [Hok' Hq']. split; [done|]. intros q.
    destruct (Hq' q) as [Hsame|(Hin & Hnone & c & Hc)], (Hq q) as [Hsame1|(-> & Hnone1 & c1 & Hc1)].
    + left. congruence.
    + right. split; [by left|]. split; [congruence | eauto].
    + right. split; [by right|]. split; [done|]. exists c. congruence.
    + congruence.
Qed.

Section Writable.
Hypothesis writable : forall q, readOnly h q = false.

Lemma unlinkEach_removes_entry dir entries : forall fs e,
  In e entries -> fs !! Path.join dir (fst e) <> Some Dir ->
  snd (unlinkEach h dir entries fs) !! Path.join dir (fst e) = None.
Proof.
  induction entries as [|e0 rest IH]; intros fs e Hin Hnd; [done|].
  cbn [unlinkEach]. unfold bind.
  pose proof (tryUnlink_removes_files (Path.join dir (fst e0)) fs) as [Hok Hq].
  destruct (tryUnlink h (Path.join dir (fst e0)) fs) as [[[]|err] fs1] eqn:Htry;
    [|discriminate].
  cbn [fst snd] in Hq.
  destruct Hin as [->|Hin].
  - assert (Hgone : fs1 !! Path.join dir (fst e) = None).
    { unfold tryUnlink, tryCatch, unlinkSync in Htry.
      destruct (fs !! Path.join dir (fst e)) as [[c|]|] eqn:E; [| done |].
      - rewrite writable in Htry. injection Htry as <-. apply lookup_delete_eq.
      - injection Htry as <-. done. }
    destruct (unlinkEach_removes_files dir rest fs1) as [_ Hq'].
    destruct (Hq' (Path.join dir (fst e))) as [Hsame|(_ & Hnone & _)]; congruence.
  - apply IH; [done|]. destruct (Hq (Path.join dir (fst e))) as [->|(_ & -> & _)]; done.
Qed.

(** After the trim, a directory lists at most [MAX] files named like a
    backup. *)
Lemma trimBackups_keeps_five env dir (fs fs1 : FS) :
  dir <> "" ->
  trimBackups h env dir fs = (Ok tt, fs1) ->
  exists items,
    readdirSync dir fs1 = (Ok items, fs1)
    /\ List.length (List.filter (fun n => isBackupName n && isFile fs1 (Path.join dir n))
                                items) <= maxBackups.
Proof.
  intros Hdir H. unfold trimBackups in H.
  apply bind_ok in H as (items & fs0 & Hread & H).
  apply readdirSync_lists in Hread as (-> & Hd & Hnd & Hitems).
  set (files := map (fun f => (f, mtimeMs env (Path.join dir f)))
                    (List.filter isBackupName items)) in *.
  set (sorted := sortBy newestFirst files) in *.
  pose proof (unlinkEach_removes_files dir (drop maxBackups sorted) fs) as [_ Hq].
  pose proof (unlinkEach_removes_entry dir (drop maxBackups sorted) fs) as Hgone.
  rewrite H in Hq, Hgone. cbn [snd] in Hq, Hgone.
  assert (Hd1 : fs1 !! dir = Some Dir).
  { destruct (Hq dir) as [->|(_ & _ & c & Hc)]; [done | congruence]. }
  destruct (readdirSync dir fs1) as [[items1|e] fs1'] eqn:Hread1;
    [|unfold readdirSync in Hread1; rewrite Hd1 in Hread1; discriminate].
  pose proof Hread1 as Hlist. apply readdirSync_lists in Hlist as (-> & _ & Hnd1 & Hitems1).
  exists items1. split; [done|].
  transitivity (List.length (map fst (take maxBackups sorted)));
    [|rewrite length_map, length_take; unfold maxBackups; lia].
  apply submseteq_length, NoDup_submseteq.
  { apply NoDup_ListNoDup, List.NoDup_filter, NoDup_ListNoDup, Hnd1. }
  intros n Hn. apply list_elem_of_In, filter_In in Hn as [Hn Hkeep].
  apply andb_true_iff in Hkeep as [Hname Hfile].
  apply list_elem_of_In, Hitems1 in Hn as (Hne & Hsep & Hex).
  unfold isFile in Hfile.
  destruct (fs1 !! Path.join dir n) as [[c|]|] eqn:E1; try discriminate.
  assert (E : fs !! Path.join dir n = Some (File c)).
  { destruct (Hq (Path.join dir n)) as [<-|(_ & Hnone & _)]; [done | congruence]. }
  assert (Hin : In (n, mtimeMs env (Path.join dir n)) sorted).
  { eapply Permutation_in; [apply sortBy_perm|]. unfold files.
    apply in_map_iff. exists n. split; [done|]. apply filter_In. split; [|done].
    apply list_elem_of_In, Hitems. split; [done|]. split; [done|].
    rewrite <- (join_child _ _ Hdir Hne). by rewrite E. }
  rewrite <- (take_drop maxBackups sorted) in Hin. apply in_app_or in Hin as [Hin|Hin].
  - apply list_elem_of_In, in_map_iff. by exists (n, mtimeMs env (Path.join dir n)).
  - exfalso. apply Hgone in Hin; cbn [fst] in *; congruence.
Qed.

Lemma join_nonempty a b : b <> "" -> Path.join a b <> "".
Proof.
  intros Hb. unfold Path.join. destruct (String.eqb_spec a "") as [->|Ha]; [done|].
  destruct (String.eqb_spec b ""); [done|].
  destruct (Path.endsWithSep a); intros H; apply (f_equal JsString.chars) in H;
    rewrite chars_app in H; destruct (JsString.chars a) eqn:E; try discriminate;
    apply (f_equal JsString.str) in E; rewrite str_chars in E; done.
Qed.

(** X23: the backups are kept to five.  When the project file exists
    and the backup step of [#atomicWrite] runs to its end, the backups
    folder lists afterwards at most five files named like a backup,
    whatever it held before; nothing read-only being in the way. *)
Theorem backup_keeps_five (env : WriteEnv) (now : string) (m : Manager)
    (targetPath : string) (fs fs1 : FS) :
  existsSync fs targetPath = true ->
  backup h env now m targetPath fs = (Ok tt, fs1) ->
  exists items,
    readdirSync (backupsDir m) fs1 = (Ok items, fs1)
    /\ List.length (List.filter
                      (fun n => isBackupName n && isFile fs1 (Path.join (backupsDir m) n))
                      items) <= 5.
Proof.
  intros Hex H. unfold backup in H. rewrite Hex in H.
  apply bind_ok in H as ([] & fs2 & _ & H). apply bind_ok in H as ([] & fs3 & _ & H).
  apply trimBackups_keeps_five in H; [exact H|]. by apply join_nonempty.
Qed.

End Writable.

End Backups.

(** X23, witness: a seventh backup is made and the two oldest go. *)
Lemma backup_keeps_five_witness :
  let fs1 := snd (ProjectFile.backup scenarioHost toyWriteEnv "2024-01-01T00:00:01.000Z"
                    openedManager "/photos/.photo-sorter/project.json" backupsFs) in
  exists items,
    Fs.readdirSync "/photos/.photo-sorter/backups" fs1 = (Js.Ok items, fs1)
    /\ List.length
         (List.filter
            (fun n => ProjectFile.isBackupName n
                      && Fs.isFile fs1 (Path.join "/photos/.photo-sorter/backups" n))
            items) <= 5.
Proof.
  intros fs1.
  apply (backup_keeps_five scenarioHost (fun _ => eq_refl) toyWriteEnv
           "2024-01-01T00:00:01.000Z" openedManager
           "/photos/.photo-sorter/project.json" backupsFs fs1).
  - vm_compute. reflexivity.
  - apply pair_of_fst. vm_compute. reflexivity.
Defined.

Section Newest.
Import Js Fs PhotoSorter ProjectFile.

Variable h : Host.
Hypothesis writable : forall q, readOnly h q = false.

Lemma StronglySorted_app_le {A} (R : A -> A -> Prop) l1 l2 :
  StronglySorted R (l1 ++ l2) -> forall a b, In a l1 -> In b l2 -> R a b.
Proof.
  induction l1 as [|x l1 IH]; intros Hs a b Ha Hb; [done|].
  cbn [app] in Hs. apply StronglySorted_inv in Hs as [Hs Hx].
  destruct Ha as [->|Ha]; [|by apply IH].
  rewrite List.Forall_forall in Hx. apply Hx, in_or_app. by right.
Qed.

(** X24: the backups that go are the oldest.  When the trim of
    [#atomicWrite] has run, every file it removed was modified no later
    than every file named like a backup that it kept. *)
Theorem trimBackups_keeps_newest (env : WriteEnv) (dir : string) (fs fs1 : FS)
    (removed kept : string) :
  dir <> "" ->
  trimBackups h env dir fs = (Ok tt, fs1) ->
  isFile fs (Path.join dir removed) = true ->
  removed <> "" -> fs1 !! Path.join dir removed = None ->
  isBackupName kept = true -> isFile fs1 (Path.join dir kept) = true ->
  kept <> "" -> existsb Path.isSep (JsString.chars kept) = false ->
  (mtimeMs env (Path.join dir removed) <= mtimeMs env (Path.join dir kept))%Z.
Proof.
  intros Hdir H Hrf Hrne Hgone' Hkn Hkf Hkne Hksep. unfold trimBackups in H.
  apply bind_ok in H as (items & fs0 & Hread & H).
  apply readdirSync_lists in Hread as (-> & Hd & Hnd & Hitems).
  set (files := map (fun f => (f, mtimeMs env (Path.join dir f)))
                    (List.filter isBackupName items)) in *.
  set (sorted := sortBy newestFirst files) in *.
  pose proof (unlinkEach_removes_files h dir (drop maxBackups sorted) fs) as [_ Hq].
  pose proof (unlinkEach_removes_entry h writable dir (drop maxBackups sorted) fs) as Hgone.
  rewrite H in Hq, Hgone. cbn [snd] in Hq, Hgone.
  assert (Hfiles : forall e, In e sorted ->
            snd e = mtimeMs env (Path.join dir (fst e)) /\ fst e <> "").
  { intros e He. eapply Permutation_in in He; [|apply Permutation_sym, sortBy_perm].
    apply in_map_iff in He as (f & <- & Hf). split; [done|].
    apply filter_In in Hf as [Hf _]. by apply list_elem_of_In, Hitems in Hf as (? & _). }
  assert (Hsorted : StronglySorted (fun a b => (newestFirst a b <= 0)%Z) sorted).
  { apply sortBy_sorted; unfold newestFirst; intros; lia. }
  rewrite <- (take_drop maxBackups sorted) in Hsorted.
  (* the file that went is among those beyond the newest five *)
  assert (Hr : In (removed, mtimeMs env (Path.join dir removed)) (drop maxBackups sorted)).
  { unfold isFile in Hrf. destruct (fs !! Path.join dir removed) as [[c|]|] eqn:E; try done.
    destruct (Hq (Path.join dir removed)) as [Hsame|(Hin & _)]; [congruence|].
    apply in_map_iff in Hin as ([n2 t2] & Hj & Hin). cbn [fst] in Hj.
    destruct (Hfiles (n2, t2)) as [Ht Hn2];
      [rewrite <- (take_drop maxBackups sorted); apply in_or_app; by right|].
    cbn [fst snd] in Ht, Hn2.
    rewrite (join_child _ _ Hdir Hn2), (join_child _ _ Hdir Hrne) in Hj.
    apply append_inj_l in Hj. subst n2. by rewrite Ht in Hin. }
  (* the file that stayed is among the newest five *)
  assert (Hk : In (kept, mtimeMs env (Path.join dir kept)) (take maxBackups sorted)).
  { unfold isFile in Hkf. destruct (fs1 !! Path.join dir kept) as [[c|]|] eqn:E1; try done.
    assert (E : fs !! Path.join dir kept = Some (File c)).
    { destruct (Hq (Path.join dir kept)) as [<-|(_ & Hnone & _)]; [done | congruence]. }
    assert (Hin : In (kept, mtimeMs env (Path.join dir kept)) sorted).
    { eapply Permutation_in; [apply sortBy_perm|]. unfold files.
      apply in_map_iff. exists kept. split; [done|]. apply filter_In. split; [|done].
      apply list_elem_of_In, Hitems. split; [done|]. split; [done|].
      rewrite <- (join_child _ _ Hdir Hkne). by rewrite E. }
    rewrite <- (take_drop maxBackups sorted) in Hin. apply in_app_or in Hin as [Hin|Hin];
      [done|].
    exfalso. apply Hgone in Hin; cbn [fst] in *; congruence. }
  pose proof (StronglySorted_app_le _ _ _ Hsorted _ _ Hk Hr) as Hle.
  unfold newestFirst in Hle. cbn [snd] in Hle. lia.
Qed.

End Newest.

(** X24, witness: of six backups the oldest went and the newest
    stayed. *)
Lemma trimBackups_keeps_newest_witness :
  (ProjectFile.mtimeMs toyWriteEnv "/photos/.photo-sorter/backups/project-1.json"
   <= ProjectFile.mtimeMs toyWriteEnv "/photos/.photo-sorter/backups/project-6.json")%Z.
Proof.
  apply (trimBackups_keeps_newest scenarioHost (fun _ => eq_refl) toyWriteEnv
           "/photos/.photo-sorter/backups" backupsFs
           (snd (ProjectFile.trimBackups scenarioHost toyWriteEnv
                   "/photos/.photo-sorter/backups" backupsFs))
           "project-1.json" "project-6.json").
  - discriminate.
  - apply pair_of_fst. vm_compute. reflexivity.
  - vm_compute. reflexivity.
  - discriminate.
  - vm_compute. reflexivity.
  - reflexivity.
  - vm_compute. reflexivity.
  - discriminate.
  - reflexivity.
Defined.

Section AtomicWrite.
Import Js Fs PhotoSorter ProjectFile.

Variable h : Host.
Variable env : WriteEnv.

(** The temporary file is written and renamed: the target holds the new
    text, or is what it was. *)
Lemma write_then_rename tmp target contents (fs : FS) :
  tmp <> target ->
  let r := (writeFileSync h tmp contents ;; renameSync h tmp target) fs in
  (fst r = Ok tt -> snd r !! target = Some (File contents) /\ snd r !! tmp = None)
  /\ (forall e, fst r = Throw e -> snd r !! target = fs !! target).
Proof.
  intros Hne. unfold bind, writeFileSync.
  assert (Hrename :
    let r := renameSync h tmp target (<[tmp := File contents]> fs) in
    (fst r = Ok tt -> snd r !! target = Some (File contents) /\ snd r !! tmp = None)
    /\ (forall e, fst r = Throw e -> snd r !! target = fs !! target)).
  { unfold renameSync. rewrite lookup_insert_eq.
    destruct (negb (existsSync _ (Path.dirname target)));
      [cbn; split; [done | intros; by rewrite lookup_insert_ne]|].
    destruct (readOnly h tmp || readOnly h target);
      [cbn; split; [done | intros; by rewrite lookup_insert_ne]|].
    destruct (negb (Nat.eqb _ _));
      [cbn; split; [done | intros; by rewrite lookup_insert_ne]|].
    cbn. split; [|done]. intros _. split; [apply lookup_insert_eq|].
    rewrite lookup_insert_ne by done. apply lookup_delete_eq. }
  destruct (fs !! tmp) as [[c|]|]; [| by cbn |].
  - destruct (negb (existsSync fs (Path.dirname tmp))); [by cbn|].
    destruct (readOnly h tmp); [by cbn|]. exact Hrename.
  - destruct (negb (existsSync fs (Path.dirname tmp))); [by cbn|].
    destruct (readOnly h tmp); [by cbn|]. exact Hrename.
Qed.

Lemma childPrefix_cases dir : childPrefix dir = dir \/ childPrefix dir = dir +:+ "/".
Proof. unfold childPrefix. destruct (Path.endsWithSep dir); auto. Qed.

Lemma join_cases a b :
  Path.join a b = b \/ Path.join a b = a
  \/ Path.join a b = a +:+ b \/ Path.join a b = a +:+ "/" +:+ b.
Proof.
  unfold Path.join. destruct (String.eqb a ""); [auto|].
  destruct (String.eqb b ""); [auto|]. destruct (Path.endsWithSep a); auto.
Qed.

(** No path of the backups folder is the project file. *)
Lemma backups_not_target pd x :
  Path.join (Path.join pd "backups") x <> Path.join pd "project.json".
Proof.
  assert (Hb : exists s, (s = "" \/ s = "/") /\ Path.join pd "backups" = pd +:+ s +:+ "backups"
                         /\ Path.join pd "project.json" = pd +:+ s +:+ "project.json").
  { unfold Path.join. destruct (String.eqb_spec pd "") as [->|_]; [by exists ""; auto|].
    cbn [String.eqb Ascii.eqb Bool.eqb andb].
    destruct (Path.endsWithSep pd); [exists "" | exists "/"]; auto. }
  destruct Hb as (s & Hs & -> & ->).
  set (B := pd +:+ s +:+ "backups").
  assert (Hj : exists t, Path.join B x = B +:+ t).
  { destruct (join_cases B x) as [H|[H|[H|H]]].
    - unfold Path.join in *. destruct (String.eqb_spec B "") as [E|_].
      + exfalso. unfold B in E. apply (f_equal JsString.chars) in E.
        rewrite !chars_app in E. destruct (JsString.chars pd), Hs as [-> | ->]; discriminate.
      + destruct (String.eqb_spec x "") as [->|_]; [exists ""|].
        * clear. induction B as [|c B IH]; [done|].
          change (String c B = String c (B +:+ "")). by f_equal.
        * destruct (Path.endsWithSep B); [by exists x | by exists ("/" +:+ x)].
    - exists "". rewrite H. clear. induction B as [|c B IH]; [done|].
      change (String c B = String c (B +:+ "")). by f_equal.
    - by exists x.
    - by exists ("/" +:+ x). }
  destruct Hj as [t ->]. unfold B. rewrite !append_assoc.
  intros H. apply append_inj_l, append_inj_l in H.
  apply (f_equal JsString.chars) in H. rewrite chars_app in H. discriminate.
Qed.

(** The backup step leaves alone what lies outside the backups folder. *)
Lemma backup_outside now m targetPath (fs : FS) q :
  (forall x, Path.join (backupsDir m) x <> q) -> is_Some (fs !! q) ->
  snd (backup h env now m targetPath fs) !! q = fs !! q.
Proof.
  intros Hout Hq. unfold backup. destruct (existsSync fs targetPath); [|done].
  unfold bind.
  pose proof (addsDirsOnly_ensureDirSync h (backupsDir m) fs) as Hdirs.
  assert (H1 : snd (ensureDirSync h (backupsDir m) fs) !! q = fs !! q).
  { destruct (Hdirs q) as [->|[Hn _]]; [done|]. rewrite Hn in Hq. by destruct Hq. }
  destruct (ensureDirSync h (backupsDir m) fs) as [[[]|e] fs1]; cbn [snd] in H1; [|done].
  assert (H2 : snd (copyFileSync h targetPath (backupPath m now) fs1) !! q = fs !! q).
  { unfold copyFileSync. destruct (fs1 !! targetPath) as [[c|]|]; [|done|done].
    destruct (negb (existsSync fs1 _)); [done|]. destruct (readOnly h _); [done|].
    cbn [snd]. rewrite lookup_insert_ne; [done|]. apply Hout. }
  clear H1.
  destruct (copyFileSync h targetPath (backupPath m now) fs1) as [[[]|e] fs2]; [|done].
  cbn [snd] in H2. unfold trimBackups, bind, readdirSync.
  destruct (fs2 !! backupsDir m) as [[c|]|]; [done| |done].
  match goal with |- snd (unlinkEach h ?d ?es fs2) !! q = _ =>
    destruct (unlinkEach_removes_files h d es fs2) as [_ Hun] end.
  destruct (Hun q) as [->|(Hin & _)]; [done|].
  apply in_map_iff in Hin as (e & He & _). by apply Hout in He.
Qed.

Lemma atomicWrite_after_backup now m targetPath contents (fs : FS) :
  atomicWrite h env now m targetPath contents fs
  = (writeFileSync h (targetPath +:+ ".tmp") contents ;;
     renameSync h (targetPath +:+ ".tmp") targetPath)
      (snd (backup h env now m targetPath fs)).
Proof.
  unfold atomicWrite. unfold bind at 1. unfold tryCatch.
  by destruct (backup h env now m targetPath fs) as [[[]|e] fs1].
Qed.

Lemma backup_keeps_target now m (fs : FS) :
  snd (backup h env now m (projectFilePath m) fs) !! projectFilePath m
  = fs !! projectFilePath m.
Proof.
  destruct (fs !! projectFilePath m) as [n|] eqn:E.
  - rewrite <- E. apply backup_outside; [|by rewrite E].
    intros x. apply backups_not_target.
  - unfold backup, existsSync. by rewrite E.
Qed.

(** X25: [#atomicWrite] writes the project file all or nothing, whatever
    happens to the backups.  When it returns, the project file holds the
    new text and the temporary file is gone; when it throws, the project
    file is what it was before. *)
Theorem atomicWrite_all_or_nothing (now : string) (m : Manager) (contents : string)
    (fs : FS) :
  let r := atomicWrite h env now m (projectFilePath m) contents fs in
  (fst r = Ok tt ->
     snd r !! projectFilePath m = Some (File contents)
     /\ snd r !! (projectFilePath m +:+ ".tmp") = None)
  /\ (forall e, fst r = Throw e -> snd r !! projectFilePath m = fs !! projectFilePath m).
Proof.
  rewrite atomicWrite_after_backup, <- (backup_keeps_target now m fs).
  apply write_then_rename. by apply append_not_self.
Qed.

(** X26: the debounced write loses no request.  After tag requests on an
    opened folder, at least one of them effective, the timer that fires
    writes the project as it is in memory, with every change of the
    requests in it; when the write throws the project file is what it
    was; either way no write is pending afterwards. *)
Theorem timer_writes_memory (now : string) (reqs : list (string * TagRequest))
    (a : App) (fs : FS) (m : Manager) (p : Project) :
  projectManager a = Some m -> current m = Some p ->
  existsSync fs (projectDir m) = true ->
  List.filter effective (map snd reqs) <> [] ->
  exists m1 p1,
    projectManager (fst (runRequests h reqs a fs)) = Some m1
    /\ current m1 = Some p1
    /\ (exists u, p1 = touch (applyRequests p reqs) u)
    /\ let r := timerFires h env now m1 (snd (runRequests h reqs a fs)) in
       saveTimer (snd (fst r)) = None
       /\ current (snd (fst r)) = Some p1
       /\ (fst (fst r) = Ok tt ->
             snd r !! projectFilePath m = Some (File (stringify env p1)))
       /\ (forall e, fst (fst r) = Throw e ->
             snd r !! projectFilePath m = fs !! projectFilePath m).
Proof.
  intros Hm Hp Hdir Heff.
  destruct (runRequests_state h reqs a fs m p Hm Hp Hdir)
    as (p1 & timer & -> & Hu & Hset & _).
  rewrite (Hset Heff). eexists _, p1. cbn [fst snd projectManager current].
  split; [reflexivity|]. split; [reflexivity|]. split; [exact Hu|].
  unfold timerFires. cbn [saveTimer rootDirectory current].
  set (m1 := mkManager (rootDirectory m) (Some p1) (Some p1)).
  change (projectFilePath m) with (projectFilePath m1).
  assert (Hwrite :
    let r := atomicWrite h env now m1 (projectFilePath m1) (stringify env p1) fs in
    (fst r = Ok tt ->
       snd r !! projectFilePath m1 = Some (File (stringify env p1))
       /\ snd r !! (projectFilePath m1 +:+ ".tmp") = None)
    /\ (forall e, fst r = Throw e ->
          snd r !! projectFilePath m1 = fs !! projectFilePath m1)).
  { rewrite atomicWrite_after_backup, <- (backup_keeps_target now m1 fs).
    apply write_then_rename. by apply append_not_self. }
  destruct Hwrite as [Hok Hthrow].
  destruct (atomicWrite h env now m1 (projectFilePath m1) (stringify env p1) fs)
    as [r fs'].
  cbn [fst snd] in *. split; [done|]. split; [done|]. split; [|done].
  intros Hr. by apply Hok.
Qed.

End AtomicWrite.

(** X26, witness: one tag added to the opened folder, and the timer. *)
Lemma timer_writes_memory_witness :
  exists m1 p1,
    PhotoSorter.projectManager (fst (runRequests scenarioHost [tagYes] openedApp openedFs))
    = Some m1
    /\ PhotoSorter.current m1 = Some p1
    /\ getTags p1 "img001.jpg" = ["Yes"]
    /\ PhotoSorter.saveTimer
         (snd (fst (ProjectFile.timerFires scenarioHost toyWriteEnv
                      "2024-01-01T00:00:01.500Z" m1
                      (snd (runRequests scenarioHost [tagYes] openedApp openedFs)))))
       = None.
Proof.
  destruct (timer_writes_memory scenarioHost toyWriteEnv "2024-01-01T00:00:01.500Z"
              [tagYes] openedApp openedFs openedManager
              (newProject "2024-01-01T00:00:00.000Z"))
    as (m1 & p1 & Hm1 & Hp1 & [u Hu] & Hfire).
  - reflexivity.
  - reflexivity.
  - vm_compute. reflexivity.
  - vm_compute. discriminate.
  - exists m1, p1. split; [exact Hm1|]. split; [exact Hp1|].
    split; [by rewrite Hu | exact (proj1 Hfire)].
Defined.
